(** * Serial channel protocol engine: line framing, median filter, metrics
    and the connect / command / continuous-read life cycle.

    Shallow embedding of [speed-test/serial-test.js] (class
    [SerialPerformanceTest]) and of the multi-channel front end (classes
    [MultiChannelSerialTest] and [SerialChannel]).

    - JavaScript strings are sequences of UTF-16 code units: [list N].
    - JavaScript numbers are doubles without their rounding: not-a-number,
      the two infinities and the rationals (a finite double is a rational
      and the comparisons agree).  [Date.now()] is an integer number of
      milliseconds: [Z].
    - [async] methods are sequential code over a state that holds the
      object's fields and the history of the I/O operations it performed;
      the serial port, the streams and the clock answer from a [transport]
      script.  A rejected promise or a [throw] is the [Throw] result, an
      awaited promise that never settles the [Pending] result.  The
      interleaving of two methods of one object is not modelled.
    - Writes to the document are left out, but for the three device
      elements and the metric elements of the single-channel page.

    The definitions come first: strings, the line framer, numbers, the
    weight filter, the metrics, the I/O model, the three classes and the
    text of the log displays.  The properties follow, the claims of the
    specification among them, each under a comment that names it. *)

From Stdlib Require Import String Ascii.
From Stdlib Require Import List Arith ZArith NArith QArith Lia Lqa Bool.
From Stdlib Require Import Sorting.Sorted Sorting.Permutation.
Import ListNotations.

Set Implicit Arguments.

Close Scope Q_scope.
Open Scope nat_scope.

(* ================================================================== *)
(** ** JavaScript strings *)

Module JS.

Definition jsstring := list N.

(** A string literal of the source, as code units. *)
Definition lit (s : string) : jsstring :=
  map N_of_ascii (list_ascii_of_string s).

Definition LF : N := 10%N.
Definition CR : N := 13%N.

(** ECMAScript WhiteSpace and LineTerminator code points, the ones
    [String.prototype.trim] strips. *)
Definition is_white_space (c : N) : bool :=
  ((9 <=? c) && (c <=? 13) || (c =? 32) || (c =? 160) || (c =? 5760)
   || (8192 <=? c) && (c <=? 8202) || (c =? 8232) || (c =? 8233)
   || (c =? 8239) || (c =? 8287) || (c =? 12288) || (c =? 65279))%N.

Fixpoint trimStart (s : jsstring) : jsstring :=
  match s with
  | [] => []
  | c :: r => if is_white_space c then trimStart r else s
  end.

Definition trimEnd (s : jsstring) : jsstring := rev (trimStart (rev s)).

(** [s.trim()] *)
Definition trim (s : jsstring) : jsstring := trimEnd (trimStart s).

(** Truthiness of a string: the empty string is falsy. *)
Definition truthy (s : jsstring) : bool :=
  match s with [] => false | _ :: _ => true end.

(** [o || ''] for [o] a string or [undefined]. *)
Definition or_empty (o : option jsstring) : jsstring :=
  match o with
  | Some s => if truthy s then s else []
  | None => []
  end.

(** Puts [c] in front of the first segment. *)
Definition cons_head (c : N) (segs : list jsstring) : list jsstring :=
  match segs with
  | [] => [[c]]
  | h :: t => (c :: h) :: t
  end.

(** [s.split(/\r?\n/)]: the matches are found left to right; at a carriage
    return directly followed by a line feed the match takes both, at a line
    feed it takes one code unit, elsewhere there is no match.  The result
    always has at least one segment (the pattern matches no empty string). *)
Fixpoint split_lines (s : jsstring) : list jsstring :=
  match s with
  | [] => [[]]
  | c :: r =>
      if (c =? LF)%N then [] :: split_lines r
      else
        match r with
        | d :: r' =>
            if ((c =? CR) && (d =? LF))%N then [] :: split_lines r'
            else cons_head c (split_lines r)
        | [] => cons_head c (split_lines r)
        end
  end.

(** [a.pop()]: the removed last element ([undefined] on an empty array) and
    the array that is left. *)
Definition pop {A} (a : list A) : option A * list A :=
  match a with
  | [] => (None, [])
  | x :: t => (Some (last a x), removelast a)
  end.

(** [a.shift()] as far as the array is concerned. *)
Definition shift {A} (a : list A) : list A := tl a.

End JS.

Import JS.

(* ================================================================== *)
(** ** Line framer: [createLineTransformStream] *)

Module LineFramer.

(** The closure variable [buffer] is the whole state of the stream. *)
Record t := mk { buffer : jsstring }.

(** [createLineTransformStream()]: [let buffer = '']. *)
Definition createLineTransformStream : t := mk [].

(** [transform(chunk, controller)]: the new state and the lines handed to
    [controller.enqueue], in order. *)
Definition transform (f : t) (chunk : jsstring) : t * list jsstring :=
  let buffer := buffer f ++ chunk in
  let lines := split_lines buffer in
  let '(last_line, lines) := pop lines in
  let buffer := or_empty last_line in
  (mk buffer, filter (fun line => truthy (trim line)) lines).

(** [flush(controller)]: the lines enqueued when the writable side closes. *)
Definition flush (f : t) : list jsstring :=
  if truthy (trim (buffer f)) then [buffer f] else [].

(** Writing the chunks one after the other. *)
Fixpoint feed (f : t) (chunks : list jsstring) : t * list jsstring :=
  match chunks with
  | [] => (f, [])
  | chunk :: rest =>
      let '(f1, out1) := transform f chunk in
      let '(f2, out2) := feed f1 rest in
      (f2, out1 ++ out2)
  end.

(** Writing the chunks and closing the stream. *)
Definition feed_close (f : t) (chunks : list jsstring) : list jsstring :=
  let '(f', out) := feed f chunks in out ++ flush f'.

End LineFramer.

(** Text made of lines and the separators between them. *)
Inductive separator := SepLF | SepCRLF.

Definition separator_text (s : separator) : jsstring :=
  match s with SepLF => [LF] | SepCRLF => [CR; LF] end.

(** [lines] joined by the separators of [seps], taken in order (a line feed
    where [seps] has run out). *)
Fixpoint join_lines (lines : list jsstring) (seps : list separator) : jsstring :=
  match lines with
  | [] => []
  | [l] => l
  | l :: ls => l ++ separator_text (hd SepLF seps) ++ join_lines ls (tl seps)
  end.

(** A line has no line feed in it and no carriage return at its end. *)
Definition is_line (l : jsstring) : Prop :=
  ~ In LF l /\ last l 0%N <> CR.

Definition non_blank (l : jsstring) : Prop := trim l <> [].

(* ================================================================== *)
(** ** JavaScript numbers *)

Module Num.

Local Open Scope Q_scope.

(** A double without its rounding: not-a-number, the two infinities and
    the finite values.  The two zeros are not told apart; nothing in the
    modelled code does.  Comparisons, minima and maxima are those of the
    doubles; a sum or a quotient is exact here where a double is rounded,
    so of a sum or a quotient nothing is stated below but that it is zero
    or that it equals one computed in the same way. *)
Inductive number := NaN | NegInf | Fin (q : Q) | PosInf.

Definition isNaN (x : number) : bool :=
  match x with NaN => true | _ => false end.

(** [a + b] *)
Definition add (a b : number) : number :=
  match a, b with
  | NaN, _ | _, NaN => NaN
  | PosInf, NegInf | NegInf, PosInf => NaN
  | PosInf, _ | _, PosInf => PosInf
  | NegInf, _ | _, NegInf => NegInf
  | Fin x, Fin y => Fin (x + y)
  end.

(** [a - b] *)
Definition sub (a b : number) : number :=
  match a, b with
  | NaN, _ | _, NaN => NaN
  | PosInf, PosInf | NegInf, NegInf => NaN
  | PosInf, _ | _, NegInf => PosInf
  | NegInf, _ | _, PosInf => NegInf
  | Fin x, Fin y => Fin (x - y)
  end.

(** [x > 0] *)
Definition gt0 (x : number) : bool :=
  match x with
  | PosInf => true
  | Fin q => negb (Qle_bool q 0)
  | _ => false
  end.

(** [a < b] *)
Definition ltb (a b : number) : bool :=
  match a, b with
  | NaN, _ | _, NaN => false
  | _, NegInf | PosInf, _ => false
  | NegInf, _ | _, PosInf => true
  | Fin x, Fin y => negb (Qle_bool y x)
  end.

(** [x / n] for [n] the length of an array. *)
Definition div_length (x : number) (n : nat) : number :=
  match n with
  | O =>
      match x with
      | PosInf => PosInf
      | NegInf => NegInf
      | NaN => NaN
      | Fin q => if gt0 x then PosInf else if Qle_bool 0 q then NaN else NegInf
      end
  | S _ =>
      match x with
      | Fin q => Fin (q / inject_Z (Z.of_nat n))
      | _ => x
      end
  end.

Definition min2 (a b : number) : number :=
  if isNaN a || isNaN b then NaN else if ltb b a then b else a.

Definition max2 (a b : number) : number :=
  if isNaN a || isNaN b then NaN else if ltb a b then b else a.

(** [Math.min(...l)] and [Math.max(...l)] *)
Definition Math_min (l : list number) : number := fold_left min2 l PosInf.
Definition Math_max (l : list number) : number := fold_left max2 l NegInf.

(** [l.reduce((a, b) => a + b, 0)] *)
Definition sum (l : list number) : number := fold_left add l (Fin 0).

(** The order of the values that are numbers. *)
Definition le (a b : number) : Prop :=
  match a, b with
  | NaN, _ | _, NaN => False
  | NegInf, _ | _, PosInf => True
  | Fin x, Fin y => (x <= y)%Q
  | _, _ => False
  end.

(** The same value (the equality [===] decides on numbers). *)
Definition same (a b : number) : Prop :=
  match a, b with
  | NegInf, NegInf | PosInf, PosInf => True
  | Fin x, Fin y => (x == y)%Q
  | _, _ => False
  end.

Definition is_number (x : number) : Prop := x <> NaN.

(** [[...a].sort((a, b) => a - b)]: the sort is stable, and [b] goes before
    [a] only where the comparator is positive; insertion from the right end
    computes that order. *)
Fixpoint insert (x : number) (l : list number) : list number :=
  match l with
  | [] => [x]
  | y :: t => if gt0 (sub x y) then y :: insert x t else x :: y :: t
  end.

Fixpoint sort (l : list number) : list number :=
  match l with
  | [] => []
  | x :: t => insert x (sort t)
  end.

End Num.

Import Num.

(* ================================================================== *)
(** ** Weight filter: [filterWithMedian] *)

Module WeightFilter.

Definition windowSize : nat := 5.

(** [filterWithMedian(newWeight)]: the value returned ([None] is
    [undefined]) and the new [weightWindow]. *)
Definition filterWithMedian (weightWindow : list number) (newWeight : number)
  : option number * list number :=
  let weightWindow := weightWindow ++ [newWeight] in
  let weightWindow :=
    if windowSize <? length weightWindow then shift weightWindow
    else weightWindow in
  let sorted := sort weightWindow in
  (nth_error sorted (length sorted / 2), weightWindow).

(** Pushing values one after the other; the outputs in order. *)
Fixpoint push_all (weightWindow : list number) (values : list number)
  : list (option number) * list number :=
  match values with
  | [] => ([], weightWindow)
  | v :: vs =>
      let '(out, w1) := filterWithMedian weightWindow v in
      let '(outs, w2) := push_all w1 vs in
      (out :: outs, w2)
  end.

End WeightFilter.

(** In the words of the specification: the lower median of a list is the
    element at index [(n - 1) / 2] of its ascending sort, the upper median
    the one at index [n / 2]; they are the same element when [n] is odd. *)
Definition lower_median_index (n : nat) : nat := (n - 1) / 2.
Definition upper_median_index (n : nat) : nat := n / 2.

Definition lower_median (l : list number) : option number :=
  nth_error (sort l) (lower_median_index (length l)).
Definition upper_median (l : list number) : option number :=
  nth_error (sort l) (upper_median_index (length l)).

(* ================================================================== *)
(** ** Metrics of a channel *)

Module Metrics.

Record reading := mkReading {
  weight : option number;   (* a number or undefined *)
  latency : number;
  timestamp : Z
}.

(** [this.metrics] of a [SerialChannel]. *)
Record t := mk {
  readings : list reading;
  latencies : list number;
  readingsInLastSecond : list Z;
  readingsPerSecond : nat;
  totalReadings : nat;
  avgLatency : number;
  minLatency : number;
  maxLatency : number
}.

(** The object literal of the constructor. *)
Definition initial : t := mk [] [] [] 0 0 (Fin 0) (Fin 0) (Fin 0).

(** [updateReadingsPerSecond()], with [now] the value of [Date.now()]. *)
Definition updateReadingsPerSecond (now : Z) (m : t) : t :=
  let kept :=
    filter (fun timestamp => (now - timestamp <? 1000)%Z) (readingsInLastSecond m) in
  mk (readings m) (latencies m) kept (length kept) (totalReadings m)
     (avgLatency m) (minLatency m) (maxLatency m).

(** The part of [processReading(weight, latency)] that touches the metrics;
    [timestamp] and [now] are the two values of [Date.now()], the first read
    by [processReading], the second by [updateReadingsPerSecond]. *)
Definition processReading (weight : option number) (latency : number)
    (timestamp now : Z) (m : t) : t :=
  let readings := readings m ++ [mkReading weight latency timestamp] in
  let latencies := latencies m ++ [latency] in
  let inLastSecond := readingsInLastSecond m ++ [timestamp] in
  let readings := if 1000 <? length readings then shift readings else readings in
  let latencies := if 1000 <? length latencies then shift latencies else latencies in
  updateReadingsPerSecond now
    (mk readings latencies inLastSecond (readingsPerSecond m) (totalReadings m)
        (avgLatency m) (minLatency m) (maxLatency m)).

(** [updateMetrics()] *)
Definition updateMetrics (m : t) : t :=
  if length (readings m) =? 0 then m
  else
    let avgLatency := div_length (sum (latencies m)) (length (latencies m)) in
    let minLatency := Math_min (latencies m) in
    let maxLatency := Math_max (latencies m) in
    mk (readings m) (latencies m) (readingsInLastSecond m) (readingsPerSecond m)
       (length (readings m)) avgLatency minLatency maxLatency.

(** The part of [clearData()] that touches the metrics, before its call of
    [updateMetrics]. *)
Definition clear (m : t) : t :=
  mk [] [] [] 0 (totalReadings m) (avgLatency m) (minLatency m) (maxLatency m).

(** One accepted reading: the arguments of [processReading] and the two
    values of the clock it reads. *)
Record sample := mkSample {
  s_weight : option number;
  s_latency : number;
  s_timestamp : Z;
  s_now : Z
}.

(** The readings processed one after the other. *)
Definition record_all (samples : list sample) (m : t) : t :=
  fold_left
    (fun m s => processReading (s_weight s) (s_latency s) (s_timestamp s) (s_now s) m)
    samples m.

(** The values the clock gave, in the order it was read. *)
Definition clock_reads (samples : list sample) : list Z :=
  flat_map (fun s => [s_timestamp s; s_now s]) samples.

(** The clock never ran backwards. *)
Fixpoint nondecreasing (l : list Z) : bool :=
  match l with
  | a :: (b :: _) as t => (a <=? b)%Z && nondecreasing t
  | _ => true
  end.

(** All the latencies kept are 0. *)
Definition zero_latencies (m : t) : Prop :=
  Forall (fun l => l = Fin 0) (latencies m) /\
  Forall (fun r => latency r = Fin 0) (readings m) /\
  length (readings m) = length (latencies m).

(** The three derived latency metrics are 0. *)
Definition zero_latency_metrics (m : t) : Prop :=
  same (avgLatency m) (Fin 0) /\ minLatency m = Fin 0 /\ maxLatency m = Fin 0.

End Metrics.

(* ================================================================== *)
(** ** Sequential model of the asynchronous code *)

Module IO.

(** An [Error] object. *)
Record error := mkError { name : jsstring; message : jsstring }.

(** [new Error(message)] *)
Definition Error (message : jsstring) : error := mkError (lit "Error") message.

(** The operations on the port and on the streams that settle later or can
    throw.  [pipeTo] returns a promise nobody awaits and [getReader] is
    called on a stream just created; they have no event. *)
Inductive io_event :=
| EvRequestPort                 (* navigator.serial.requestPort() *)
| EvOpen (baudRate : Z)         (* port.open({ baudRate }) *)
| EvGetWriter                   (* textEncoder.writable.getWriter() *)
| EvWrite (data : jsstring)     (* writer.write(data) *)
| EvRead                        (* lineReader.read() *)
| EvCancel                      (* lineReader.cancel() *)
| EvReleaseReader               (* lineReader.releaseLock() *)
| EvReleaseWriter               (* writer.releaseLock() *)
| EvClose.                      (* port.close() *)

(** The kind of an operation, whatever its arguments. *)
Inductive io_kind :=
| KRequestPort | KOpen | KGetWriter | KWrite | KRead
| KCancel | KReleaseReader | KReleaseWriter | KClose.

Definition kind_of (ev : io_event) : io_kind :=
  match ev with
  | EvRequestPort => KRequestPort
  | EvOpen _ => KOpen
  | EvGetWriter => KGetWriter
  | EvWrite _ => KWrite
  | EvRead => KRead
  | EvCancel => KCancel
  | EvReleaseReader => KReleaseReader
  | EvReleaseWriter => KReleaseWriter
  | EvClose => KClose
  end.

Definition kind_eqb (a b : io_kind) : bool :=
  match a, b with
  | KRequestPort, KRequestPort | KOpen, KOpen | KGetWriter, KGetWriter
  | KWrite, KWrite | KRead, KRead | KCancel, KCancel
  | KReleaseReader, KReleaseReader | KReleaseWriter, KReleaseWriter
  | KClose, KClose => true
  | _, _ => false
  end.

(** How many operations of kind [k] were performed so far. *)
Definition occurrences (k : io_kind) (trace : list io_event) : nat :=
  length (filter (fun ev => kind_eqb (kind_of ev) k) trace).

(** What [lineReader.read()] resolves to, when it does. *)
Inductive read_outcome :=
| ReadValue (value : jsstring)  (* { value, done: false } *)
| ReadDone                      (* { done: true } *)
| ReadPending.                  (* no line ever arrives *)

(** The world outside the object.  [failure ev n] is the error the
    operation [ev] throws or rejects with when it is the [n]-th of its kind
    (from 0), [line n] what the [n]-th read resolves to, [clock n] the
    [n]-th value of [Date.now()]. *)
Record transport := mkTransport {
  failure : io_event -> nat -> option error;
  line : nat -> read_outcome;
  clock : nat -> Z
}.

Record world := mkWorld {
  dev : transport;
  trace : list io_event;   (* oldest first *)
  ticks : nat              (* calls of [Date.now()] so far *)
}.

(** How an awaited call ends: a value, an exception, or never. *)
Inductive result (A : Type) :=
| Ret (a : A)
| Throw (e : error)
| Pending.
Arguments Ret {A} a.
Arguments Throw {A} e.
Arguments Pending {A}.

(** States that hold the world. *)
Class HasWorld (S : Type) := {
  world_of : S -> world;
  with_world : world -> S -> S
}.

Definition M (S A : Type) : Type := S -> result A * S.

Definition ret {S A} (a : A) : M S A := fun s => (Ret a, s).

Definition bind {S A B} (m : M S A) (k : A -> M S B) : M S B :=
  fun s =>
    match m s with
    | (Ret a, s') => k a s'
    | (Throw e, s') => (Throw e, s')
    | (Pending, s') => (Pending, s')
    end.

Definition throw {S A} (e : error) : M S A := fun s => (Throw e, s).

(** [try { body } catch (error) { handler }] *)
Definition try_catch {S A} (body : M S A) (handler : error -> M S A) : M S A :=
  fun s =>
    match body s with
    | (Throw e, s') => handler e s'
    | r => r
    end.

Definition get {S} : M S S := fun s => (Ret s, s).
Definition modify {S} (f : S -> S) : M S unit := fun s => (Ret tt, f s).

(** [if (c) { m }] *)
Definition when {S} (c : bool) (m : M S unit) : M S unit :=
  if c then m else ret tt.

Definition record_event {S} `{HasWorld S} (ev : io_event) (s : S) : S :=
  let w := world_of s in
  with_world (mkWorld (dev w) (trace w ++ [ev]) (ticks w)) s.

(** An operation that resolves to nothing or rejects. *)
Definition perform {S} `{HasWorld S} (ev : io_event) : M S unit :=
  fun s =>
    let w := world_of s in
    match failure (dev w) ev (occurrences (kind_of ev) (trace w)) with
    | Some e => (Throw e, record_event ev s)
    | None => (Ret tt, record_event ev s)
    end.

(** [lineReader.read()]: [Some value], or [None] for [done]. *)
Definition read {S} `{HasWorld S} : M S (option jsstring) :=
  fun s =>
    let w := world_of s in
    let n := occurrences KRead (trace w) in
    match failure (dev w) EvRead n with
    | Some e => (Throw e, record_event EvRead s)
    | None =>
        match line (dev w) n with
        | ReadValue value => (Ret (Some value), record_event EvRead s)
        | ReadDone => (Ret None, record_event EvRead s)
        | ReadPending => (Pending, record_event EvRead s)
        end
    end.

(** [Date.now()] *)
Definition Date_now {S} `{HasWorld S} : M S Z :=
  fun s =>
    let w := world_of s in
    (Ret (clock (dev w) (ticks w)),
     with_world (mkWorld (dev w) (trace w) (Datatypes.S (ticks w))) s).

(** Severity of a log line. *)
Inductive severity := info | warning | error_ | debug | success.

Fixpoint eqb (a b : jsstring) : bool :=
  match a, b with
  | [], [] => true
  | x :: a', y :: b' => (x =? y)%N && eqb a' b'
  | _, _ => false
  end.

(** A string or [null] inside a template literal. *)
Definition show (o : option jsstring) : jsstring :=
  match o with Some s => s | None => lit "null" end.

(** The steps of [steps] performed one after the other until one fails:
    the steps attempted, the failing one included, and the error it threw. *)
Fixpoint attempted (d : transport) (trace : list io_event) (steps : list io_event)
  : list io_event * option error :=
  match steps with
  | [] => ([], None)
  | ev :: rest =>
      match failure d ev (occurrences (kind_of ev) trace) with
      | Some e => ([ev], Some e)
      | None =>
          let '(evs, r) := attempted d (trace ++ [ev]) rest in
          (ev :: evs, r)
      end
  end.

(** The release steps of [disconnect()], in the order of the source. *)
Definition release_steps : list io_event :=
  [EvCancel; EvReleaseReader; EvReleaseWriter; EvClose].

(** The release steps of [disconnect()] that its three guards let
    through: [if (this.lineReader)], [if (this.writer)] and
    [if (this.port)]. *)
Definition held_steps (lineReader writer port : bool) : list io_event :=
  (if lineReader then [EvCancel; EvReleaseReader] else []) ++
  (if writer then [EvReleaseWriter] else []) ++
  (if port then [EvClose] else []).

(** A computation keeps an invariant of the state, however it ends. *)
Definition preserves {S A} (I : S -> Prop) (m : M S A) : Prop :=
  forall s, I s -> I (snd (m s)).

End IO.

Import IO.

Declare Scope io_scope.
Delimit Scope io_scope with io.
Notation "x <- m ;; k" := (bind m (fun x => k))
  (at level 61, m at next level, right associativity) : io_scope.
Notation "m ;; k" := (bind m (fun _ => k))
  (at level 61, right associativity) : io_scope.
Open Scope io_scope.

(* ================================================================== *)
(** ** One channel of the multi-channel front end: class [SerialChannel] *)

Module SerialChannel.

(** The fields of the object.  [port], [lineReader] and [writer] hold an
    object ([true]) or [null]; the device fields a string or [null].
    [console] is what [log] printed, oldest first, without the time of day
    in front; [timers] the delays of the restarts asked of [setTimeout];
    [env] the world outside.  The lines [lineReader.read()] yields are the
    ones the line framer enqueued; the script of [env] stands for them. *)
Record t := mk {
  baudRate : Z;
  isConnected : bool;
  isReading : bool;
  port : bool;
  lineReader : bool;
  writer : bool;
  deviceId : option jsstring;
  deviceCapacity : option jsstring;
  deviceUnits : option jsstring;
  metrics : Metrics.t;
  weightWindow : list number;
  console : list (severity * jsstring);
  timers : list Z;
  env : world
}.

Definition set_isConnected (v : bool) (c : t) : t :=
  mk (baudRate c) v (isReading c) (port c) (lineReader c) (writer c) (deviceId c) (deviceCapacity c) (deviceUnits c) (metrics c) (weightWindow c) (console c) (timers c) (env c).
Definition set_isReading (v : bool) (c : t) : t :=
  mk (baudRate c) (isConnected c) v (port c) (lineReader c) (writer c) (deviceId c) (deviceCapacity c) (deviceUnits c) (metrics c) (weightWindow c) (console c) (timers c) (env c).
Definition set_port (v : bool) (c : t) : t :=
  mk (baudRate c) (isConnected c) (isReading c) v (lineReader c) (writer c) (deviceId c) (deviceCapacity c) (deviceUnits c) (metrics c) (weightWindow c) (console c) (timers c) (env c).
Definition set_lineReader (v : bool) (c : t) : t :=
  mk (baudRate c) (isConnected c) (isReading c) (port c) v (writer c) (deviceId c) (deviceCapacity c) (deviceUnits c) (metrics c) (weightWindow c) (console c) (timers c) (env c).
Definition set_writer (v : bool) (c : t) : t :=
  mk (baudRate c) (isConnected c) (isReading c) (port c) (lineReader c) v (deviceId c) (deviceCapacity c) (deviceUnits c) (metrics c) (weightWindow c) (console c) (timers c) (env c).
Definition set_deviceId (v : option jsstring) (c : t) : t :=
  mk (baudRate c) (isConnected c) (isReading c) (port c) (lineReader c) (writer c) v (deviceCapacity c) (deviceUnits c) (metrics c) (weightWindow c) (console c) (timers c) (env c).
Definition set_deviceCapacity (v : option jsstring) (c : t) : t :=
  mk (baudRate c) (isConnected c) (isReading c) (port c) (lineReader c) (writer c) (deviceId c) v (deviceUnits c) (metrics c) (weightWindow c) (console c) (timers c) (env c).
Definition set_deviceUnits (v : option jsstring) (c : t) : t :=
  mk (baudRate c) (isConnected c) (isReading c) (port c) (lineReader c) (writer c) (deviceId c) (deviceCapacity c) v (metrics c) (weightWindow c) (console c) (timers c) (env c).
Definition set_metrics (v : Metrics.t) (c : t) : t :=
  mk (baudRate c) (isConnected c) (isReading c) (port c) (lineReader c) (writer c) (deviceId c) (deviceCapacity c) (deviceUnits c) v (weightWindow c) (console c) (timers c) (env c).
Definition set_weightWindow (v : list number) (c : t) : t :=
  mk (baudRate c) (isConnected c) (isReading c) (port c) (lineReader c) (writer c) (deviceId c) (deviceCapacity c) (deviceUnits c) (metrics c) v (console c) (timers c) (env c).
Definition set_console (v : list (severity * jsstring)) (c : t) : t :=
  mk (baudRate c) (isConnected c) (isReading c) (port c) (lineReader c) (writer c) (deviceId c) (deviceCapacity c) (deviceUnits c) (metrics c) (weightWindow c) v (timers c) (env c).
Definition set_timers (v : list Z) (c : t) : t :=
  mk (baudRate c) (isConnected c) (isReading c) (port c) (lineReader c) (writer c) (deviceId c) (deviceCapacity c) (deviceUnits c) (metrics c) (weightWindow c) (console c) v (env c).
Definition set_env (v : world) (c : t) : t :=
  mk (baudRate c) (isConnected c) (isReading c) (port c) (lineReader c) (writer c) (deviceId c) (deviceCapacity c) (deviceUnits c) (metrics c) (weightWindow c) (console c) (timers c) v.

#[export] Instance t_world : HasWorld t := {
  world_of := env;
  with_world := set_env
}.

(** [new SerialChannel(id, baudRate, parent)] *)
Definition constructor (baudRate : Z) (dev : transport) : t :=
  mk baudRate false false false false false None None None
     Metrics.initial [] [] [] (mkWorld dev [] 0).

(** [this.log(message, type = 'info')] *)
Definition log (message : jsstring) (type : severity) : M t unit :=
  modify (fun c => set_console (console c ++ [(type, message)]) c).

(** [updateUI()] and [this.parent.onChannelStateChange()] write to the
    document only. *)
Definition updateUI : M t unit := ret tt.
Definition onChannelStateChange : M t unit := ret tt.

(** [readResponse()]: the trimmed line, [''] for a falsy value, [null]
    ([None]) when the stream is done. *)
Definition readResponse : M t (option jsstring) :=
  c <- get;;
  if negb (lineReader c) then throw (Error (lit "Line reader not available"))
  else
    try_catch
      (r <- read;;
       match r with
       | None => ret None
       | Some value => ret (Some (if truthy value then trim value else []))
       end)
      (fun error =>
         log (lit "Error reading response: " ++ message error) error_;;
         throw error).

(** [sendCommand(command)] *)
Definition sendCommand (command : jsstring) : M t (option jsstring) :=
  c <- get;;
  if negb (writer c) then throw (Error (lit "Writer not available"))
  else
    try_catch
      (perform (EvWrite (command ++ [CR]));;
       log (lit "Command sent: " ++ command) debug;;
       response <- readResponse;;
       ret response)
      (fun error =>
         log (lit "Error sending command " ++ command ++ lit ": " ++ message error)
             error_;;
         throw error).

(** [getDeviceInfo()] *)
Definition getDeviceInfo : M t unit :=
  try_catch
    (deviceId <- sendCommand (lit "id");;
     modify (set_deviceId deviceId);;
     updateUI;;
     log (lit "Device ID: " ++ show deviceId) info;;
     capacity <- sendCommand (lit "slc");;
     modify (set_deviceCapacity capacity);;
     units <- sendCommand (lit "units");;
     modify (set_deviceUnits units))
    (fun error =>
       log (lit "Error getting device info: " ++ message error) error_;;
       modify (set_deviceId (Some (lit "Error")));;
       updateUI).

(** [connect()] *)
Definition connect : M t unit :=
  try_catch
    (perform EvRequestPort;;
     modify (set_port true);;
     c <- get;;
     perform (EvOpen (baudRate c));;
     modify (set_lineReader true);;
     perform EvGetWriter;;
     modify (set_writer true);;
     modify (set_isConnected true);;
     updateUI;;
     log (lit "Successfully connected to serial device") info;;
     getDeviceInfo;;
     onChannelStateChange)
    (fun error =>
       if eqb (name error) (lit "NotFoundError")
       then log (lit "User cancelled port selection") warning
       else log (lit "Connection error: " ++ message error) error_).

(** [stopReading()] *)
Definition stopReading : M t unit :=
  modify (set_isReading false);;
  updateUI;;
  c <- get;;
  when (writer c)
    (try_catch
       (sendCommand [];;
        log (lit "Stopped continuous weight reading") info)
       (fun error =>
          log (lit "Error stopping continuous reading: " ++ message error) error_));;
  log (lit "Stopped reading") info;;
  onChannelStateChange.

(** [disconnect()] *)
Definition disconnect : M t unit :=
  try_catch
    (c <- get;;
     when (isReading c) stopReading;;
     c <- get;;
     when (lineReader c)
       (perform EvCancel;;
        perform EvReleaseReader;;
        modify (set_lineReader false));;
     c <- get;;
     when (writer c)
       (perform EvReleaseWriter;;
        modify (set_writer false));;
     c <- get;;
     when (port c)
       (perform EvClose;;
        modify (set_port false));;
     modify (set_isConnected false);;
     modify (set_deviceId None);;
     modify (set_deviceCapacity None);;
     modify (set_deviceUnits None);;
     updateUI;;
     log (lit "Disconnected from serial device") info;;
     onChannelStateChange)
    (fun error =>
       log (lit "Disconnect error: " ++ message error) error_).

(** [filterWithMedian(newWeight)] on the object's window. *)
Definition filterWithMedian (newWeight : number) : M t (option number) :=
  c <- get;;
  let '(median, window) := WeightFilter.filterWithMedian (weightWindow c) newWeight in
  modify (set_weightWindow window);;
  ret median.

(** [processReading(weight, latency)] *)
Definition processReading (weight : option number) (latency : number) : M t unit :=
  timestamp <- Date_now;;
  now <- Date_now;;
  modify (fun c =>
            set_metrics (Metrics.processReading weight latency timestamp now (metrics c)) c).

(** [updateMetrics()] *)
Definition updateMetrics : M t unit :=
  modify (fun c => set_metrics (Metrics.updateMetrics (metrics c)) c).

(** [clearData()] *)
Definition clearData : M t unit :=
  modify (fun c => set_metrics (Metrics.clear (metrics c)) c);;
  modify (set_weightWindow []);;
  updateMetrics.

(** [refreshDeviceInfo()] *)
Definition refreshDeviceInfo : M t unit :=
  c <- get;;
  when (isConnected c) getDeviceInfo.

Section Reading.

(** [parseFloat] of the host. *)
Variable parseFloat : jsstring -> number.

(** The body of the loop of [readWeightContinuous] once a line was read. *)
Definition process_line (value : jsstring) : M t unit :=
  if truthy value && truthy (trim value) then
    let weight := parseFloat (trim value) in
    if negb (isNaN weight) then
      filteredWeight <- filterWithMedian weight;;
      processReading filteredWeight (Fin 0);;
      updateMetrics
    else ret tt
  else ret tt.

(** [while (this.isReading) { ... }], at most [fuel] turns; a loop that
    has not ended within them is still pending. *)
Fixpoint read_loop (fuel : nat) : M t unit :=
  match fuel with
  | O => fun c => (Pending, c)
  | S fuel' =>
      c <- get;;
      if isReading c then
        r <- read;;
        match r with
        | None => log (lit "Serial stream ended") warning
        | Some value => process_line value;; read_loop fuel'
        end
      else ret tt
  end.

(** [readWeightContinuous()] *)
Definition readWeightContinuous (fuel : nat) : M t unit :=
  try_catch
    (sendCommand (lit "wc");;
     log (lit "Started continuous weight reading with wc command") info;;
     read_loop fuel)
    (fun error =>
       log (lit "Error in readWeightContinuous: " ++ message error) error_;;
       c <- get;;
       when (isReading c) (modify (fun c => set_timers (timers c ++ [100%Z]) c))).

(** [startReading()] *)
Definition startReading (fuel : nat) : M t unit :=
  c <- get;;
  if negb (isConnected c) || isReading c then ret tt
  else
    modify (set_isReading true);;
    updateUI;;
    log (lit "Starting continuous reading...") info;;
    readWeightContinuous fuel.

(** What the page can ask of a channel. *)
Inductive action :=
| Connect
| Disconnect
| StartReading (fuel : nat)
| StopReading
| RefreshDeviceInfo
| ClearData.

Definition perform_action (a : action) : M t unit :=
  match a with
  | Connect => connect
  | Disconnect => disconnect
  | StartReading fuel => startReading fuel
  | StopReading => stopReading
  | RefreshDeviceInfo => refreshDeviceInfo
  | ClearData => clearData
  end.

(** Calls made one after the other.  A call that hangs is left where it
    hangs and is never resumed: the next call starts from the state it
    has reached.  Calls that overlap in the source (one resuming after a
    later one has begun) are outside this function; see [settled_run]
    for the runs in which every call has returned. *)
Fixpoint perform_actions (actions : list action) (c : t) : t :=
  match actions with
  | [] => c
  | a :: rest => perform_actions rest (snd (perform_action a c))
  end.

End Reading.

End SerialChannel.

(* ================================================================== *)
(** ** The single-channel front end: class [SerialPerformanceTest] *)

Module SerialPerformanceTest.

Record reading := mkReading {
  weight : option number;   (* the filtered weight *)
  rawWeight : number;
  latency : number;
  timestamp : Z
}.

(** [this.currentMethod] *)
Inductive method := onread | interval | continuous.

Definition is_onread (m : method) : bool :=
  match m with onread => true | _ => false end.

(** The elements of the page the modelled methods write to: the text of the
    three device fields, and the numbers whose [toFixed] or decimal form the
    metric fields show ([None]: the text the page came with). *)
Record elements_t := mkElements {
  deviceId_text : jsstring;
  deviceCapacity_text : jsstring;
  deviceUnits_text : jsstring;
  avgLatency_shown : option number;
  minLatency_shown : option number;
  maxLatency_shown : option number;
  totalReadings_shown : option nat;
  readingsPerSecond_shown : option nat
}.

Definition set_deviceId_text (v : jsstring) (e : elements_t) : elements_t :=
  mkElements v (deviceCapacity_text e) (deviceUnits_text e) (avgLatency_shown e) (minLatency_shown e) (maxLatency_shown e) (totalReadings_shown e) (readingsPerSecond_shown e).
Definition set_deviceCapacity_text (v : jsstring) (e : elements_t) : elements_t :=
  mkElements (deviceId_text e) v (deviceUnits_text e) (avgLatency_shown e) (minLatency_shown e) (maxLatency_shown e) (totalReadings_shown e) (readingsPerSecond_shown e).
Definition set_deviceUnits_text (v : jsstring) (e : elements_t) : elements_t :=
  mkElements (deviceId_text e) (deviceCapacity_text e) v (avgLatency_shown e) (minLatency_shown e) (maxLatency_shown e) (totalReadings_shown e) (readingsPerSecond_shown e).
Definition set_avgLatency_shown (v : option number) (e : elements_t) : elements_t :=
  mkElements (deviceId_text e) (deviceCapacity_text e) (deviceUnits_text e) v (minLatency_shown e) (maxLatency_shown e) (totalReadings_shown e) (readingsPerSecond_shown e).
Definition set_minLatency_shown (v : option number) (e : elements_t) : elements_t :=
  mkElements (deviceId_text e) (deviceCapacity_text e) (deviceUnits_text e) (avgLatency_shown e) v (maxLatency_shown e) (totalReadings_shown e) (readingsPerSecond_shown e).
Definition set_maxLatency_shown (v : option number) (e : elements_t) : elements_t :=
  mkElements (deviceId_text e) (deviceCapacity_text e) (deviceUnits_text e) (avgLatency_shown e) (minLatency_shown e) v (totalReadings_shown e) (readingsPerSecond_shown e).
Definition set_totalReadings_shown (v : option nat) (e : elements_t) : elements_t :=
  mkElements (deviceId_text e) (deviceCapacity_text e) (deviceUnits_text e) (avgLatency_shown e) (minLatency_shown e) (maxLatency_shown e) v (readingsPerSecond_shown e).
Definition set_readingsPerSecond_shown (v : option nat) (e : elements_t) : elements_t :=
  mkElements (deviceId_text e) (deviceCapacity_text e) (deviceUnits_text e) (avgLatency_shown e) (minLatency_shown e) (maxLatency_shown e) (totalReadings_shown e) v.

(** The fields of the object, as for a [SerialChannel]; [intervalId] holds
    a timer ([true]) or [null]. *)
Record t := mk {
  baudRate : Z;
  isConnected : bool;
  isReading : bool;
  port : bool;
  lineReader : bool;
  writer : bool;
  deviceId : option jsstring;
  deviceCapacity : option jsstring;
  deviceUnits : option jsstring;
  readings : list reading;
  latencies : list number;
  readingsInLastSecond : list Z;
  readingsPerSecond : nat;
  weightWindow : list number;
  currentMethod : method;
  intervalId : bool;
  elements : elements_t;
  console : list (severity * jsstring);
  timers : list Z;
  env : world
}.

Definition set_isConnected (v : bool) (c : t) : t :=
  mk (baudRate c) v (isReading c) (port c) (lineReader c) (writer c) (deviceId c) (deviceCapacity c) (deviceUnits c) (readings c) (latencies c) (readingsInLastSecond c) (readingsPerSecond c) (weightWindow c) (currentMethod c) (intervalId c) (elements c) (console c) (timers c) (env c).
Definition set_isReading (v : bool) (c : t) : t :=
  mk (baudRate c) (isConnected c) v (port c) (lineReader c) (writer c) (deviceId c) (deviceCapacity c) (deviceUnits c) (readings c) (latencies c) (readingsInLastSecond c) (readingsPerSecond c) (weightWindow c) (currentMethod c) (intervalId c) (elements c) (console c) (timers c) (env c).
Definition set_port (v : bool) (c : t) : t :=
  mk (baudRate c) (isConnected c) (isReading c) v (lineReader c) (writer c) (deviceId c) (deviceCapacity c) (deviceUnits c) (readings c) (latencies c) (readingsInLastSecond c) (readingsPerSecond c) (weightWindow c) (currentMethod c) (intervalId c) (elements c) (console c) (timers c) (env c).
Definition set_lineReader (v : bool) (c : t) : t :=
  mk (baudRate c) (isConnected c) (isReading c) (port c) v (writer c) (deviceId c) (deviceCapacity c) (deviceUnits c) (readings c) (latencies c) (readingsInLastSecond c) (readingsPerSecond c) (weightWindow c) (currentMethod c) (intervalId c) (elements c) (console c) (timers c) (env c).
Definition set_writer (v : bool) (c : t) : t :=
  mk (baudRate c) (isConnected c) (isReading c) (port c) (lineReader c) v (deviceId c) (deviceCapacity c) (deviceUnits c) (readings c) (latencies c) (readingsInLastSecond c) (readingsPerSecond c) (weightWindow c) (currentMethod c) (intervalId c) (elements c) (console c) (timers c) (env c).
Definition set_deviceId (v : option jsstring) (c : t) : t :=
  mk (baudRate c) (isConnected c) (isReading c) (port c) (lineReader c) (writer c) v (deviceCapacity c) (deviceUnits c) (readings c) (latencies c) (readingsInLastSecond c) (readingsPerSecond c) (weightWindow c) (currentMethod c) (intervalId c) (elements c) (console c) (timers c) (env c).
Definition set_deviceCapacity (v : option jsstring) (c : t) : t :=
  mk (baudRate c) (isConnected c) (isReading c) (port c) (lineReader c) (writer c) (deviceId c) v (deviceUnits c) (readings c) (latencies c) (readingsInLastSecond c) (readingsPerSecond c) (weightWindow c) (currentMethod c) (intervalId c) (elements c) (console c) (timers c) (env c).
Definition set_deviceUnits (v : option jsstring) (c : t) : t :=
  mk (baudRate c) (isConnected c) (isReading c) (port c) (lineReader c) (writer c) (deviceId c) (deviceCapacity c) v (readings c) (latencies c) (readingsInLastSecond c) (readingsPerSecond c) (weightWindow c) (currentMethod c) (intervalId c) (elements c) (console c) (timers c) (env c).
Definition set_readings (v : list reading) (c : t) : t :=
  mk (baudRate c) (isConnected c) (isReading c) (port c) (lineReader c) (writer c) (deviceId c) (deviceCapacity c) (deviceUnits c) v (latencies c) (readingsInLastSecond c) (readingsPerSecond c) (weightWindow c) (currentMethod c) (intervalId c) (elements c) (console c) (timers c) (env c).
Definition set_latencies (v : list number) (c : t) : t :=
  mk (baudRate c) (isConnected c) (isReading c) (port c) (lineReader c) (writer c) (deviceId c) (deviceCapacity c) (deviceUnits c) (readings c) v (readingsInLastSecond c) (readingsPerSecond c) (weightWindow c) (currentMethod c) (intervalId c) (elements c) (console c) (timers c) (env c).
Definition set_readingsInLastSecond (v : list Z) (c : t) : t :=
  mk (baudRate c) (isConnected c) (isReading c) (port c) (lineReader c) (writer c) (deviceId c) (deviceCapacity c) (deviceUnits c) (readings c) (latencies c) v (readingsPerSecond c) (weightWindow c) (currentMethod c) (intervalId c) (elements c) (console c) (timers c) (env c).
Definition set_readingsPerSecond (v : nat) (c : t) : t :=
  mk (baudRate c) (isConnected c) (isReading c) (port c) (lineReader c) (writer c) (deviceId c) (deviceCapacity c) (deviceUnits c) (readings c) (latencies c) (readingsInLastSecond c) v (weightWindow c) (currentMethod c) (intervalId c) (elements c) (console c) (timers c) (env c).
Definition set_weightWindow (v : list number) (c : t) : t :=
  mk (baudRate c) (isConnected c) (isReading c) (port c) (lineReader c) (writer c) (deviceId c) (deviceCapacity c) (deviceUnits c) (readings c) (latencies c) (readingsInLastSecond c) (readingsPerSecond c) v (currentMethod c) (intervalId c) (elements c) (console c) (timers c) (env c).
Definition set_currentMethod (v : method) (c : t) : t :=
  mk (baudRate c) (isConnected c) (isReading c) (port c) (lineReader c) (writer c) (deviceId c) (deviceCapacity c) (deviceUnits c) (readings c) (latencies c) (readingsInLastSecond c) (readingsPerSecond c) (weightWindow c) v (intervalId c) (elements c) (console c) (timers c) (env c).
Definition set_intervalId (v : bool) (c : t) : t :=
  mk (baudRate c) (isConnected c) (isReading c) (port c) (lineReader c) (writer c) (deviceId c) (deviceCapacity c) (deviceUnits c) (readings c) (latencies c) (readingsInLastSecond c) (readingsPerSecond c) (weightWindow c) (currentMethod c) v (elements c) (console c) (timers c) (env c).
Definition set_elements (v : elements_t) (c : t) : t :=
  mk (baudRate c) (isConnected c) (isReading c) (port c) (lineReader c) (writer c) (deviceId c) (deviceCapacity c) (deviceUnits c) (readings c) (latencies c) (readingsInLastSecond c) (readingsPerSecond c) (weightWindow c) (currentMethod c) (intervalId c) v (console c) (timers c) (env c).
Definition set_console (v : list (severity * jsstring)) (c : t) : t :=
  mk (baudRate c) (isConnected c) (isReading c) (port c) (lineReader c) (writer c) (deviceId c) (deviceCapacity c) (deviceUnits c) (readings c) (latencies c) (readingsInLastSecond c) (readingsPerSecond c) (weightWindow c) (currentMethod c) (intervalId c) (elements c) v (timers c) (env c).
Definition set_timers (v : list Z) (c : t) : t :=
  mk (baudRate c) (isConnected c) (isReading c) (port c) (lineReader c) (writer c) (deviceId c) (deviceCapacity c) (deviceUnits c) (readings c) (latencies c) (readingsInLastSecond c) (readingsPerSecond c) (weightWindow c) (currentMethod c) (intervalId c) (elements c) (console c) v (env c).
Definition set_env (v : world) (c : t) : t :=
  mk (baudRate c) (isConnected c) (isReading c) (port c) (lineReader c) (writer c) (deviceId c) (deviceCapacity c) (deviceUnits c) (readings c) (latencies c) (readingsInLastSecond c) (readingsPerSecond c) (weightWindow c) (currentMethod c) (intervalId c) (elements c) (console c) (timers c) v.

#[export] Instance t_world : HasWorld t := {
  world_of := env;
  with_world := set_env
}.

Definition on_elements (f : elements_t -> elements_t) : M t unit :=
  modify (fun c => set_elements (f (elements c)) c).

(** What [textContent] holds after a string or [null] was assigned. *)
Definition text_of (o : option jsstring) : jsstring :=
  match o with Some s => s | None => [] end.

(** [this.log(message, type = 'info')] *)
Definition log (message : jsstring) (type : severity) : M t unit :=
  modify (fun c => set_console (console c ++ [(type, message)]) c).

(** [updateConnectionStatus()] and [updateReadingStatus()] write to the
    document only. *)
Definition updateConnectionStatus : M t unit := ret tt.
Definition updateReadingStatus : M t unit := ret tt.

(** [readResponse()] *)
Definition readResponse : M t (option jsstring) :=
  c <- get;;
  if negb (lineReader c) then throw (Error (lit "Line reader not available"))
  else
    try_catch
      (r <- read;;
       match r with
       | None => ret None
       | Some value => ret (Some (if truthy value then trim value else []))
       end)
      (fun error =>
         log (lit "Error reading response: " ++ message error) error_;;
         throw error).

(** [sendCommand(command)] *)
Definition sendCommand (command : jsstring) : M t (option jsstring) :=
  c <- get;;
  if negb (writer c) then throw (Error (lit "Writer not available"))
  else
    try_catch
      (c <- get;;
       if isReading c && is_onread (currentMethod c) then
         log (lit "Command sent during continuous reading: " ++ command) debug;;
         perform (EvWrite (command ++ [CR]));;
         ret (Some (lit "sent"))
       else
         perform (EvWrite (command ++ [CR]));;
         log (lit "Command sent: " ++ command) debug;;
         response <- readResponse;;
         ret response)
      (fun error =>
         log (lit "Error sending command " ++ command ++ lit ": " ++ message error)
             error_;;
         throw error).

(** [getDeviceInfo()] *)
Definition getDeviceInfo : M t unit :=
  try_catch
    (deviceId <- sendCommand (lit "id");;
     modify (set_deviceId deviceId);;
     on_elements (set_deviceId_text (text_of deviceId));;
     log (lit "Device ID: " ++ show deviceId) info;;
     capacity <- sendCommand (lit "slc");;
     modify (set_deviceCapacity capacity);;
     on_elements (set_deviceCapacity_text (text_of capacity));;
     log (lit "Device Capacity: " ++ show capacity) info;;
     units <- sendCommand (lit "units");;
     modify (set_deviceUnits units);;
     on_elements (set_deviceUnits_text (text_of units));;
     log (lit "Device Units: " ++ show units) info)
    (fun error =>
       log (lit "Error getting device info: " ++ message error) error_;;
       on_elements (set_deviceId_text (lit "Error"));;
       on_elements (set_deviceCapacity_text (lit "Error"));;
       on_elements (set_deviceUnits_text (lit "Error"))).

(** [stopReading()] *)
Definition stopReading : M t unit :=
  modify (set_isReading false);;
  updateReadingStatus;;
  c <- get;;
  when (intervalId c) (modify (set_intervalId false));;
  c <- get;;
  when (writer c && is_onread (currentMethod c))
    (try_catch
       (sendCommand [];;
        log (lit "Stopped continuous weight reading") info)
       (fun error =>
          log (lit "Error stopping continuous reading: " ++ message error) error_));;
  log (lit "Stopped reading") info.

(** [disconnect()] *)
Definition disconnect : M t unit :=
  try_catch
    (c <- get;;
     when (isReading c) stopReading;;
     c <- get;;
     when (lineReader c)
       (perform EvCancel;;
        perform EvReleaseReader;;
        modify (set_lineReader false));;
     c <- get;;
     when (writer c)
       (perform EvReleaseWriter;;
        modify (set_writer false));;
     c <- get;;
     when (port c)
       (perform EvClose;;
        modify (set_port false));;
     modify (set_isConnected false);;
     updateConnectionStatus;;
     modify (set_deviceId None);;
     modify (set_deviceCapacity None);;
     modify (set_deviceUnits None);;
     on_elements (set_deviceId_text (lit "Not Connected"));;
     on_elements (set_deviceCapacity_text (lit "Not Connected"));;
     on_elements (set_deviceUnits_text (lit "Not Connected"));;
     log (lit "Disconnected from serial device") info)
    (fun error =>
       log (lit "Disconnect error: " ++ message error) error_).

(** [connect()] *)
Definition connect : M t unit :=
  try_catch
    (log (lit "Attempting to connect to serial device...") info;;
     perform EvRequestPort;;
     modify (set_port true);;
     c <- get;;
     perform (EvOpen (baudRate c));;
     modify (set_lineReader true);;
     perform EvGetWriter;;
     modify (set_writer true);;
     modify (set_isConnected true);;
     updateConnectionStatus;;
     log (lit "Successfully connected to serial device") success;;
     getDeviceInfo)
    (fun error =>
       if eqb (name error) (lit "NotFoundError")
       then log (lit "User cancelled port selection") warning
       else log (lit "Connection error: " ++ message error) error_).

(** [tare()] *)
Definition tare : M t unit :=
  try_catch
    (sendCommand (lit "ct0");;
     log (lit "Tare command sent") info)
    (fun error =>
       log (lit "Tare error: " ++ message error) error_).

(** [filterWithMedian(newWeight)] on the object's window. *)
Definition filterWithMedian (newWeight : number) : M t (option number) :=
  c <- get;;
  let '(median, window) := WeightFilter.filterWithMedian (weightWindow c) newWeight in
  modify (set_weightWindow window);;
  ret median.

(** [updateReadingsPerSecond()] *)
Definition updateReadingsPerSecond : M t unit :=
  now <- Date_now;;
  modify (fun c =>
            set_readingsInLastSecond
              (filter (fun timestamp => (now - timestamp <? 1000)%Z)
                      (readingsInLastSecond c)) c);;
  modify (fun c => set_readingsPerSecond (length (readingsInLastSecond c)) c);;
  c <- get;;
  on_elements (set_readingsPerSecond_shown (Some (readingsPerSecond c))).

(** [updateMetrics()] *)
Definition updateMetrics : M t unit :=
  c <- get;;
  if length (readings c) =? 0 then ret tt
  else
    let avgLatency := div_length (sum (latencies c)) (length (latencies c)) in
    let minLatency := Math_min (latencies c) in
    let maxLatency := Math_max (latencies c) in
    on_elements (set_avgLatency_shown (Some avgLatency));;
    on_elements (set_minLatency_shown (Some minLatency));;
    on_elements (set_maxLatency_shown (Some maxLatency));;
    on_elements (set_totalReadings_shown (Some (length (readings c)))).

(** [processReading(weight, latency)]; [updateDisplays] and [logRawData]
    write to the document only. *)
Definition processReading (weight : number) (latency : number) : M t unit :=
  timestamp <- Date_now;;
  filteredWeight <- filterWithMedian weight;;
  modify (fun c =>
            set_readings (readings c ++ [mkReading filteredWeight weight latency timestamp]) c);;
  modify (fun c => set_latencies (latencies c ++ [latency]) c);;
  modify (fun c => set_readingsInLastSecond (readingsInLastSecond c ++ [timestamp]) c);;
  c <- get;;
  when (1000 <? length (readings c)) (modify (fun c => set_readings (shift (readings c)) c));;
  c <- get;;
  when (1000 <? length (latencies c)) (modify (fun c => set_latencies (shift (latencies c)) c));;
  updateReadingsPerSecond;;
  updateMetrics.

(** [clearData()] *)
Definition clearData : M t unit :=
  modify (set_readings []);;
  modify (set_latencies []);;
  modify (set_readingsInLastSecond []);;
  modify (set_readingsPerSecond 0);;
  modify (set_weightWindow []);;
  updateMetrics;;
  on_elements (set_readingsPerSecond_shown (Some 0));;
  log (lit "Data cleared") info.

(** All the latencies kept are 0. *)
Definition zero_latencies (c : t) : Prop :=
  Forall (fun l => l = Fin 0) (latencies c) /\
  Forall (fun r => latency r = Fin 0) (readings c) /\
  length (readings c) = length (latencies c).

(** The three latency metrics the page shows are 0. *)
Definition zero_latency_metrics (c : t) : Prop :=
  (exists avg, avgLatency_shown (elements c) = Some avg /\ same avg (Fin 0)) /\
  minLatency_shown (elements c) = Some (Fin 0) /\
  maxLatency_shown (elements c) = Some (Fin 0).

Section Reading.

Variable parseFloat : jsstring -> number.

(** The body of the loop of [readWeightOnce] once a line was read. *)
Definition process_line (value : jsstring) : M t unit :=
  if truthy value && truthy (trim value) then
    let weight := parseFloat (trim value) in
    if negb (isNaN weight) then
      let latency := Fin 0 in
      processReading weight latency
    else ret tt
  else ret tt.

Fixpoint read_loop (fuel : nat) : M t unit :=
  match fuel with
  | O => fun c => (Pending, c)
  | S fuel' =>
      c <- get;;
      if isReading c then
        r <- read;;
        match r with
        | None => log (lit "Serial stream ended") warning
        | Some value => process_line value;; read_loop fuel'
        end
      else ret tt
  end.

(** [readWeightOnce()], the method behind ['onread']. *)
Definition readWeightOnce (fuel : nat) : M t unit :=
  try_catch
    (sendCommand (lit "wc");;
     log (lit "Started continuous weight reading with wc command") info;;
     read_loop fuel)
    (fun error =>
       log (lit "Error in readWeightOnce: " ++ message error) error_;;
       c <- get;;
       when (isReading c) (modify (fun c => set_timers (timers c ++ [100%Z]) c))).

(** What the modelled part of the page can ask: the reading method is
    ['onread'], the one [currentMethod] is set to. *)
Inductive action :=
| Disconnect
| ReadWeightOnce (fuel : nat)
| StopReading
| GetDeviceInfo
| ClearData.

Definition perform_action (a : action) : M t unit :=
  match a with
  | Disconnect => disconnect
  | ReadWeightOnce fuel => readWeightOnce fuel
  | StopReading => stopReading
  | GetDeviceInfo => getDeviceInfo
  | ClearData => clearData
  end.

Fixpoint perform_actions (actions : list action) (c : t) : t :=
  match actions with
  | [] => c
  | a :: rest => perform_actions rest (snd (perform_action a c))
  end.

End Reading.

End SerialPerformanceTest.

(* ================================================================== *)
(** ** Devices and states used in the examples *)

Module Examples.

(** A device that answers every command with its name, some white space
    around it, and loses the second command written to it. *)
Definition device_slc_fails : transport :=
  mkTransport
    (fun ev n =>
       match ev, n with
       | EvWrite _, 1 => Some (mkError (lit "NetworkError") (lit "The device has been lost."))
       | _, _ => None
       end)
    (fun _ => ReadValue (lit " SCALE-42 "))
    (fun n => Z.of_nat n).

(** A device whose line reader cannot be cancelled. *)
Definition device_cancel_fails : transport :=
  mkTransport
    (fun ev _ =>
       match ev with
       | EvCancel => Some (mkError (lit "TypeError") (lit "Cannot cancel a locked stream"))
       | _ => None
       end)
    (fun _ => ReadValue (lit "12.5"))
    (fun n => Z.of_nat n).

(** A device that streams the same weight for ever. *)
Definition device_streaming : transport :=
  mkTransport (fun _ _ => None) (fun _ => ReadValue (lit "12.5")) (fun n => Z.of_nat n).

(** A device that takes what is written and sends nothing. *)
Definition device_silent : transport :=
  mkTransport (fun _ _ => None) (fun _ => ReadPending) (fun n => Z.of_nat n).

(** A device that sends the given chunks of text and then nothing: the
    lines read are the ones the line framer makes of the chunks. *)
Definition device_sending (chunks : list jsstring) : transport :=
  mkTransport
    (fun _ _ => None)
    (fun n =>
       match nth_error
               (snd (LineFramer.feed LineFramer.createLineTransformStream chunks)) n
       with
       | Some l => ReadValue l
       | None => ReadPending
       end)
    (fun n => Z.of_nat n).

(** A channel as [connect()] leaves it, on the given device. *)
Definition connected_channel (d : transport) : SerialChannel.t :=
  SerialChannel.mk 9600 true false true true true
    (Some (lit "SCALE-42")) (Some (lit "5000")) (Some (lit "g"))
    Metrics.initial [] [] [] (mkWorld d [] 0).

(** The same channel while it reads. *)
Definition reading_channel (d : transport) : SerialChannel.t :=
  SerialChannel.set_isReading true (connected_channel d).

(** The single-channel page as [connect()] leaves it, and while it reads. *)
Definition connected_page (d : transport) : SerialPerformanceTest.t :=
  SerialPerformanceTest.mk 9600 true false true true true
    (Some (lit "SCALE-42")) (Some (lit "5000")) (Some (lit "g"))
    [] [] [] 0 [] SerialPerformanceTest.onread false
    (SerialPerformanceTest.mkElements
       (lit "SCALE-42") (lit "5000") (lit "g") None None None None None)
    [] [] (mkWorld d [] 0).

Definition reading_page (d : transport) : SerialPerformanceTest.t :=
  SerialPerformanceTest.set_isReading true (connected_page d).

(** A stand-in for [parseFloat] on the one line the example devices send. *)
Definition parse_weight (s : jsstring) : number :=
  if eqb s (lit "12.5") then Fin (25 # 2) else NaN.

End Examples.

(* ================================================================== *)
(** ** The text of the log displays: [logData], [logRawData], [logPerformance] *)

Module Display.

(** [s.split(sep)] for [sep] a string of one code unit. *)
Fixpoint split_char (sep : N) (s : jsstring) : list jsstring :=
  match s with
  | [] => [[]]
  | c :: r =>
      if (c =? sep)%N then [] :: split_char sep r
      else cons_head c (split_char sep r)
  end.

(** [a.join(sep)] for [sep] a string of one code unit. *)
Fixpoint join_char (sep : N) (a : list jsstring) : jsstring :=
  match a with
  | [] => []
  | [x] => x
  | x :: r => x ++ sep :: join_char sep r
  end.

(** [a.slice(-n)] for [n] above 0 *)
Definition slice_last {A} (n : nat) (a : list A) : list A :=
  skipn (length a - n) a.

(** The three methods append [message + '\n'] to the text of an element
    and, when the text then splits into more than [limit] lines, keep the
    last [limit] of them. *)
Definition append_line (limit : nat) (textContent message : jsstring) : jsstring :=
  let textContent := textContent ++ message ++ [LF] in
  let lines := split_char LF textContent in
  if limit <? length lines then join_char LF (slice_last limit lines)
  else textContent.

(** [SerialChannel.logData(message)] on the text of the data display, when
    the channel has one ([None]: [uiElements] or the element is missing). *)
Definition logData (dataDisplay : option jsstring) (message : jsstring)
  : option jsstring :=
  match dataDisplay with
  | Some textContent => Some (append_line 50 textContent message)
  | None => None
  end.

(** [SerialPerformanceTest.logRawData(message)] on the text of [rawData]. *)
Definition logRawData (isRawDataPaused : bool) (textContent message : jsstring)
  : jsstring :=
  if isRawDataPaused then textContent else append_line 50 textContent message.

(** [SerialPerformanceTest.logPerformance(message)] on the text of
    [performanceLog]. *)
Definition logPerformance (textContent message : jsstring) : jsstring :=
  append_line 30 textContent message.

End Display.

(* ================================================================== *)
(** ** The registry of channels: class [MultiChannelSerialTest] *)

Module MultiChannelSerialTest.

(** [this.channels] is a [Map] from the id ['channel_' + n] to the channel,
    kept in insertion order; the number [n] stands for the id.  A channel
    is an object the map shares with whoever holds it: a method run on it
    changes the entry in place. *)
Record t := mk {
  channels : list (nat * SerialChannel.t);
  nextChannelId : nat;
  maxChannels : nat;
  isGlobalTestRunning : bool;
  globalTestTimeout : option Z;   (* the delay of the pending timer, or [null] *)
  defaultBaudRate : Z;
  testDuration : Z;
  autoConnect : bool
}.

Definition set_channels (v : list (nat * SerialChannel.t)) (r : t) : t :=
  mk v (nextChannelId r) (maxChannels r) (isGlobalTestRunning r) (globalTestTimeout r) (defaultBaudRate r) (testDuration r) (autoConnect r).

Definition set_nextChannelId (v : nat) (r : t) : t :=
  mk (channels r) v (maxChannels r) (isGlobalTestRunning r) (globalTestTimeout r) (defaultBaudRate r) (testDuration r) (autoConnect r).

Definition set_isGlobalTestRunning (v : bool) (r : t) : t :=
  mk (channels r) (nextChannelId r) (maxChannels r) v (globalTestTimeout r) (defaultBaudRate r) (testDuration r) (autoConnect r).

Definition set_globalTestTimeout (v : option Z) (r : t) : t :=
  mk (channels r) (nextChannelId r) (maxChannels r) (isGlobalTestRunning r) v (defaultBaudRate r) (testDuration r) (autoConnect r).

(** [new MultiChannelSerialTest()] *)
Definition constructor : t := mk [] 1 8 false None 9600 60 true.

(** [map.get(id)] *)
Fixpoint map_get {A} (id : nat) (m : list (nat * A)) : option A :=
  match m with
  | [] => None
  | (k, v) :: rest => if k =? id then Some v else map_get id rest
  end.

(** [map.set(id, v)]: in place for a key the map has, at the end for a new
    one. *)
Fixpoint map_set {A} (id : nat) (v : A) (m : list (nat * A)) : list (nat * A) :=
  match m with
  | [] => [(id, v)]
  | (k, x) :: rest =>
      if k =? id then (k, v) :: rest else (k, x) :: map_set id v rest
  end.

(** [map.delete(id)] *)
Fixpoint map_delete {A} (id : nat) (m : list (nat * A)) : list (nat * A) :=
  match m with
  | [] => []
  | (k, x) :: rest =>
      if k =? id then rest else (k, x) :: map_delete id rest
  end.

Definition ids (r : t) : list nat := map fst (channels r).

(** The ids of the channels that satisfy [p], in the order of the map:
    [Array.from(this.channels.values()).filter(p)]. *)
Definition ids_where (p : SerialChannel.t -> bool) (r : t) : list nat :=
  map fst (filter (fun kv => p (snd kv)) (channels r)).

(** A method of the channel [id], awaited. *)
Definition on_channel (id : nat) (m : M SerialChannel.t unit) : M t unit :=
  fun r =>
    match map_get id (channels r) with
    | Some channel =>
        let '(res, channel') := m channel in
        (res, set_channels (map_set id channel' (channels r)) r)
    | None => (Ret tt, r)
    end.

(** A call that is not awaited: the caller goes on at once.  The state
    given is the one the call leaves once it has settled, or where it
    hangs: the call is run to that point before the caller goes on, so a
    later call never overlaps it, as it can in the source. *)
Definition not_awaited (m : M t unit) : M t unit :=
  fun r => (Ret tt, snd (m r)).

(** [for (const id of ids) { await body(id) }] *)
Fixpoint for_each (l : list nat) (body : nat -> M t unit) : M t unit :=
  match l with
  | [] => ret tt
  | id :: rest => body id;; for_each rest body
  end.

(** [addChannel()]; [d] is the device the new channel will be given. *)
Definition addChannel (d : transport) : M t unit :=
  r <- get;;
  if maxChannels r <=? length (channels r) then ret tt
  else
    let channelId := nextChannelId r in
    modify (set_nextChannelId (S channelId));;
    r <- get;;
    let channel := SerialChannel.constructor (defaultBaudRate r) d in
    modify (fun r => set_channels (map_set channelId channel (channels r)) r);;
    r <- get;;
    when (autoConnect r) (not_awaited (on_channel channelId SerialChannel.connect)).

(** [removeChannel(channelId)] *)
Definition removeChannel (channelId : nat) : M t unit :=
  r <- get;;
  match map_get channelId (channels r) with
  | Some _ =>
      not_awaited (on_channel channelId SerialChannel.disconnect);;
      modify (fun r => set_channels (map_delete channelId (channels r)) r)
  | None => ret tt
  end.

(** [removeAllChannels()]; [confirmed] is the answer to [confirm]. *)
Definition removeAllChannels (confirmed : bool) : M t unit :=
  when confirmed
    (r <- get;;
     for_each (ids r)
       (fun id => not_awaited (on_channel id SerialChannel.disconnect));;
     modify (set_channels [])).

(** [refreshChannels()] *)
Definition refreshChannels : M t unit :=
  r <- get;;
  for_each (ids r)
    (fun id => not_awaited (on_channel id SerialChannel.refreshDeviceInfo)).

(** [connectAllChannels()]; the delay after each connection changes no
    state. *)
Definition connectAllChannels : M t unit :=
  r <- get;;
  let unconnectedChannels :=
    ids_where (fun ch => negb (SerialChannel.isConnected ch)) r in
  if length unconnectedChannels =? 0 then ret tt
  else
    try_catch
      (for_each unconnectedChannels
         (fun id => on_channel id SerialChannel.connect))
      (fun _ => ret tt).

(** [disconnectAllChannels()] *)
Definition disconnectAllChannels : M t unit :=
  r <- get;;
  for_each (ids r)
    (fun id => not_awaited (on_channel id SerialChannel.disconnect)).

(** [stopAllReading()] *)
Definition stopAllReading : M t unit :=
  r <- get;;
  for_each (ids r)
    (fun id =>
       r <- get;;
       match map_get id (channels r) with
       | Some channel =>
           when (SerialChannel.isReading channel)
             (not_awaited (on_channel id SerialChannel.stopReading))
       | None => ret tt
       end).

(** [clearAllData()] *)
Definition clearAllData : M t unit :=
  r <- get;;
  for_each (ids r) (fun id => on_channel id SerialChannel.clearData).

(** [x * n] for [n] a count. *)
Definition mul_count (x : number) (n : nat) : number :=
  match x, n with
  | NaN, _ => NaN
  | Fin q, _ => Fin (q * inject_Z (Z.of_nat n))
  | _, O => NaN
  | _, S _ => x
  end.

(** The figures [updateGlobalMetrics()] writes to the page; [avgLatency] is
    the number whose [toFixed(1)] is shown. *)
Record global_t := mkGlobal {
  totalChannels : nat;
  connectedChannels : nat;
  readingChannels : nat;
  totalReadings : nat;
  avgReadingsPerSecond : nat;
  avgLatency : number
}.

(** [updateGlobalMetrics()] *)
Definition updateGlobalMetrics (r : t) : global_t :=
  let values := map snd (channels r) in
  let totalChannels := length (channels r) in
  let connectedChannels := length (filter SerialChannel.isConnected values) in
  let readingChannels := length (filter SerialChannel.isReading values) in
  let totalReadings :=
    fold_left
      (fun acc channel => acc + Metrics.totalReadings (SerialChannel.metrics channel))
      values 0 in
  let totalLatency :=
    fold_left
      (fun acc channel =>
         add acc (mul_count (Metrics.avgLatency (SerialChannel.metrics channel))
                            (Metrics.totalReadings (SerialChannel.metrics channel))))
      values (Fin 0) in
  let readingsInLastSecond :=
    fold_left
      (fun acc channel =>
         acc ++ Metrics.readingsInLastSecond (SerialChannel.metrics channel))
      values [] in
  let avgLatency :=
    if 0 <? totalReadings then div_length totalLatency totalReadings else Fin 0 in
  let avgReadingsPerSecond := length readingsInLastSecond in
  mkGlobal totalChannels connectedChannels readingChannels totalReadings
           avgReadingsPerSecond avgLatency.

Section Reading.

Variable parseFloat : jsstring -> number.

(** [startAllReading()] *)
Definition startAllReading (fuel : nat) : M t unit :=
  r <- get;;
  let connectedChannels := ids_where SerialChannel.isConnected r in
  if length connectedChannels =? 0 then ret tt
  else
    for_each connectedChannels
      (fun id =>
         r <- get;;
         match map_get id (channels r) with
         | Some channel =>
             when (negb (SerialChannel.isReading channel))
               (on_channel id (SerialChannel.startReading parseFloat fuel))
         | None => ret tt
         end).

(** [startGlobalTest()]: the timer that ends the test is set once
    [startAllReading()] has returned. *)
Definition startGlobalTest (fuel : nat) : M t unit :=
  r <- get;;
  if isGlobalTestRunning r then ret tt
  else
    modify (set_isGlobalTestRunning true);;
    clearAllData;;
    startAllReading fuel;;
    r <- get;;
    modify (set_globalTestTimeout (Some (testDuration r * 1000)%Z)).

(** [stopGlobalTest()] *)
Definition stopGlobalTest : M t unit :=
  r <- get;;
  if negb (isGlobalTestRunning r) then ret tt
  else
    modify (set_isGlobalTestRunning false);;
    r <- get;;
    when (match globalTestTimeout r with Some _ => true | None => false end)
      (modify (set_globalTestTimeout None));;
    not_awaited stopAllReading.

(** What the page can ask of the registry. *)
Inductive action :=
| AddChannel (d : transport)
| RemoveChannel (channelId : nat)
| RemoveAllChannels (confirmed : bool)
| RefreshChannels
| ConnectAllChannels
| DisconnectAllChannels
| StartAllReading (fuel : nat)
| StopAllReading
| ClearAllData
| StartGlobalTest (fuel : nat)
| StopGlobalTest
| OnChannel (channelId : nat) (a : SerialChannel.action).

Definition perform_action (a : action) : M t unit :=
  match a with
  | AddChannel d => addChannel d
  | RemoveChannel channelId => removeChannel channelId
  | RemoveAllChannels confirmed => removeAllChannels confirmed
  | RefreshChannels => refreshChannels
  | ConnectAllChannels => connectAllChannels
  | DisconnectAllChannels => disconnectAllChannels
  | StartAllReading fuel => startAllReading fuel
  | StopAllReading => stopAllReading
  | ClearAllData => clearAllData
  | StartGlobalTest fuel => startGlobalTest fuel
  | StopGlobalTest => stopGlobalTest
  | OnChannel channelId a =>
      on_channel channelId (SerialChannel.perform_action parseFloat a)
  end.

(** Calls made one after the other; as for a channel, a call that hangs
    is never resumed. *)
Fixpoint perform_actions (actions : list action) (r : t) : t :=
  match actions with
  | [] => r
  | a :: rest => perform_actions rest (snd (perform_action a r))
  end.

End Reading.

End MultiChannelSerialTest.

(* ================================================================== *)
(** ** Notions the properties are stated with *)

(** [a.push(x)] followed by [if (a.length > cap) a.shift()]. *)
Definition push_capped {A} (cap : nat) (a : list A) (x : A) : list A :=
  if cap <? length (a ++ [x]) then shift (a ++ [x]) else a ++ [x].

(** The reading a sample is stored as. *)
Definition reading_of (s : Metrics.sample) : Metrics.reading :=
  Metrics.mkReading (Metrics.s_weight s) (Metrics.s_latency s) (Metrics.s_timestamp s).

(** A reading and then [updateMetrics], as the read loop of a channel does
    for every line it accepts. *)
Definition record_and_update (m : Metrics.t) (s : Metrics.sample) : Metrics.t :=
  Metrics.updateMetrics
    (Metrics.processReading (Metrics.s_weight s) (Metrics.s_latency s)
       (Metrics.s_timestamp s) (Metrics.s_now s) m).

(** A computation never ends with an exception. *)
Definition no_throw {St A} (m : M St A) : Prop :=
  forall s e, fst (m s) <> Throw e.

(** The commands a channel sends. *)
Definition channel_commands : list jsstring :=
  [lit "id"; lit "slc"; lit "units"; lit "wc"; []].

(** An operation on the wire is a read or the writing of one command
    followed by one carriage return. *)
Definition wire_ok (ev : io_event) : Prop :=
  match ev with
  | EvWrite data => exists command, In command channel_commands /\ data = command ++ [CR]
  | _ => True
  end.

(** What a command gets as its response once the read of a line has
    settled: the trimmed line, [''] for a falsy one, [null] when the stream
    is done. *)
Definition response_of (o : read_outcome) : option jsstring :=
  match o with
  | ReadValue value => Some (if truthy value then trim value else [])
  | ReadDone | ReadPending => None
  end.

(** The operations of a handshake: the three commands, a line read after
    each. *)
Definition handshake_events : list io_event :=
  [EvWrite (lit "id" ++ [CR]); EvRead;
   EvWrite (lit "slc" ++ [CR]); EvRead;
   EvWrite (lit "units" ++ [CR]); EvRead].

(** The flags and handles of a channel agree: a channel that reads is
    connected, and one that is connected or holds a reader or a writer
    holds a port. *)
Definition handles_consistent (c : SerialChannel.t) : Prop :=
  (SerialChannel.isReading c = true -> SerialChannel.isConnected c = true) /\
  (SerialChannel.isConnected c = true -> SerialChannel.port c = true) /\
  (SerialChannel.lineReader c = true -> SerialChannel.port c = true) /\
  (SerialChannel.writer c = true -> SerialChannel.port c = true).

(** The line makes a reading: it is not blank and [parseFloat] finds a
    number in it. *)
Definition is_weight_line (parseFloat : jsstring -> number) (value : jsstring) : bool :=
  truthy value && truthy (trim value) && negb (isNaN (parseFloat (trim value))).

(** The weights [parseFloat] reads in the lines that make a reading. *)
Definition weights_of (parseFloat : jsstring -> number) (lines : list jsstring)
  : list number :=
  map (fun value => parseFloat (trim value)) (filter (is_weight_line parseFloat) lines).

(** The ids of a registry are distinct and below the next one to give. *)
Definition registry_ok (r : MultiChannelSerialTest.t) : Prop :=
  NoDup (MultiChannelSerialTest.ids r) /\
  Forall (fun id => id < MultiChannelSerialTest.nextChannelId r)
         (MultiChannelSerialTest.ids r).

(** A run of calls on a channel in which nothing overlaps: each call has
    returned before the next begins, and none has asked [setTimeout] for a
    restart of the reading loop, which would run beside the calls that
    follow.  [None] as soon as a call hangs, throws or asks for a
    restart. *)
Fixpoint settled_run (parseFloat : jsstring -> number)
    (actions : list SerialChannel.action) (c : SerialChannel.t)
    : option SerialChannel.t :=
  match actions with
  | [] => Some c
  | a :: rest =>
      match SerialChannel.perform_action parseFloat a c with
      | (Ret _, c') =>
          match SerialChannel.timers c' with
          | [] => settled_run parseFloat rest c'
          | _ :: _ => None
          end
      | _ => None
      end
  end.

(** A channel as such a run on a new channel leaves it, or as one more
    call leaves it, wherever that call stops: it may still hang. *)
Definition settled_channel (parseFloat : jsstring -> number)
    (c : SerialChannel.t) : Prop :=
  exists baudRate d actions c0,
    settled_run parseFloat actions (SerialChannel.constructor baudRate d) = Some c0 /\
    (c = c0 \/ exists a, c = snd (SerialChannel.perform_action parseFloat a c0)).

(** A device that never stops sending: no read fails and every read yields
    a line. *)
Definition never_ending (d : transport) : Prop :=
  forall n, failure d EvRead n = None /\ exists value, line d n = ReadValue value.

(* ================================================================== *)
(** * Properties *)

(** ** Splitting into lines *)

Section SplitLines.

Lemma list_ind2 (A : Type) (P : list A -> Prop) :
  P [] -> (forall a, P [a]) ->
  (forall a b l, P l -> P (b :: l) -> P (a :: b :: l)) ->
  forall l, P l.
Proof.
  intros H0 H1 H2 l.
  assert (H : P l /\ forall a, P (a :: l)).
  { induction l as [|b l [IHl IHc]]; split; auto. }
  exact (proj1 H).
Qed.

Lemma split_lines_eq s :
  split_lines s =
  match s with
  | [] => [[]]
  | c :: r =>
      if (c =? LF)%N then [] :: split_lines r
      else
        match r with
        | d :: r' =>
            if ((c =? CR) && (d =? LF))%N then [] :: split_lines r'
            else cons_head c (split_lines r)
        | [] => cons_head c (split_lines r)
        end
  end.
Proof. destruct s; reflexivity. Qed.

Arguments split_lines : simpl never.

Lemma split_lines_nil : split_lines [] = [[]].
Proof. reflexivity. Qed.

Lemma split_lines_one a :
  split_lines [a] = if (a =? LF)%N then [[]; []] else [[a]].
Proof. rewrite split_lines_eq. destruct (a =? LF)%N; reflexivity. Qed.

Lemma cons_head_nonempty c segs : cons_head c segs <> [].
Proof. destruct segs; discriminate. Qed.

Lemma split_lines_nonempty s : split_lines s <> [].
Proof.
  rewrite split_lines_eq. destruct s as [|c r]; [discriminate|].
  destruct (c =? LF)%N; [discriminate|].
  destruct r as [|d r']; [apply cons_head_nonempty|].
  destruct ((c =? CR) && (d =? LF))%N; [discriminate|apply cons_head_nonempty].
Qed.

(** Unfolding at a code unit that starts no separator. *)
Lemma split_lines_cons c r :
  c <> LF -> (c = CR -> hd 0%N r <> LF) ->
  split_lines (c :: r) = cons_head c (split_lines r).
Proof.
  intros Hc Hr. rewrite split_lines_eq.
  destruct (N.eqb_spec c LF) as [?|_]; [contradiction|].
  destruct r as [|d r']; [reflexivity|].
  destruct (N.eqb_spec c CR) as [Hcr|_]; [|reflexivity].
  destruct (N.eqb_spec d LF) as [Hd|_]; [|reflexivity].
  exfalso. apply (Hr Hcr). exact Hd.
Qed.

Lemma split_lines_LF r : split_lines (LF :: r) = [] :: split_lines r.
Proof. reflexivity. Qed.

Lemma split_lines_CRLF r : split_lines (CR :: LF :: r) = [] :: split_lines r.
Proof. reflexivity. Qed.

(** The three ways a non-empty string starts. *)
Lemma split_lines_cases c r :
  (c = LF /\ split_lines (c :: r) = [] :: split_lines r) \/
  (c = CR /\ (exists r', r = LF :: r' /\ split_lines (c :: r) = [] :: split_lines r')) \/
  (c <> LF /\ (c = CR -> hd 0%N r <> LF) /\
   split_lines (c :: r) = cons_head c (split_lines r)).
Proof.
  destruct (N.eqb_spec c LF) as [->|Hc]; [left; auto|].
  destruct (N.eqb_spec c CR) as [->|Hcr].
  - destruct r as [|d r'].
    + right; right. repeat split; auto. simpl. discriminate.
    + destruct (N.eqb_spec d LF) as [->|Hd].
      * right; left. split; auto. exists r'. auto.
      * right; right. split; auto. split; auto.
        apply split_lines_cons; auto.
  - right; right. split; auto. split; [intros; contradiction|].
    apply split_lines_cons; auto; intros; contradiction.
Qed.

Lemma removelast_cons_head c segs :
  segs <> [] ->
  removelast (cons_head c segs) =
  match removelast segs with
  | [] => []
  | _ => cons_head c (removelast segs)
  end.
Proof.
  destruct segs as [|h [|h' t]]; intros H; [contradiction| reflexivity |].
  reflexivity.
Qed.

Lemma last_cons_head c segs :
  segs <> [] ->
  last (cons_head c segs) [] =
  match removelast segs with
  | [] => c :: last segs []
  | _ => last segs []
  end.
Proof.
  destruct segs as [|h [|h' t]]; intros H; [contradiction| reflexivity |].
  reflexivity.
Qed.

(** A string without line feed is one segment. *)
Lemma split_lines_no_LF s : ~ In LF s -> split_lines s = [s].
Proof.
  induction s as [|c r IH]; intros H; [reflexivity|].
  rewrite split_lines_cons.
  - rewrite IH; [reflexivity|]. intros Hin; apply H; right; exact Hin.
  - intros ->. apply H; left; reflexivity.
  - intros _ Hhd. destruct r as [|d r']; simpl in Hhd; [discriminate|].
    apply H. right; left. exact Hhd.
Qed.

Lemma split_lines_single s h : split_lines s = [h] -> h = s /\ ~ In LF s.
Proof.
  revert h.
  induction s as [| a | a b l IHl IHbl] using list_ind2; intros h.
  - rewrite split_lines_nil. intros [= <-]. auto.
  - rewrite split_lines_one. destruct (N.eqb_spec a LF); [discriminate|].
    intros [= <-]. split; auto. intros [?|[]]; congruence.
  - destruct (split_lines_cases a (b :: l)) as [[_ E]|[[_ [r' [Er E]]]|[Ha [_ E]]]];
      rewrite E.
    + intros [= _ E']. exfalso. exact (split_lines_nonempty (b :: l) E').
    + intros [= _ E']. exfalso. injection Er as -> ->.
      exact (split_lines_nonempty r' E').
    + destruct (split_lines (b :: l)) as [|h' t] eqn:Eb.
      * exfalso. exact (split_lines_nonempty _ Eb).
      * simpl. intros [= <- ->].
        destruct (IHbl h' eq_refl) as [-> Hn]. split; [reflexivity|].
        intros [?|Hin]; [congruence|]. exact (Hn Hin).
Qed.

(** The segment after the last separator has no line feed. *)
Lemma last_split_lines_no_LF s : ~ In LF (last (split_lines s) []).
Proof.
  induction s as [| a | a b l IHl IHbl] using list_ind2.
  - rewrite split_lines_nil. simpl. auto.
  - rewrite split_lines_one. destruct (N.eqb_spec a LF); simpl; [auto|].
    intros [?|[]]; congruence.
  - destruct (split_lines_cases a (b :: l)) as [[_ E]|[[_ [r' [Er E]]]|[Ha [_ E]]]];
      rewrite E.
    + pose proof (split_lines_nonempty (b :: l)) as Hne.
      destruct (split_lines (b :: l)); [contradiction|]. exact IHbl.
    + injection Er as -> ->.
      pose proof (split_lines_nonempty r') as Hne.
      destruct (split_lines r'); [contradiction|]. exact IHl.
    + rewrite last_cons_head by apply split_lines_nonempty.
      destruct (removelast (split_lines (b :: l))); [|exact IHbl].
      intros [?|Hin]; [congruence|]. exact (IHbl Hin).
Qed.

(** Splitting a text cut in two: the segments closed in the first part are
    final, the open one goes on into the second part. *)
Lemma split_lines_app x y :
  split_lines (x ++ y) =
  removelast (split_lines x) ++ split_lines (last (split_lines x) [] ++ y).
Proof.
  induction x as [| a | a b l IHl IHbl] using list_ind2.
  - reflexivity.
  - rewrite split_lines_one.
    destruct (N.eqb_spec a LF) as [->|Ha]; reflexivity.
  - destruct (split_lines_cases a (b :: l)) as [[-> E]|[[-> [r' [Er E]]]|[Ha [Hcr E]]]].
    + rewrite E. change ((LF :: b :: l) ++ y) with (LF :: ((b :: l) ++ y)).
      rewrite split_lines_LF, IHbl.
      pose proof (split_lines_nonempty (b :: l)) as Hne.
      destruct (split_lines (b :: l)) as [|h t]; [contradiction|]. reflexivity.
    + injection Er as -> ->. rewrite E.
      change ((CR :: LF :: r') ++ y) with (CR :: LF :: (r' ++ y)).
      rewrite split_lines_CRLF, IHl.
      pose proof (split_lines_nonempty r') as Hne.
      destruct (split_lines r') as [|h t]; [contradiction|]. reflexivity.
    + rewrite E.
      change ((a :: b :: l) ++ y) with (a :: ((b :: l) ++ y)).
      rewrite split_lines_cons; [| exact Ha | exact Hcr].
      rewrite IHbl.
      rewrite removelast_cons_head, last_cons_head by apply split_lines_nonempty.
      destruct (split_lines (b :: l)) as [|h t] eqn:Eb;
        [exfalso; exact (split_lines_nonempty _ Eb)|].
      destruct t as [|h' t'].
      * simpl. destruct (split_lines_single _ Eb) as [-> _].
        change ((a :: b :: l) ++ y) with (a :: ((b :: l) ++ y)).
        rewrite split_lines_cons; [reflexivity | exact Ha | exact Hcr].
      * reflexivity.
Qed.

End SplitLines.

(** The text after the last line feed. *)
Lemma split_lines_tail s :
  exists prefix,
    s = prefix ++ last (split_lines s) [] /\
    (prefix = [] \/ last prefix 0%N = LF).
Proof.
  induction s as [| a | a b l IHl IHbl] using list_ind2.
  - exists []. auto.
  - rewrite split_lines_one. destruct (N.eqb_spec a LF) as [->|Ha].
    + exists [LF]. auto.
    + exists []. auto.
  - destruct (split_lines_cases a (b :: l)) as [[-> E]|[[-> [r' [Er E]]]|[Ha [_ E]]]];
      rewrite E.
    + destruct IHbl as [p [Hp Hl]].
      pose proof (split_lines_nonempty (b :: l)) as Hne.
      destruct (split_lines (b :: l)) as [|h t] eqn:Eb; [contradiction|].
      exists (LF :: p). split.
      * change (last ([] :: h :: t) []) with (last (h :: t) []).
        simpl. f_equal. exact Hp.
      * right. destruct Hl as [->|Hl]; [reflexivity|].
        destruct p; [discriminate Hl|exact Hl].
    + injection Er as -> ->. destruct IHl as [p [Hp Hl]].
      pose proof (split_lines_nonempty r') as Hne.
      destruct (split_lines r') as [|h t] eqn:Eb; [contradiction|].
      exists (CR :: LF :: p). split.
      * change (last ([] :: h :: t) []) with (last (h :: t) []).
        simpl. do 2 f_equal. exact Hp.
      * right. destruct Hl as [->|Hl]; [reflexivity|].
        destruct p; [discriminate Hl|exact Hl].
    + rewrite last_cons_head by apply split_lines_nonempty.
      destruct (split_lines (b :: l)) as [|h [|h' t]] eqn:Eb.
      * exfalso. exact (split_lines_nonempty _ Eb).
      * destruct (split_lines_single _ Eb) as [-> _]. exists []. auto.
      * destruct IHbl as [p [Hp Hl]].
        exists (a :: p). split.
        -- match goal with
           | |- context [match ?x with [] => _ | _ :: _ => _ end] =>
               destruct x eqn:Er; [discriminate Er|]
           end.
           simpl app. f_equal. exact Hp.
        -- right. destruct Hl as [->|Hl].
           ++ exfalso. change (b :: l = last (h :: h' :: t) []) in Hp.
              assert (Hn : ~ In LF (b :: l)).
              { rewrite Hp. rewrite <- Eb. apply last_split_lines_no_LF. }
              rewrite (split_lines_no_LF _ Hn) in Eb. discriminate Eb.
           ++ destruct p; [discriminate Hl|exact Hl].
Qed.

(** ** Line framer *)

Section Framer.

Import LineFramer.

Lemma last_default_irrelevant (A : Type) (l : list A) (d d' : A) :
  l <> [] -> last l d = last l d'.
Proof.
  induction l as [|x [|y t] IH]; intros H; [contradiction|reflexivity|].
  change (last (y :: t) d = last (y :: t) d'). apply IH. discriminate.
Qed.

Lemma or_empty_some s : or_empty (Some s) = s.
Proof. destruct s; reflexivity. Qed.

Lemma transform_eq f chunk :
  transform f chunk =
  (mk (last (split_lines (buffer f ++ chunk)) []),
   filter (fun line => truthy (trim line))
          (removelast (split_lines (buffer f ++ chunk)))).
Proof.
  unfold transform.
  pose proof (split_lines_nonempty (buffer f ++ chunk)) as Hne.
  destruct (split_lines (buffer f ++ chunk)) as [|h t] eqn:E; [contradiction|].
  unfold pop. rewrite or_empty_some.
  rewrite (last_default_irrelevant (l := h :: t) h []) by discriminate.
  reflexivity.
Qed.

Lemma removelast_app_nonempty (A : Type) (l l' : list A) :
  l' <> [] -> removelast (l ++ l') = l ++ removelast l'.
Proof. intros H. apply removelast_app. exact H. Qed.

Lemma last_app_nonempty (A : Type) (l l' : list A) (d : A) :
  l' <> [] -> last (l ++ l') d = last l' d.
Proof.
  intros H. induction l as [|x l IH]; [reflexivity|].
  simpl app. destruct (l ++ l') eqn:E.
  - destruct l; [contradiction|discriminate].
  - exact IH.
Qed.

(** The framer does to the chunks what it does to their concatenation. *)
Lemma feed_from (chunks : list jsstring) (b : jsstring) :
  ~ In LF b ->
  feed (mk b) chunks =
  (mk (last (split_lines (b ++ concat chunks)) []),
   filter (fun line => truthy (trim line))
          (removelast (split_lines (b ++ concat chunks)))).
Proof.
  revert b. induction chunks as [|c rest IH]; intros b Hb.
  - simpl. rewrite app_nil_r, (split_lines_no_LF _ Hb). reflexivity.
  - simpl feed. rewrite transform_eq. simpl buffer.
    rewrite IH by apply last_split_lines_no_LF.
    simpl concat. rewrite app_assoc.
    rewrite (split_lines_app (b ++ c) (concat rest)).
    rewrite last_app_nonempty by apply split_lines_nonempty.
    rewrite removelast_app_nonempty by apply split_lines_nonempty.
    rewrite filter_app. reflexivity.
Qed.

Lemma feed_createLineTransformStream chunks :
  feed createLineTransformStream chunks =
  (mk (last (split_lines (concat chunks)) []),
   filter (fun line => truthy (trim line))
          (removelast (split_lines (concat chunks)))).
Proof. unfold createLineTransformStream. rewrite feed_from; auto. Qed.

Lemma split_lines_line_sep l sep rest :
  is_line l ->
  split_lines (l ++ separator_text sep ++ rest) = l :: split_lines rest.
Proof.
  induction l as [|c l' IH]; intros [Hn Hl].
  - destruct sep; reflexivity.
  - simpl app. rewrite split_lines_cons.
    + rewrite IH; [reflexivity|]. split.
      * intros Hin. apply Hn. right. exact Hin.
      * destruct l'; [discriminate|exact Hl].
    + intros ->. apply Hn. left. reflexivity.
    + intros ->. destruct l' as [|d l''].
      * exfalso. apply Hl. reflexivity.
      * simpl. intros ->. apply Hn. right. left. reflexivity.
Qed.

Lemma split_lines_join lines seps :
  Forall is_line lines -> lines <> [] ->
  split_lines (join_lines lines seps) = lines.
Proof.
  revert seps. induction lines as [|l ls IH]; intros seps HF Hne; [contradiction|].
  inversion HF as [|? ? Hl HF']; subst.
  destruct ls as [|l2 ls'].
  - simpl. apply split_lines_no_LF. exact (proj1 Hl).
  - change (join_lines (l :: l2 :: ls') seps)
      with (l ++ separator_text (hd SepLF seps) ++ join_lines (l2 :: ls') (tl seps)).
    rewrite split_lines_line_sep by exact Hl.
    rewrite IH; [reflexivity|exact HF'|discriminate].
Qed.

Lemma split_lines_join_terminated lines seps sep :
  Forall is_line lines -> lines <> [] ->
  split_lines (join_lines lines seps ++ separator_text sep) = lines ++ [[]].
Proof.
  revert seps. induction lines as [|l ls IH]; intros seps HF Hne; [contradiction|].
  inversion HF as [|? ? Hl HF']; subst.
  destruct ls as [|l2 ls'].
  - simpl join_lines.
    rewrite <- (app_nil_r (separator_text sep)).
    rewrite split_lines_line_sep by exact Hl. reflexivity.
  - change (join_lines (l :: l2 :: ls') seps)
      with (l ++ separator_text (hd SepLF seps) ++ join_lines (l2 :: ls') (tl seps)).
    rewrite <- !app_assoc.
    rewrite split_lines_line_sep by exact Hl.
    rewrite IH; [reflexivity|exact HF'|discriminate].
Qed.

Lemma truthy_non_blank l : truthy (trim l) = true <-> non_blank l.
Proof.
  unfold non_blank. destruct (trim l); simpl; split; intros H; try discriminate;
    try reflexivity. contradiction.
Qed.

Lemma filter_non_blank lines :
  Forall non_blank lines ->
  filter (fun line => truthy (trim line)) lines = lines.
Proof.
  induction 1 as [|l ls Hl _ IH]; [reflexivity|].
  simpl. rewrite (proj2 (truthy_non_blank l) Hl), IH. reflexivity.
Qed.

Lemma Forall_removelast (A : Type) (P : A -> Prop) (l : list A) :
  Forall P l -> Forall P (removelast l).
Proof.
  induction 1 as [|x [|y t] Hx HF IH]; simpl; auto.
Qed.

Lemma Forall_last (A : Type) (P : A -> Prop) (l : list A) (d : A) :
  Forall P l -> l <> [] -> P (last l d).
Proof.
  induction 1 as [|x [|y t] Hx HF IH]; intros Hne; [contradiction|exact Hx|].
  apply IH. discriminate.
Qed.

End Framer.

(** C1 (as amended).  For a text made of non-blank lines joined by line
    feeds or by carriage return and line feed, cut into chunks in any way:
    writing the chunks enqueues all the lines but the last, in order, and
    leaves the last one in the buffer; closing the stream then enqueues it,
    so that the lines written and closed are exactly the lines of the text;
    so does a separator written after the last line.  Whatever the text,
    two ways of cutting it give the same lines and the same buffer. *)
Theorem framing_fragmentation_invariant
    (lines : list jsstring) (seps : list separator) (chunks : list jsstring) :
  Forall is_line lines ->
  Forall non_blank lines ->
  concat chunks = join_lines lines seps ->
  LineFramer.feed LineFramer.createLineTransformStream chunks
    = (LineFramer.mk (last lines []), removelast lines)
  /\ LineFramer.feed_close LineFramer.createLineTransformStream chunks = lines
  /\ (forall (sep : separator) (chunks' : list jsstring),
        concat chunks' = join_lines lines seps ++ separator_text sep ->
        LineFramer.feed LineFramer.createLineTransformStream chunks'
        = (LineFramer.mk [], lines))
  /\ (forall chunks' : list jsstring,
        concat chunks' = concat chunks ->
        LineFramer.feed LineFramer.createLineTransformStream chunks'
        = LineFramer.feed LineFramer.createLineTransformStream chunks).
Proof.
  intros Hlines Hnb Hcat.
  assert (Hfeed :
    LineFramer.feed LineFramer.createLineTransformStream chunks
    = (LineFramer.mk (last lines []), removelast lines)).
  { rewrite feed_createLineTransformStream, Hcat.
    destruct lines as [|l ls]; [reflexivity|].
    rewrite split_lines_join by (auto; discriminate).
    rewrite filter_non_blank by (apply Forall_removelast; exact Hnb).
    reflexivity. }
  split; [exact Hfeed|]. split; [|split].
  - unfold LineFramer.feed_close. rewrite Hfeed.
    destruct lines as [|l ls]; [reflexivity|].
    cbv [LineFramer.flush LineFramer.buffer].
    assert (Hlast : non_blank (last (l :: ls) [])).
    { apply Forall_last; [exact Hnb|discriminate]. }
    rewrite (proj2 (truthy_non_blank _) Hlast).
    symmetry. apply app_removelast_last. discriminate.
  - intros sep chunks' Hcat'.
    rewrite feed_createLineTransformStream, Hcat'.
    destruct lines as [|l ls]; [destruct sep; reflexivity|].
    rewrite split_lines_join_terminated by (auto; discriminate).
    rewrite last_last, removelast_last.
    rewrite filter_non_blank by exact Hnb. reflexivity.
  - intros chunks' Hcat'.
    rewrite !feed_createLineTransformStream, Hcat'. reflexivity.
Qed.

Ltac concrete_lines :=
  repeat first
    [ apply Forall_nil
    | apply Forall_cons
    | split
    | reflexivity
    | (cbv; intuition discriminate) ].

Lemma framing_fragmentation_invariant_witness :
  let chunks := [lit "1.0" ++ [CR]; [LF] ++ lit "2."; lit "5"] in
  LineFramer.feed LineFramer.createLineTransformStream chunks
    = (LineFramer.mk (lit "2.5"), [lit "1.0"])
  /\ LineFramer.feed_close LineFramer.createLineTransformStream chunks
    = [lit "1.0"; lit "2.5"].
Proof.
  assert (H : Forall is_line [lit "1.0"; lit "2.5"]) by concrete_lines.
  assert (H' : Forall non_blank [lit "1.0"; lit "2.5"]) by concrete_lines.
  destruct (@framing_fragmentation_invariant
              [lit "1.0"; lit "2.5"] [SepCRLF]
              [lit "1.0" ++ [CR]; [LF] ++ lit "2."; lit "5"] H H' eq_refl)
    as [H1 [H2 _]].
  split; [exact H1|exact H2].
Defined.

(** C1 as stated fails: written in one chunk and not closed, the text of
    the two lines [a] and [b] joined by a line feed yields the line [a]
    only; [b] waits in the buffer. *)
Lemma framing_feed_alone_counterexample :
  let lines := [lit "a"; lit "b"] in
  let chunks := [lit "a" ++ [LF] ++ lit "b"] in
  Forall is_line lines /\ Forall non_blank lines /\
  concat chunks = join_lines lines [SepLF] /\
  snd (LineFramer.feed LineFramer.createLineTransformStream chunks) = [lit "a"] /\
  snd (LineFramer.feed LineFramer.createLineTransformStream chunks) <> lines.
Proof. cbv zeta. repeat split; concrete_lines. Qed.

(** C8 (as amended).  After any chunks, the buffer is the text that
    follows the last line feed written; [flush] enqueues that text as it
    is, not trimmed, when it has a code unit that is no white space, and
    nothing when it has none. *)
Theorem flush_emits_untrimmed_buffer (chunks : list jsstring) :
  let f := fst (LineFramer.feed LineFramer.createLineTransformStream chunks) in
  (exists prefix,
      concat chunks = prefix ++ LineFramer.buffer f /\
      (prefix = [] \/ last prefix 0%N = LF)) /\
  ~ In LF (LineFramer.buffer f) /\
  (non_blank (LineFramer.buffer f) ->
     LineFramer.flush f = [LineFramer.buffer f]) /\
  (trim (LineFramer.buffer f) = [] -> LineFramer.flush f = []).
Proof.
  cbv zeta. rewrite feed_createLineTransformStream.
  cbv [fst LineFramer.buffer LineFramer.flush].
  split; [apply split_lines_tail|].
  split; [apply last_split_lines_no_LF|].
  split.
  - intros H. rewrite (proj2 (truthy_non_blank _) H). reflexivity.
  - intros ->. reflexivity.
Qed.

(** C8 as stated fails: the final line is the buffer, white space
    included, not the trimmed buffer. *)
Lemma flush_trimmed_counterexample :
  let chunks := [lit " a"; lit "b "] in
  let f := fst (LineFramer.feed LineFramer.createLineTransformStream chunks) in
  LineFramer.buffer f = lit " ab " /\
  trim (LineFramer.buffer f) = lit "ab" /\
  LineFramer.flush f = [lit " ab "] /\
  LineFramer.flush f <> [trim (LineFramer.buffer f)].
Proof. cbv zeta. repeat split; concrete_lines. Qed.

(** ** Sorting numbers *)

Section Sorting.

Lemma gt0_sub_true x y :
  is_number x -> is_number y -> gt0 (sub x y) = true -> le y x.
Proof.
  unfold is_number.
  destruct x as [| |p|], y as [| |q|]; simpl; intros Hx Hy H;
    try congruence; try exact I.
  destruct (Qle_bool (p - q) 0) eqn:E; [discriminate|].
  assert (Hn : ~ (p - q <= 0)%Q).
  { intros Hle. apply Qle_bool_iff in Hle. congruence. }
  lra.
Qed.

Lemma gt0_sub_false x y :
  is_number x -> is_number y -> gt0 (sub x y) = false -> le x y.
Proof.
  unfold is_number.
  destruct x as [| |p|], y as [| |q|]; simpl; intros Hx Hy H;
    try congruence; try exact I.
  destruct (Qle_bool (p - q) 0) eqn:E; [|discriminate].
  apply Qle_bool_iff in E. lra.
Qed.

Lemma insert_perm x l : Permutation (insert x l) (x :: l).
Proof.
  induction l as [|y t IH]; simpl; [reflexivity|].
  destruct (gt0 (sub x y)); [|reflexivity].
  rewrite IH. apply perm_swap.
Qed.

Lemma sort_perm l : Permutation (sort l) l.
Proof.
  induction l as [|x t IH]; simpl; [reflexivity|].
  rewrite insert_perm. constructor. exact IH.
Qed.

Lemma sort_length l : length (sort l) = length l.
Proof. apply Permutation_length, sort_perm. Qed.

Lemma insert_hd_rel y x t :
  le y x -> HdRel le y t -> HdRel le y (insert x t).
Proof.
  intros Hyx H. destruct t as [|z t']; simpl.
  - constructor. exact Hyx.
  - destruct (gt0 (sub x z)); constructor; [|exact Hyx].
    inversion H; assumption.
Qed.

Lemma insert_sorted x l :
  is_number x -> Forall is_number l -> Sorted le l -> Sorted le (insert x l).
Proof.
  intros Hx HF HS. induction l as [|y t IH]; simpl.
  - repeat constructor.
  - inversion HF as [|? ? Hy HF']; subst. inversion HS as [|? ? HS' Hhd]; subst.
    destruct (gt0 (sub x y)) eqn:E.
    + constructor; [apply IH; assumption|].
      apply insert_hd_rel; [|exact Hhd].
      apply gt0_sub_true; assumption.
    + constructor; [exact HS|]. constructor.
      apply gt0_sub_false; assumption.
Qed.

Lemma sort_is_number l : Forall is_number l -> Forall is_number (sort l).
Proof.
  intros H. rewrite Forall_forall in *. intros x Hx. apply H.
  apply (Permutation_in x (sort_perm l)). exact Hx.
Qed.

Lemma sort_sorted l : Forall is_number l -> Sorted le (sort l).
Proof.
  induction 1 as [|x t Hx HF IH]; simpl; [constructor|].
  apply insert_sorted; [exact Hx|apply sort_is_number; exact HF|exact IH].
Qed.

End Sorting.

(** ** Weight filter *)

Section Filter.

Lemma filter_window_length window x :
  0 < length (snd (WeightFilter.filterWithMedian window x)).
Proof.
  unfold WeightFilter.filterWithMedian, WeightFilter.windowSize, shift. simpl snd.
  destruct (5 <? length (window ++ [x])) eqn:E.
  - apply Nat.ltb_lt in E.
    destruct (window ++ [x]) as [|y t]; simpl in *; lia.
  - rewrite length_app. simpl. lia.
Qed.

Lemma filter_window_is_number window x :
  Forall is_number window -> is_number x ->
  Forall is_number (snd (WeightFilter.filterWithMedian window x)).
Proof.
  intros HF Hx.
  assert (H : Forall is_number (window ++ [x])).
  { apply Forall_app. split; [exact HF|]. constructor; [exact Hx|constructor]. }
  unfold WeightFilter.filterWithMedian, shift. simpl snd.
  destruct (WeightFilter.windowSize <? length (window ++ [x])); [|exact H].
  destruct (window ++ [x]); [exact H|]. inversion H; assumption.
Qed.

Lemma odd_lower_upper n :
  Nat.odd n = true -> lower_median_index n = upper_median_index n.
Proof.
  unfold lower_median_index, upper_median_index.
  intros H. apply Nat.odd_spec in H. destruct H as [k ->].
  replace (2 * k + 1 - 1) with (k * 2) by lia.
  rewrite Nat.div_mul by discriminate.
  apply (Nat.div_unique _ 2 k 1); lia.
Qed.

Lemma even_lower_upper n :
  0 < n -> Nat.even n = true ->
  lower_median_index n = upper_median_index n - 1 /\
  lower_median_index n < upper_median_index n.
Proof.
  unfold lower_median_index, upper_median_index.
  intros Hn H. apply Nat.even_spec in H. destruct H as [k ->].
  assert (E1 : 2 * k / 2 = k).
  { replace (2 * k) with (k * 2) by lia. apply Nat.div_mul. discriminate. }
  assert (E2 : (2 * k - 1) / 2 = k - 1).
  { symmetry. apply (Nat.div_unique _ 2 (k - 1) 1); lia. }
  rewrite E1, E2. lia.
Qed.

End Filter.

(** C4 (as amended).  For every window and pushed value that are numbers,
    [filterWithMedian] returns the element at index [floor(length / 2)] of
    the updated window sorted ascending.  That element is the median when
    the window length is odd and the upper median, the one just after the
    lower median in the sorted window, when the length is even. *)
Theorem filterWithMedian_returns_upper_median
    (weightWindow : list number) (newWeight : number) :
  Forall is_number weightWindow ->
  is_number newWeight ->
  let result := fst (WeightFilter.filterWithMedian weightWindow newWeight) in
  let window := snd (WeightFilter.filterWithMedian weightWindow newWeight) in
  let n := length window in
  window = (if 5 <? length (weightWindow ++ [newWeight])
            then tl (weightWindow ++ [newWeight])
            else weightWindow ++ [newWeight]) /\
  Sorted le (sort window) /\
  Permutation (sort window) window /\
  (exists m, result = Some m /\ nth_error (sort window) (n / 2) = Some m) /\
  result = upper_median window /\
  (Nat.odd n = true -> result = lower_median window) /\
  (Nat.even n = true ->
     lower_median window = nth_error (sort window) (n / 2 - 1) /\
     n / 2 - 1 < n / 2).
Proof.
  intros HF Hx result window n.
  pose proof (filter_window_length weightWindow newWeight) as Hlen.
  pose proof (filter_window_is_number HF Hx) as Hnum.
  fold window in Hlen, Hnum. fold n in Hlen.
  assert (Hres : result = nth_error (sort window) (n / 2)).
  { unfold result, window, n, WeightFilter.filterWithMedian. simpl fst. simpl snd.
    rewrite sort_length. reflexivity. }
  split; [reflexivity|].
  split; [apply sort_sorted; exact Hnum|].
  split; [apply sort_perm|].
  split.
  { rewrite Hres.
    destruct (nth_error (sort window) (n / 2)) as [m|] eqn:E.
    - exists m. auto.
    - exfalso. apply nth_error_None in E. rewrite sort_length in E.
      fold n in E.
      assert (n / 2 < n) by (apply Nat.div_lt; lia). lia. }
  split; [exact Hres|].
  split.
  - intros Hodd. rewrite Hres. unfold lower_median. fold n.
    rewrite (odd_lower_upper _ Hodd). reflexivity.
  - intros Heven. unfold lower_median. fold n.
    destruct (even_lower_upper Hlen Heven) as [E Hlt].
    unfold upper_median_index in E, Hlt. rewrite E. split; [reflexivity|].
    unfold lower_median_index in *. lia.
Qed.

Lemma filterWithMedian_returns_upper_median_witness :
  fst (WeightFilter.filterWithMedian [Fin 5; Fin 1] (Fin 3))
  = lower_median (snd (WeightFilter.filterWithMedian [Fin 5; Fin 1] (Fin 3))).
Proof.
  assert (HF : Forall is_number [Fin 5; Fin 1])
    by (repeat constructor; discriminate).
  assert (Hx : is_number (Fin 3)) by discriminate.
  destruct (@filterWithMedian_returns_upper_median [Fin 5; Fin 1] (Fin 3) HF Hx)
    as [_ [_ [_ [_ [_ [Hodd _]]]]]].
  apply Hodd. reflexivity.
Defined.

(** C4 as stated fails for an even length: pushing 1 into the window [5]
    returns 5, and the lower median of 5, 1 is 1. *)
Lemma filterWithMedian_lower_median_counterexample :
  fst (WeightFilter.filterWithMedian [Fin 5] (Fin 1)) = Some (Fin 5) /\
  lower_median (snd (WeightFilter.filterWithMedian [Fin 5] (Fin 1))) = Some (Fin 1) /\
  fst (WeightFilter.filterWithMedian [Fin 5] (Fin 1))
    <> lower_median (snd (WeightFilter.filterWithMedian [Fin 5] (Fin 1))) /\
  ~ same (Fin 5) (Fin 1).
Proof.
  repeat split; try reflexivity.
  - discriminate.
  - cbv. discriminate.
Qed.

(** C5.  From the empty window, pushing 5, 1 and 3 returns 5, 5 and 3. *)
Theorem median_filter_5_1_3 :
  fst (WeightFilter.push_all [] [Fin 5; Fin 1; Fin 3])
  = [Some (Fin 5); Some (Fin 5); Some (Fin 3)].
Proof. reflexivity. Qed.

(** ** Readings per second *)

Section ReadingsPerSecond.

Import Metrics.

Lemma processReading_retained w l ts now m :
  readingsInLastSecond (processReading w l ts now m)
  = filter (fun t => (now - t <? 1000)%Z) (readingsInLastSecond m ++ [ts]).
Proof. reflexivity. Qed.

Lemma processReading_count w l ts now m :
  readingsPerSecond (processReading w l ts now m)
  = length (readingsInLastSecond (processReading w l ts now m)).
Proof. reflexivity. Qed.

Lemma record_all_snoc samples s m :
  record_all (samples ++ [s]) m
  = processReading (s_weight s) (s_latency s) (s_timestamp s) (s_now s)
      (record_all samples m).
Proof. unfold record_all. rewrite fold_left_app. reflexivity. Qed.

Lemma filter_filter_weaker (P Q : Z -> bool) (l : list Z) :
  (forall t, P t = true -> Q t = true) ->
  filter P (filter Q l) = filter P l.
Proof.
  intros H. induction l as [|x t IH]; [reflexivity|].
  simpl. destruct (Q x) eqn:EQ; simpl.
  - rewrite IH. reflexivity.
  - destruct (P x) eqn:EP; [|exact IH].
    rewrite (H x EP) in EQ. discriminate.
Qed.

Lemma nondecreasing_cons a b l :
  nondecreasing (a :: b :: l) = true <-> (a <= b)%Z /\ nondecreasing (b :: l) = true.
Proof.
  change (nondecreasing (a :: b :: l))
    with ((a <=? b)%Z && nondecreasing (b :: l)).
  rewrite andb_true_iff, Z.leb_le. reflexivity.
Qed.

Lemma nondecreasing_tail a l :
  nondecreasing (a :: l) = true -> nondecreasing l = true.
Proof.
  destruct l as [|b l']; [reflexivity|].
  intros H. apply nondecreasing_cons in H. exact (proj2 H).
Qed.

(** While the clock does not run backwards, the list kept is the list of
    all the timestamps recorded, filtered once with the last bound. *)
Lemma record_all_retained samples :
  forall m all lo,
    readingsInLastSecond m = filter (fun t => (lo <? t)%Z) all ->
    nondecreasing ((lo + 1000)%Z :: clock_reads samples) = true ->
    readingsInLastSecond (record_all samples m)
    = filter (fun t => (last (map (fun s => s_now s - 1000) samples) lo <? t)%Z)
             (all ++ map s_timestamp samples).
Proof.
  induction samples as [|s rest IH]; intros m all lo Hm Hclock.
  - simpl. rewrite app_nil_r. exact Hm.
  - change (clock_reads (s :: rest))
      with (s_timestamp s :: s_now s :: clock_reads rest) in Hclock.
    apply nondecreasing_cons in Hclock. destruct Hclock as [H1 Hclock].
    apply nondecreasing_cons in Hclock. destruct Hclock as [H2 Hclock].
    change (record_all (s :: rest) m)
      with (record_all rest
              (processReading (s_weight s) (s_latency s) (s_timestamp s) (s_now s) m)).
    rewrite (IH _ (all ++ [s_timestamp s]) (s_now s - 1000)%Z).
    + rewrite <- app_assoc.
      destruct rest as [|s' rest']; [reflexivity|].
      apply filter_ext. intros t. f_equal.
      transitivity (last (map (fun s0 => (s_now s0 - 1000)%Z) (s' :: rest')) lo);
        [apply last_default_irrelevant; discriminate | reflexivity].
    + rewrite processReading_retained, Hm.
      rewrite !filter_app. f_equal.
      * rewrite <- (filter_filter_weaker
                     (fun t => (s_now s - 1000 <? t)%Z) (fun t => (lo <? t)%Z)).
        -- apply filter_ext. intros t.
           destruct (Z.ltb_spec (s_now s - t) 1000), (Z.ltb_spec (s_now s - 1000) t);
             try reflexivity; lia.
        -- intros t Ht. apply Z.ltb_lt in Ht. apply Z.ltb_lt. lia.
      * apply filter_ext. intros t.
        destruct (Z.ltb_spec (s_now s - t) 1000), (Z.ltb_spec (s_now s - 1000) t);
          try reflexivity; lia.
    + replace (s_now s - 1000 + 1000)%Z with (s_now s) by lia. exact Hclock.
Qed.

Lemma nondecreasing_last_now samples :
  forall prev,
    nondecreasing (prev :: clock_reads samples) = true ->
    (prev <= last (map s_now samples) prev)%Z /\
    Forall (fun t => (t <= last (map s_now samples) prev)%Z) (map s_timestamp samples).
Proof.
  induction samples as [|s rest IH]; intros prev H.
  - simpl. split; [lia|constructor].
  - change (clock_reads (s :: rest))
      with (s_timestamp s :: s_now s :: clock_reads rest) in H.
    apply nondecreasing_cons in H. destruct H as [H1 H].
    apply nondecreasing_cons in H. destruct H as [H2 H].
    destruct (IH _ H) as [H3 H4].
    assert (E : last (map s_now (s :: rest)) prev = last (map s_now rest) (s_now s)).
    { simpl map. destruct rest as [|s' rest']; [reflexivity|].
      simpl map. change (last (s_now s :: s_now s' :: map s_now rest') prev)
        with (last (s_now s' :: map s_now rest') prev).
      apply last_default_irrelevant. discriminate. }
    rewrite E. split; [lia|].
    simpl map. constructor; [lia|exact H4].
Qed.

(** The list kept never has more timestamps of a kind than were recorded. *)
Lemma record_all_bounded samples :
  forall m all,
    (forall Q : Z -> bool,
        length (filter Q (readingsInLastSecond m)) <= length (filter Q all)) ->
    forall Q : Z -> bool,
      length (filter Q (readingsInLastSecond (record_all samples m)))
      <= length (filter Q (all ++ map s_timestamp samples)).
Proof.
  induction samples as [|s rest IH]; intros m all Hm Q.
  - simpl. rewrite app_nil_r. apply Hm.
  - change (record_all (s :: rest) m)
      with (record_all rest
              (processReading (s_weight s) (s_latency s) (s_timestamp s) (s_now s) m)).
    simpl map.
    replace (all ++ s_timestamp s :: map s_timestamp rest)
      with ((all ++ [s_timestamp s]) ++ map s_timestamp rest)
      by (rewrite <- app_assoc; reflexivity).
    apply IH. clear Q. intros Q.
    rewrite processReading_retained.
    set (A := fun t => (s_now s - t <? 1000)%Z).
    assert (Hff : forall l, length (filter Q (filter A l))
                            = length (filter (fun t => A t && Q t) l)).
    { intros l. induction l as [|x l' IHl]; [reflexivity|].
      simpl. destruct (A x); simpl; [destruct (Q x); simpl; lia|exact IHl]. }
    assert (Hle : forall l, length (filter (fun t => A t && Q t) l)
                            <= length (filter Q l)).
    { intros l. induction l as [|x l' IHl]; [reflexivity|].
      simpl. destruct (A x), (Q x); simpl; lia. }
    rewrite Hff, !filter_app, !length_app.
    pose proof (Hm (fun t => A t && Q t)) as H1.
    pose proof (Hle all) as H2.
    pose proof (Hle [s_timestamp s]) as H3.
    lia.
Qed.

End ReadingsPerSecond.

Lemma nondecreasing_hd l :
  Metrics.nondecreasing l = true ->
  Metrics.nondecreasing ((hd 0 l - 1000 + 1000)%Z :: l) = true.
Proof.
  intros H. destruct l as [|a l']; [reflexivity|].
  apply nondecreasing_cons. split; [simpl; lia|exact H].
Qed.

(** C6 (as amended).  While the clock does not run backwards, each reading
    inserted since the last clear sets [readingsPerSecond] to the number of
    all the timestamps recorded since then that lie in the half-open
    interval from [now - 1000] excluded to [now] included; a timestamp
    exactly 1000 ms old is not counted and not kept. *)
Theorem readingsPerSecond_counts_half_open_window
    (m0 : Metrics.t) (earlier : list Metrics.sample) (s : Metrics.sample) :
  Metrics.nondecreasing (Metrics.clock_reads (earlier ++ [s])) = true ->
  let m := Metrics.record_all (earlier ++ [s]) (Metrics.clear m0) in
  let now := Metrics.s_now s in
  Metrics.readingsPerSecond m
  = length (filter (fun t => (now - 1000 <? t)%Z && (t <=? now)%Z)
                   (map Metrics.s_timestamp (earlier ++ [s])))
  /\ ~ In (now - 1000)%Z (Metrics.readingsInLastSecond m).
Proof.
  intros Hclock m now.
  set (lo := (hd 0 (Metrics.clock_reads (earlier ++ [s])) - 1000)%Z).
  pose proof (nondecreasing_hd _ Hclock) as Hlo. fold lo in Hlo.
  assert (Hkept :
    Metrics.readingsInLastSecond m
    = filter (fun t => (now - 1000 <? t)%Z)
             (map Metrics.s_timestamp (earlier ++ [s]))).
  { unfold m.
    rewrite (@record_all_retained (earlier ++ [s]) (Metrics.clear m0) [] lo eq_refl Hlo).
    rewrite map_app. simpl map. rewrite last_last. reflexivity. }
  split.
  - unfold m at 1. rewrite record_all_snoc, processReading_count.
    rewrite <- record_all_snoc. fold m. rewrite Hkept. f_equal.
    apply filter_ext_in. intros t Ht.
    destruct (nondecreasing_last_now _ _ Hlo) as [_ HF].
    rewrite map_app in HF. simpl (map Metrics.s_now [s]) in HF.
    rewrite last_last in HF. rewrite Forall_forall in HF.
    specialize (HF t Ht). fold now in HF.
    apply Z.leb_le in HF. rewrite HF, andb_true_r. reflexivity.
  - rewrite Hkept. intros Hin. apply filter_In in Hin.
    destruct Hin as [_ Hlt]. apply Z.ltb_lt in Hlt. lia.
Qed.

Lemma readingsPerSecond_counts_half_open_window_witness :
  let samples :=
    [Metrics.mkSample (Some (Fin 1)) (Fin 0) 0 0;
     Metrics.mkSample (Some (Fin 1)) (Fin 0) 100 100;
     Metrics.mkSample (Some (Fin 1)) (Fin 0) 900 900;
     Metrics.mkSample (Some (Fin 1)) (Fin 0) 1100 1100] in
  Metrics.nondecreasing (Metrics.clock_reads samples) = true /\
  Metrics.readingsPerSecond (Metrics.record_all samples Metrics.initial) = 2.
Proof.
  split; [reflexivity|].
  exact (proj1 (@readingsPerSecond_counts_half_open_window
                  Metrics.initial
                  [Metrics.mkSample (Some (Fin 1)) (Fin 0) 0 0;
                   Metrics.mkSample (Some (Fin 1)) (Fin 0) 100 100;
                   Metrics.mkSample (Some (Fin 1)) (Fin 0) 900 900]
                  (Metrics.mkSample (Some (Fin 1)) (Fin 0) 1100 1100)
                  eq_refl)).
Defined.

(** C6 as stated fails: with readings at 0 ms and at 1000 ms, the closed
    interval from 0 to 1000 holds both timestamps, and the count after the
    second reading is 1: the timestamp that is exactly 1000 ms old is gone. *)
Lemma readingsPerSecond_closed_window_counterexample :
  let samples :=
    [Metrics.mkSample (Some (Fin 1)) (Fin 0) 0 0;
     Metrics.mkSample (Some (Fin 1)) (Fin 0) 1000 1000] in
  let m := Metrics.record_all samples Metrics.initial in
  let now := 1000%Z in
  length (filter (fun t => (now - 1000 <=? t)%Z && (t <=? now)%Z)
                 (map Metrics.s_timestamp samples)) = 2 /\
  Metrics.readingsPerSecond m = 1 /\
  Metrics.readingsInLastSecond m = [1000%Z] /\
  Metrics.readingsPerSecond
    (Metrics.updateReadingsPerSecond now
       (Metrics.mk [] [] [0%Z] 1 0 (Fin 0) (Fin 0) (Fin 0))) = 0.
Proof. cbv zeta. repeat split. Qed.

(** C9.  After every call of [updateReadingsPerSecond], in a channel and
    in the single-channel page, the list kept holds only timestamps less
    than 1000 ms old, every timestamp that old or older is out of the list
    itself, and the count reported is the length of the list; after any
    readings since the last clear, the list is no longer than the number of
    readings recorded in the trailing second. *)
Theorem readingsInLastSecond_keeps_fresh_timestamps_only :
  (forall (m : Metrics.t) (now : Z),
      let m' := Metrics.updateReadingsPerSecond now m in
      Forall (fun t => (now - t < 1000)%Z) (Metrics.readingsInLastSecond m') /\
      (forall t, (now - t >= 1000)%Z -> ~ In t (Metrics.readingsInLastSecond m')) /\
      (forall t, In t (Metrics.readingsInLastSecond m') ->
                 In t (Metrics.readingsInLastSecond m)) /\
      Metrics.readingsPerSecond m' = length (Metrics.readingsInLastSecond m'))
  /\
  (forall (m0 : Metrics.t) (earlier : list Metrics.sample) (s : Metrics.sample),
      let m := Metrics.record_all (earlier ++ [s]) (Metrics.clear m0) in
      let now := Metrics.s_now s in
      Forall (fun t => (now - t < 1000)%Z) (Metrics.readingsInLastSecond m) /\
      Metrics.readingsPerSecond m = length (Metrics.readingsInLastSecond m) /\
      length (Metrics.readingsInLastSecond m)
      <= length (filter (fun t => (now - t <? 1000)%Z)
                        (map Metrics.s_timestamp (earlier ++ [s]))))
  /\
  (forall (p : SerialPerformanceTest.t),
      let now := clock (dev (SerialPerformanceTest.env p))
                       (ticks (SerialPerformanceTest.env p)) in
      let p' := snd (SerialPerformanceTest.updateReadingsPerSecond p) in
      Forall (fun t => (now - t < 1000)%Z)
             (SerialPerformanceTest.readingsInLastSecond p') /\
      (forall t, In t (SerialPerformanceTest.readingsInLastSecond p') ->
                 In t (SerialPerformanceTest.readingsInLastSecond p)) /\
      SerialPerformanceTest.readingsPerSecond p'
        = length (SerialPerformanceTest.readingsInLastSecond p')).
Proof.
  split; [|split].
  3: {
    intros p. destruct p as [baud isC isR port lr wr did dcap dun rds lats rils rps win
                             meth iid els con tim [dv tr tk]].
    cbv -[filter Z.ltb Z.sub Z.lt length clock In].
    repeat split.
    - apply Forall_forall. intros t Ht. apply filter_In in Ht.
      destruct Ht as [_ Ht]. apply Z.ltb_lt in Ht. exact Ht.
    - intros t Hin. apply filter_In in Hin. exact (proj1 Hin). }
  - intros m now m'. unfold m', Metrics.updateReadingsPerSecond.
    cbv [Metrics.readingsInLastSecond Metrics.readingsPerSecond].
    fold (Metrics.readingsInLastSecond m).
    repeat split.
    + apply Forall_forall. intros t Ht. apply filter_In in Ht.
      destruct Ht as [_ Ht]. apply Z.ltb_lt in Ht. exact Ht.
    + intros t Hold Hin. apply filter_In in Hin.
      destruct Hin as [_ Ht]. apply Z.ltb_lt in Ht. lia.
    + intros t Hin. apply filter_In in Hin. exact (proj1 Hin).
  - intros m0 earlier s m now.
    assert (Hstep :
      Metrics.readingsInLastSecond m
      = filter (fun t => (now - t <? 1000)%Z)
          (Metrics.readingsInLastSecond
             (Metrics.record_all earlier (Metrics.clear m0))
           ++ [Metrics.s_timestamp s])).
    { unfold m. rewrite record_all_snoc. apply processReading_retained. }
    repeat split.
    + rewrite Hstep. apply Forall_forall. intros t Ht. apply filter_In in Ht.
      destruct Ht as [_ Ht]. apply Z.ltb_lt in Ht. exact Ht.
    + unfold m. rewrite record_all_snoc. apply processReading_count.
    + pose proof (@record_all_bounded (earlier ++ [s]) (Metrics.clear m0) []
                    (fun Q => Nat.le_refl _) (fun t => (now - t <? 1000)%Z)) as Hb.
      fold m in Hb. simpl app in Hb.
      assert (Hall :
        filter (fun t => (now - t <? 1000)%Z) (Metrics.readingsInLastSecond m)
        = Metrics.readingsInLastSecond m).
      { rewrite Hstep at 2. rewrite Hstep.
        apply filter_filter_weaker. auto. }
      rewrite Hall in Hb. exact Hb.
Qed.

(** ** Running the sequential model *)

Lemma occurrences_snoc k tr ev :
  occurrences k (tr ++ [ev]) =
  if kind_eqb (kind_of ev) k then S (occurrences k tr) else occurrences k tr.
Proof.
  unfold occurrences. rewrite filter_app, length_app. simpl.
  destruct (kind_eqb (kind_of ev) k); simpl; lia.
Qed.

(** Reduction that leaves the script of the transport, the strings and the
    traces as they are written. *)
Ltac io_simpl :=
  cbv -[occurrences lit app trim truthy failure line clock attempted CR LF
        Metrics.processReading Metrics.updateMetrics Metrics.clear
        WeightFilter.filterWithMedian].

Ltac io_rewrite :=
  match goal with
  | H : failure _ _ _ = _ |- _ => rewrite H
  | H : forall data, failure _ (EvWrite data) _ = _ |- _ => rewrite H
  | H : line _ _ = _ |- _ => rewrite H
  end.

(** Runs the computation in the goal as far as the hypotheses on the
    transport decide it. *)
Ltac io_run :=
  repeat (io_simpl; rewrite ?occurrences_snoc; io_simpl; io_rewrite);
  io_simpl.

(** Names the fields of a channel and of a page. *)
Ltac open_channel c :=
  destruct c as [baud isC isR port lr wr did dcap dun met win con tim w'];
  cbv [SerialChannel.env SerialChannel.isConnected SerialChannel.isReading
       SerialChannel.writer SerialChannel.lineReader SerialChannel.port
       SerialChannel.baudRate SerialChannel.deviceId
       SerialChannel.deviceCapacity SerialChannel.deviceUnits
       SerialChannel.console dev trace ticks] in *.

Ltac open_page p :=
  destruct p as [baud isC isR port lr wr did dcap dun rds lats rils rps win
                 meth iid els con tim w'];
  cbv [SerialPerformanceTest.env SerialPerformanceTest.isConnected
       SerialPerformanceTest.isReading SerialPerformanceTest.writer
       SerialPerformanceTest.lineReader SerialPerformanceTest.port
       SerialPerformanceTest.currentMethod SerialPerformanceTest.deviceId
       SerialPerformanceTest.deviceCapacity SerialPerformanceTest.deviceUnits
       SerialPerformanceTest.console dev trace ticks] in *.

(** C2 (as amended).  When, in the handshake after a connection, the [id]
    command succeeds and the [slc] command then fails, the handshake ends
    without an exception and the channel stays connected.  In a
    [SerialChannel] the device-id field then holds the sentinel ['Error'],
    not the value [id] returned, and the capacity and unit fields are left
    as they were ([null] after a first connection); [connect()] as a whole
    ends the same way.  In the single-channel page the device-id field keeps
    the value [id] returned, the capacity and unit fields are left as they
    were, and the three elements of the page show ['Error']. *)
Theorem handshake_slc_failure (w : world) (v : jsstring) (e : error) :
  let d := dev w in
  let nw := occurrences KWrite (trace w) in
  let nr := occurrences KRead (trace w) in
  failure d (EvWrite (lit "id" ++ [CR])) nw = None ->
  failure d EvRead nr = None ->
  line d nr = ReadValue v ->
  (failure d (EvWrite (lit "slc" ++ [CR])) (S nw) = Some e \/
   (failure d (EvWrite (lit "slc" ++ [CR])) (S nw) = None /\
    failure d EvRead (S nr) = Some e)) ->
  (forall c : SerialChannel.t,
      SerialChannel.env c = w ->
      SerialChannel.isConnected c = true ->
      SerialChannel.writer c = true ->
      SerialChannel.lineReader c = true ->
      let c' := snd (SerialChannel.getDeviceInfo c) in
      fst (SerialChannel.getDeviceInfo c) = Ret tt /\
      SerialChannel.isConnected c' = true /\
      SerialChannel.deviceId c' = Some (lit "Error") /\
      SerialChannel.deviceCapacity c' = SerialChannel.deviceCapacity c /\
      SerialChannel.deviceUnits c' = SerialChannel.deviceUnits c)
  /\
  (forall c : SerialChannel.t,
      SerialChannel.env c = w ->
      failure d EvRequestPort (occurrences KRequestPort (trace w)) = None ->
      failure d (EvOpen (SerialChannel.baudRate c)) (occurrences KOpen (trace w)) = None ->
      failure d EvGetWriter (occurrences KGetWriter (trace w)) = None ->
      let c' := snd (SerialChannel.connect c) in
      fst (SerialChannel.connect c) = Ret tt /\
      SerialChannel.isConnected c' = true /\
      SerialChannel.deviceId c' = Some (lit "Error") /\
      SerialChannel.deviceCapacity c' = SerialChannel.deviceCapacity c /\
      SerialChannel.deviceUnits c' = SerialChannel.deviceUnits c)
  /\
  (forall p : SerialPerformanceTest.t,
      SerialPerformanceTest.env p = w ->
      SerialPerformanceTest.isConnected p = true ->
      SerialPerformanceTest.isReading p = false ->
      SerialPerformanceTest.writer p = true ->
      SerialPerformanceTest.lineReader p = true ->
      let p' := snd (SerialPerformanceTest.getDeviceInfo p) in
      fst (SerialPerformanceTest.getDeviceInfo p) = Ret tt /\
      SerialPerformanceTest.isConnected p' = true /\
      SerialPerformanceTest.deviceId p'
        = Some (if truthy v then trim v else []) /\
      SerialPerformanceTest.deviceCapacity p'
        = SerialPerformanceTest.deviceCapacity p /\
      SerialPerformanceTest.deviceUnits p' = SerialPerformanceTest.deviceUnits p /\
      SerialPerformanceTest.deviceId_text (SerialPerformanceTest.elements p')
        = lit "Error" /\
      SerialPerformanceTest.deviceCapacity_text (SerialPerformanceTest.elements p')
        = lit "Error" /\
      SerialPerformanceTest.deviceUnits_text (SerialPerformanceTest.elements p')
        = lit "Error").
Proof.
  intros d nw nr Hid1 Hid2 Hid3 Hslc.
  destruct w as [dv tr tk]. cbv [dev trace] in d, nw, nr. subst d nw nr.
  split; [|split].
  - intros c Hw HisC Hwr Hlr c'. subst c'.
    open_channel c. subst w' isC wr lr.
    destruct (SerialChannel.getDeviceInfo _) as [r c'] eqn:E.
    revert E. destruct Hslc as [Hs | [Hs1 Hs2]]; io_run;
      intros E; injection E as <- <-; repeat split.
  - intros c Hw Hport Hopen Hgw c'. subst c'.
    open_channel c. subst w'.
    destruct (SerialChannel.connect _) as [r c'] eqn:E.
    revert E. destruct Hslc as [Hs | [Hs1 Hs2]]; io_run;
      intros E; injection E as <- <-; repeat split.
  - intros p Hw HisC HisR Hwr Hlr p'. subst p'.
    open_page p. subst w' isC isR wr lr.
    destruct (SerialPerformanceTest.getDeviceInfo _) as [r c'] eqn:E.
    revert E. destruct Hslc as [Hs | [Hs1 Hs2]]; io_run;
      intros E; injection E as <- <-; repeat split.
Qed.

Lemma handshake_slc_failure_witness :
  let c := SerialChannel.constructor 9600 Examples.device_slc_fails in
  let c' := snd (SerialChannel.connect c) in
  fst (SerialChannel.connect c) = Ret tt /\
  SerialChannel.isConnected c' = true /\
  SerialChannel.deviceId c' = Some (lit "Error") /\
  SerialChannel.deviceCapacity c' = None /\
  SerialChannel.deviceUnits c' = None.
Proof.
  refine (proj1 (proj2
    (@handshake_slc_failure
       (mkWorld Examples.device_slc_fails [] 0) (lit " SCALE-42 ")
       (mkError (lit "NetworkError") (lit "The device has been lost."))
       eq_refl eq_refl eq_refl (or_introl eq_refl)))
    (SerialChannel.constructor 9600 Examples.device_slc_fails)
    eq_refl eq_refl eq_refl eq_refl).
Defined.

(** C2 as stated fails: on a device that answers [id] and loses [slc], a
    new channel ends connected with the device id ['Error'], not the answer
    to [id], and with the capacity [null], not a sentinel. *)
Lemma handshake_slc_failure_counterexample :
  let c' := snd (SerialChannel.connect
                   (SerialChannel.constructor 9600 Examples.device_slc_fails)) in
  SerialChannel.isConnected c' = true /\
  SerialChannel.deviceId c' = Some (lit "Error") /\
  SerialChannel.deviceId c' <> Some (lit "SCALE-42") /\
  SerialChannel.deviceCapacity c' = None /\
  hd_error (SerialChannel.console c')
    = Some (info, lit "Successfully connected to serial device") /\
  nth_error (SerialChannel.console c') 2
    = Some (info, lit "Device ID: SCALE-42").
Proof. cbv zeta. repeat split; try reflexivity. vm_compute. discriminate. Qed.

Ltac io_finish :=
  intros E; injection E as <- <-; io_simpl;
  repeat split; rewrite <- ?app_assoc; try reflexivity.

(** Splits on the outcome of the next release step of [disconnect]. *)
Ltac release_step ev k :=
  match goal with
  | dv : transport, tr : list io_event |- _ =>
      let H := fresh "Hstep" in
      destruct (failure dv ev (occurrences k tr)) eqn:H
  end.

Section DisconnectSteps.

(** Splits on the outcome of every operation of the computation in the
    goal, as they come. *)
Ltac split_outcomes :=
  repeat (io_simpl;
          match goal with
          | |- context [failure ?d ?ev ?n] => destruct (failure d ev n)
          | |- context [line ?d ?n] => destruct (line d n)
          end);
  io_simpl.

(** [stopReading()] never throws and leaves the connection flag, the
    handles and the device fields as they are, however it ends. *)
Lemma channel_stopReading_keeps (c : SerialChannel.t) :
  let c1 := snd (SerialChannel.stopReading c) in
  (forall e, fst (SerialChannel.stopReading c) <> Throw e) /\
  SerialChannel.isConnected c1 = SerialChannel.isConnected c /\
  SerialChannel.lineReader c1 = SerialChannel.lineReader c /\
  SerialChannel.writer c1 = SerialChannel.writer c /\
  SerialChannel.port c1 = SerialChannel.port c /\
  SerialChannel.deviceId c1 = SerialChannel.deviceId c /\
  SerialChannel.deviceCapacity c1 = SerialChannel.deviceCapacity c /\
  SerialChannel.deviceUnits c1 = SerialChannel.deviceUnits c.
Proof.
  destruct c as [baud isC isR port lr wr did dcap dun met win con tim [dv tr tk]].
  destruct wr, lr; split_outcomes; repeat split; discriminate.
Qed.

Lemma page_stopReading_keeps (p : SerialPerformanceTest.t) :
  let p1 := snd (SerialPerformanceTest.stopReading p) in
  (forall e, fst (SerialPerformanceTest.stopReading p) <> Throw e) /\
  SerialPerformanceTest.isConnected p1 = SerialPerformanceTest.isConnected p /\
  SerialPerformanceTest.lineReader p1 = SerialPerformanceTest.lineReader p /\
  SerialPerformanceTest.writer p1 = SerialPerformanceTest.writer p /\
  SerialPerformanceTest.port p1 = SerialPerformanceTest.port p /\
  SerialPerformanceTest.deviceId p1 = SerialPerformanceTest.deviceId p /\
  SerialPerformanceTest.deviceCapacity p1 = SerialPerformanceTest.deviceCapacity p /\
  SerialPerformanceTest.deviceUnits p1 = SerialPerformanceTest.deviceUnits p.
Proof.
  destruct p as [baud isC isR port lr wr did dcap dun rds lats rils rps win
                 meth iid els con tim [dv tr tk]].
  destruct wr, lr, meth, iid; split_outcomes; repeat split; discriminate.
Qed.


End DisconnectSteps.

(** Splits on the outcome of the next release step, if the goal has it;
    a step that throws ends the run. *)
Ltac try_release ev k rest :=
  first [ match goal with |- context [failure _ ev _] => idtac end;
          release_step ev k; [io_run; io_finish|rest]
        | rest ].

Ltac release_run :=
  cbv [held_steps]; cbn [app]; cbv [attempted kind_of]; rewrite ?occurrences_snoc;
  cbv [kind_eqb kind_of];
  try_release EvCancel KCancel
    ltac:(try_release EvReleaseReader KReleaseReader
      ltac:(try_release EvReleaseWriter KReleaseWriter
        ltac:(try_release EvClose KClose
          ltac:(io_run; io_finish; try (symmetry; apply app_nil_r))))).

(** C3 (as amended).  [disconnect()] first awaits [stopReading()] when the
    object reads; [stopReading()] does not throw, and when it never returns
    (no line answers its command) neither does [disconnect()], which then
    attempts no release step.  Otherwise [disconnect()] cancels the line
    reader, releases its lock, releases the writer and closes the port, in
    that order, leaving out the steps of a handle that is [null], inside
    one [try] block.  The steps are attempted up to the first one that
    throws; that failure is logged, the steps after it are not attempted,
    and the object keeps its connection state, its device fields and its
    port.  Only when no step throws does the object end disconnected, with
    the device fields cleared and the three handles [null]. *)
Theorem disconnect_stops_at_first_failure :
  (forall c : SerialChannel.t,
      let stopped :=
        if SerialChannel.isReading c then SerialChannel.stopReading c else (Ret tt, c) in
      let c1 := snd stopped in
      let c' := snd (SerialChannel.disconnect c) in
      let tried :=
        attempted (dev (SerialChannel.env c1)) (trace (SerialChannel.env c1))
          (held_steps (SerialChannel.lineReader c) (SerialChannel.writer c) (SerialChannel.port c)) in
      match fst stopped with
      | Throw _ => False
      | Pending =>
          fst (SerialChannel.disconnect c) = Pending /\ c' = c1
      | Ret _ =>
          fst (SerialChannel.disconnect c) = Ret tt /\
          trace (SerialChannel.env c') = trace (SerialChannel.env c1) ++ fst tried /\
          match snd tried with
          | None =>
              SerialChannel.isConnected c' = false /\
              SerialChannel.deviceId c' = None /\
              SerialChannel.deviceCapacity c' = None /\
              SerialChannel.deviceUnits c' = None /\
              SerialChannel.lineReader c' = false /\
              SerialChannel.writer c' = false /\
              SerialChannel.port c' = false
          | Some e =>
              SerialChannel.isConnected c' = SerialChannel.isConnected c /\
              SerialChannel.deviceId c' = SerialChannel.deviceId c /\
              SerialChannel.deviceCapacity c' = SerialChannel.deviceCapacity c /\
              SerialChannel.deviceUnits c' = SerialChannel.deviceUnits c /\
              SerialChannel.port c' = SerialChannel.port c /\
              SerialChannel.console c'
                = SerialChannel.console c1
                  ++ [(error_, lit "Disconnect error: " ++ message e)]
          end
      end)
  /\
  (forall p : SerialPerformanceTest.t,
      let stopped :=
        if SerialPerformanceTest.isReading p then SerialPerformanceTest.stopReading p else (Ret tt, p) in
      let p1 := snd stopped in
      let p' := snd (SerialPerformanceTest.disconnect p) in
      let tried :=
        attempted (dev (SerialPerformanceTest.env p1)) (trace (SerialPerformanceTest.env p1))
          (held_steps (SerialPerformanceTest.lineReader p) (SerialPerformanceTest.writer p) (SerialPerformanceTest.port p)) in
      match fst stopped with
      | Throw _ => False
      | Pending =>
          fst (SerialPerformanceTest.disconnect p) = Pending /\ p' = p1
      | Ret _ =>
          fst (SerialPerformanceTest.disconnect p) = Ret tt /\
          trace (SerialPerformanceTest.env p') = trace (SerialPerformanceTest.env p1) ++ fst tried /\
          match snd tried with
          | None =>
              SerialPerformanceTest.isConnected p' = false /\
              SerialPerformanceTest.deviceId p' = None /\
              SerialPerformanceTest.deviceCapacity p' = None /\
              SerialPerformanceTest.deviceUnits p' = None /\
              SerialPerformanceTest.lineReader p' = false /\
              SerialPerformanceTest.writer p' = false /\
              SerialPerformanceTest.port p' = false
          | Some e =>
              SerialPerformanceTest.isConnected p' = SerialPerformanceTest.isConnected p /\
              SerialPerformanceTest.deviceId p' = SerialPerformanceTest.deviceId p /\
              SerialPerformanceTest.deviceCapacity p' = SerialPerformanceTest.deviceCapacity p /\
              SerialPerformanceTest.deviceUnits p' = SerialPerformanceTest.deviceUnits p /\
              SerialPerformanceTest.port p' = SerialPerformanceTest.port p /\
              SerialPerformanceTest.console p'
                = SerialPerformanceTest.console p1
                  ++ [(error_, lit "Disconnect error: " ++ message e)]
          end
      end).
Proof.
  split.
  - intros c. pose proof (channel_stopReading_keeps c) as Hstop.
    cbv zeta in Hstop |- *.
    destruct (SerialChannel.disconnect c) as [rd cd] eqn:ED. cbn [fst snd].
    revert ED. unfold SerialChannel.disconnect, try_catch.
    unfold bind at 1. unfold get at 1. cbv iota beta. unfold bind at 1.
    destruct (SerialChannel.isReading c) eqn:HisR.
    + unfold when at 1.
      destruct (SerialChannel.stopReading c) as [[[]|e|] c1]; cbn [fst snd] in *;
        destruct Hstop as [Hthrow [H1 [H2 [H3 [H4 [H5 [H6 H7]]]]]]].
      * destruct c1 as [baud1 isC1 isR1 port1 lr1 wr1 did1 dcap1 dun1 met1 win1 con1 tim1 [dv tr tk]].
        destruct c as [baud isC isR port lr wr did dcap dun met win con tim w].
        cbn [SerialChannel.isConnected SerialChannel.lineReader SerialChannel.writer
             SerialChannel.port SerialChannel.deviceId SerialChannel.deviceCapacity
             SerialChannel.deviceUnits SerialChannel.env SerialChannel.console
             dev trace] in *.
        subst. destruct lr, wr, port; release_run.
      * exfalso. exact (Hthrow e eq_refl).
      * cbv iota beta. intros E. injection E as <- <-. split; reflexivity.
    + unfold when at 1. unfold ret at 1. cbn [fst snd]. cbv iota beta.
      destruct c as [baud isC isR port lr wr did dcap dun met win con tim [dv tr tk]].
      cbn [SerialChannel.isConnected SerialChannel.lineReader SerialChannel.writer
           SerialChannel.port SerialChannel.deviceId SerialChannel.deviceCapacity
           SerialChannel.deviceUnits SerialChannel.env SerialChannel.console
           dev trace] in *.
      destruct lr, wr, port; release_run.
  - intros p. pose proof (page_stopReading_keeps p) as Hstop.
    cbv zeta in Hstop |- *.
    destruct (SerialPerformanceTest.disconnect p) as [rd pd] eqn:ED. cbn [fst snd].
    revert ED. unfold SerialPerformanceTest.disconnect, try_catch.
    unfold bind at 1. unfold get at 1. cbv iota beta. unfold bind at 1.
    destruct (SerialPerformanceTest.isReading p) eqn:HisR.
    + unfold when at 1.
      destruct (SerialPerformanceTest.stopReading p) as [[[]|e|] p1]; cbn [fst snd] in *;
        destruct Hstop as [Hthrow [H1 [H2 [H3 [H4 [H5 [H6 H7]]]]]]].
      * destruct p1 as [baud1 isC1 isR1 port1 lr1 wr1 did1 dcap1 dun1 rds1 lats1 rils1
                        rps1 win1 meth1 iid1 els1 con1 tim1 [dv tr tk]].
        destruct p as [baud isC isR port lr wr did dcap dun rds lats rils rps win
                       meth iid els con tim w].
        cbn [SerialPerformanceTest.isConnected SerialPerformanceTest.lineReader
             SerialPerformanceTest.writer SerialPerformanceTest.port
             SerialPerformanceTest.deviceId SerialPerformanceTest.deviceCapacity
             SerialPerformanceTest.deviceUnits SerialPerformanceTest.env
             SerialPerformanceTest.console dev trace] in *.
        subst. destruct lr, wr, port; release_run.
      * exfalso. exact (Hthrow e eq_refl).
      * cbv iota beta. intros E. injection E as <- <-. split; reflexivity.
    + unfold when at 1. unfold ret at 1. cbn [fst snd]. cbv iota beta.
      destruct p as [baud isC isR port lr wr did dcap dun rds lats rils rps win
                     meth iid els con tim [dv tr tk]].
      cbn [SerialPerformanceTest.isConnected SerialPerformanceTest.lineReader
           SerialPerformanceTest.writer SerialPerformanceTest.port
           SerialPerformanceTest.deviceId SerialPerformanceTest.deviceCapacity
           SerialPerformanceTest.deviceUnits SerialPerformanceTest.env
           SerialPerformanceTest.console dev trace] in *.
      destruct lr, wr, port; release_run.
Qed.

(** A reading channel on a device that sends nothing: [disconnect()] hangs
    in [stopReading()], having written the stop command and asked for a
    line, and releases nothing.  A channel that holds its port only:
    [disconnect()] closes the port and ends disconnected. *)
Lemma disconnect_stops_at_first_failure_witness :
  let c := Examples.reading_channel Examples.device_silent in
  let d := SerialChannel.set_lineReader false
             (SerialChannel.set_writer false
                (Examples.connected_channel Examples.device_streaming)) in
  let d' := snd (SerialChannel.disconnect d) in
  (fst (SerialChannel.disconnect c) = Pending /\
   snd (SerialChannel.disconnect c) = snd (SerialChannel.stopReading c)) /\
  trace (SerialChannel.env (snd (SerialChannel.disconnect c)))
    = [EvWrite [CR]; EvRead] /\
  (fst (SerialChannel.disconnect d) = Ret tt /\
   trace (SerialChannel.env d') = [EvClose] /\
   SerialChannel.isConnected d' = false /\
   SerialChannel.deviceId d' = None /\
   SerialChannel.deviceCapacity d' = None /\
   SerialChannel.deviceUnits d' = None /\
   SerialChannel.lineReader d' = false /\
   SerialChannel.writer d' = false /\
   SerialChannel.port d' = false).
Proof.
  intros c d d'.
  pose proof (proj1 disconnect_stops_at_first_failure c) as Hc.
  pose proof (proj1 disconnect_stops_at_first_failure d) as Hd.
  vm_compute in Hc, Hd. vm_compute.
  split; [exact Hc|]. split; [reflexivity|exact Hd].
Defined.

(** C3 as stated fails: when cancelling the line reader throws, the lock
    of the writer is not released and the port is not closed; the one
    operation attempted is the cancellation, and the channel stays
    connected with its device fields. *)
Lemma disconnect_independent_guards_counterexample :
  let c := Examples.connected_channel Examples.device_cancel_fails in
  let c' := snd (SerialChannel.disconnect c) in
  trace (SerialChannel.env c') = [EvCancel] /\
  occurrences KReleaseWriter (trace (SerialChannel.env c')) = 0 /\
  occurrences KClose (trace (SerialChannel.env c')) = 0 /\
  SerialChannel.writer c' = true /\
  SerialChannel.port c' = true /\
  SerialChannel.isConnected c' = true /\
  SerialChannel.deviceId c' = Some (lit "SCALE-42") /\
  SerialChannel.console c'
    = [(error_, lit "Disconnect error: Cannot cancel a locked stream")].
Proof. cbv zeta. repeat split. Qed.




(** ** Invariants of the sequential model *)

Section Preserves.

Context {St : Type} (I : St -> Prop).

Lemma preserves_ret (A : Type) (a : A) : preserves I (ret a).
Proof. intros s H. exact H. Qed.

Lemma preserves_throw (A : Type) (e : error) : preserves I (@throw St A e).
Proof. intros s H. exact H. Qed.

Lemma preserves_pending (A : Type) : preserves I (fun s : St => (@Pending A, s)).
Proof. intros s H. exact H. Qed.

Lemma preserves_get : preserves I get.
Proof. intros s H. exact H. Qed.

Lemma preserves_modify (f : St -> St) :
  (forall s, I s -> I (f s)) -> preserves I (modify f).
Proof. intros Hf s H. apply Hf. exact H. Qed.

Lemma preserves_bind (A B : Type) (m : M St A) (k : A -> M St B) :
  preserves I m -> (forall a, preserves I (k a)) -> preserves I (bind m k).
Proof.
  intros Hm Hk s H. unfold bind.
  pose proof (Hm s H) as H'.
  destruct (m s) as [[a|e|] s']; simpl in *; [|exact H'|exact H'].
  apply Hk. exact H'.
Qed.

Lemma preserves_try_catch (A : Type) (m : M St A) (h : error -> M St A) :
  preserves I m -> (forall e, preserves I (h e)) -> preserves I (try_catch m h).
Proof.
  intros Hm Hh s H. unfold try_catch.
  pose proof (Hm s H) as H'.
  destruct (m s) as [[a|e|] s']; simpl in *; [exact H'| |exact H'].
  apply Hh. exact H'.
Qed.

Lemma preserves_when (b : bool) (m : M St unit) :
  preserves I m -> preserves I (when b m).
Proof. intros Hm. destruct b; [exact Hm|apply preserves_ret]. Qed.

Context `{HasWorld St}.
Hypothesis I_world : forall w s, I s -> I (with_world w s).

Lemma preserves_perform (ev : io_event) : preserves I (perform ev).
Proof.
  intros s Hs. unfold perform, record_event.
  destruct (failure _ _ _); simpl; apply I_world; exact Hs.
Qed.

Lemma preserves_read : preserves I read.
Proof.
  intros s Hs. unfold read, record_event.
  destruct (failure _ _ _); [simpl; apply I_world; exact Hs|].
  destruct (line _ _); simpl; apply I_world; exact Hs.
Qed.

Lemma preserves_Date_now : preserves I Date_now.
Proof. intros s Hs. unfold Date_now. simpl. apply I_world. exact Hs. Qed.

End Preserves.

(** Decomposes a computation along its binds, handlers and branches. *)
Ltac preserves_step :=
  match goal with
  | |- preserves _ (bind _ _) => apply preserves_bind
  | |- preserves _ (try_catch _ _) => apply preserves_try_catch
  | |- preserves _ (when _ _) => apply preserves_when
  | |- preserves _ (ret _) => apply preserves_ret
  | |- preserves _ (throw _) => apply preserves_throw
  | |- preserves _ get => apply preserves_get
  | |- preserves _ (perform _) => apply preserves_perform; intros ? ? Hinv; exact Hinv
  | |- preserves _ read => apply preserves_read; intros ? ? Hinv; exact Hinv
  | |- preserves _ Date_now => apply preserves_Date_now; intros ? ? Hinv; exact Hinv
  | |- preserves _ (modify _) => apply preserves_modify; intros ? Hinv; exact Hinv
  | |- preserves _ (if ?b then _ else _) => destruct b
  | |- preserves _ (match ?x with _ => _ end) => destruct x
  | |- forall _, _ => intro
  end.

Section ZeroLatency.

Import Metrics.

Lemma sum_zero l : Forall (fun x => x = Fin 0) l -> sum l = Fin 0.
Proof.
  unfold sum.
  assert (H : forall acc, acc = Fin 0 -> Forall (fun x => x = Fin 0) l ->
                          fold_left add l acc = Fin 0).
  { induction l as [|x t IH]; intros acc Hacc HF; [exact Hacc|].
    inversion HF as [|? ? Hx HF']; subst. simpl. apply IH; [reflexivity|exact HF']. }
  apply H. reflexivity.
Qed.

Lemma Math_min_zero l :
  l <> [] -> Forall (fun x => x = Fin 0) l -> Math_min l = Fin 0.
Proof.
  unfold Math_min. intros Hne HF.
  destruct l as [|x t]; [contradiction|].
  inversion HF as [|? ? Hx HF']; subst. simpl.
  change (min2 PosInf (Fin 0)) with (Fin 0).
  clear Hne HF. induction t as [|y t IH]; [reflexivity|].
  inversion HF' as [|? ? Hy HF'']; subst. simpl. apply IH. exact HF''.
Qed.

Lemma Math_max_zero l :
  l <> [] -> Forall (fun x => x = Fin 0) l -> Math_max l = Fin 0.
Proof.
  unfold Math_max. intros Hne HF.
  destruct l as [|x t]; [contradiction|].
  inversion HF as [|? ? Hx HF']; subst. simpl.
  change (max2 NegInf (Fin 0)) with (Fin 0).
  clear Hne HF. induction t as [|y t IH]; [reflexivity|].
  inversion HF' as [|? ? Hy HF'']; subst. simpl. apply IH. exact HF''.
Qed.

Lemma div_length_zero n : n <> 0 -> same (div_length (Fin 0) n) (Fin 0).
Proof.
  destruct n as [|n']; [contradiction|]. intros _.
  unfold div_length, same. apply Qmult_0_l.
Qed.

Lemma Forall_shift (A : Type) (P : A -> Prop) (l : list A) :
  Forall P l -> Forall P (shift l).
Proof. destruct 1; [constructor|assumption]. Qed.

Lemma Forall_snoc (A : Type) (P : A -> Prop) (l : list A) (x : A) :
  Forall P l -> P x -> Forall P (l ++ [x]).
Proof. intros Hl Hx. apply Forall_app. split; [exact Hl|]. repeat constructor. exact Hx. Qed.

Lemma zero_latencies_clear m : zero_latencies (clear m).
Proof. repeat split; constructor. Qed.

Lemma zero_latencies_updateMetrics m :
  zero_latencies m -> zero_latencies (updateMetrics m).
Proof.
  unfold updateMetrics. destruct (length (readings m) =? 0); auto.
Qed.

Lemma zero_latencies_processReading w ts now m :
  zero_latencies m -> zero_latencies (processReading w (Fin 0) ts now m).
Proof.
  intros [Hl [Hr Hlen]]. unfold zero_latencies, processReading. simpl.
  rewrite !length_app, Hlen. simpl.
  destruct (1000 <? length (latencies m) + 1) eqn:E.
  - repeat split.
    + apply Forall_shift, Forall_snoc; auto.
    + apply Forall_shift, Forall_snoc; auto.
    + unfold shift. destruct (readings m), (latencies m); simpl in *;
        rewrite ?length_app; simpl; lia.
  - repeat split.
    + apply Forall_snoc; auto.
    + apply Forall_snoc; auto.
    + rewrite !length_app. simpl. lia.
Qed.

(** After a reading of latency 0 and [updateMetrics], the metrics are 0. *)
Lemma zero_latency_metrics_after_reading w ts now m :
  zero_latencies m ->
  zero_latency_metrics (updateMetrics (processReading w (Fin 0) ts now m)).
Proof.
  intros Hz.
  pose proof (zero_latencies_processReading w ts now Hz) as [Hl [Hr Hlen]].
  set (m' := processReading w (Fin 0) ts now m) in *.
  assert (Hne : length (readings m') <> 0).
  { unfold m', processReading. simpl. rewrite length_app. simpl.
    destruct (1000 <? length (readings m) + 1) eqn:E.
    - apply Nat.ltb_lt in E. unfold shift.
      destruct (readings m); simpl in *; [lia|].
      rewrite length_app. simpl. lia.
    - rewrite length_app. simpl. lia. }
  unfold updateMetrics. destruct (Nat.eqb_spec (length (readings m')) 0) as [E|_];
    [contradiction|].
  unfold zero_latency_metrics. cbn [avgLatency minLatency maxLatency].
  assert (Hlne : latencies m' <> []).
  { intros E. rewrite E in Hlen. simpl in Hlen. contradiction. }
  rewrite (sum_zero Hl), (Math_min_zero Hlne Hl), (Math_max_zero Hlne Hl).
  split; [|split; reflexivity].
  apply div_length_zero. rewrite <- Hlen. exact Hne.
Qed.

End ZeroLatency.

(** ** The continuous path of a channel records latency 0 *)

Section ChannelLatency.

Import Metrics.

Variable parseFloat : jsstring -> number.

(** What a line does to the metrics: nothing, or one reading of latency 0
    followed by [updateMetrics]. *)
Lemma process_line_metrics (value : jsstring) (c : SerialChannel.t) :
  SerialChannel.metrics (snd (SerialChannel.process_line parseFloat value c))
    = SerialChannel.metrics c \/
  exists w ts now,
    SerialChannel.metrics (snd (SerialChannel.process_line parseFloat value c))
    = updateMetrics (processReading w (Fin 0) ts now (SerialChannel.metrics c)).
Proof.
  unfold SerialChannel.process_line.
  destruct (truthy value && truthy (trim value)); [|left; reflexivity].
  destruct (negb (isNaN (parseFloat (trim value)))); [|left; reflexivity].
  right.
  unfold SerialChannel.filterWithMedian, SerialChannel.processReading,
    SerialChannel.updateMetrics, bind, get, modify, ret, Date_now.
  destruct (WeightFilter.filterWithMedian _ _) as [median window].
  simpl. eauto.
Qed.

Section Invariant.

(** A property of the metrics that clearing, [updateMetrics] and a reading
    of latency 0 keep. *)
Variable P : Metrics.t -> Prop.
Hypothesis P_clear : forall m, P m -> P (clear m).
Hypothesis P_update : forall m, P m -> P (updateMetrics m).
Hypothesis P_reading :
  forall m w ts now, P m -> P (updateMetrics (processReading w (Fin 0) ts now m)).

Let I (c : SerialChannel.t) : Prop := P (SerialChannel.metrics c).

Lemma preserves_process_line value :
  preserves I (SerialChannel.process_line parseFloat value).
Proof.
  intros c Hc. unfold I in *.
  destruct (process_line_metrics value c) as [E | [w [ts [now E]]]]; rewrite E.
  - exact Hc.
  - apply P_reading. exact Hc.
Qed.

Lemma preserves_log message type : preserves I (SerialChannel.log message type).
Proof. unfold SerialChannel.log. repeat preserves_step. Qed.

Lemma preserves_readResponse : preserves I SerialChannel.readResponse.
Proof.
  unfold SerialChannel.readResponse.
  repeat first [apply preserves_log | preserves_step].
Qed.

Lemma preserves_sendCommand command :
  preserves I (SerialChannel.sendCommand command).
Proof.
  unfold SerialChannel.sendCommand.
  repeat first [apply preserves_log | apply preserves_readResponse | preserves_step].
Qed.

Ltac channel_step :=
  first [ apply preserves_log
        | apply preserves_sendCommand
        | apply preserves_process_line
        | preserves_step ].

Lemma preserves_getDeviceInfo : preserves I SerialChannel.getDeviceInfo.
Proof.
  unfold SerialChannel.getDeviceInfo, SerialChannel.updateUI.
  repeat channel_step.
Qed.

Lemma preserves_stopReading : preserves I SerialChannel.stopReading.
Proof.
  unfold SerialChannel.stopReading, SerialChannel.updateUI,
    SerialChannel.onChannelStateChange.
  repeat channel_step.
Qed.

Lemma preserves_connect : preserves I SerialChannel.connect.
Proof.
  unfold SerialChannel.connect, SerialChannel.updateUI,
    SerialChannel.onChannelStateChange.
  repeat first [apply preserves_getDeviceInfo | channel_step].
Qed.

Lemma preserves_disconnect : preserves I SerialChannel.disconnect.
Proof.
  unfold SerialChannel.disconnect, SerialChannel.updateUI,
    SerialChannel.onChannelStateChange.
  repeat first [apply preserves_stopReading | channel_step].
Qed.

Lemma preserves_read_loop fuel :
  preserves I (SerialChannel.read_loop parseFloat fuel).
Proof.
  induction fuel as [|fuel IH]; simpl.
  - apply preserves_pending.
  - repeat first [exact IH | channel_step].
Qed.

Lemma preserves_startReading fuel :
  preserves I (SerialChannel.startReading parseFloat fuel).
Proof.
  unfold SerialChannel.startReading, SerialChannel.readWeightContinuous,
    SerialChannel.updateUI.
  repeat first [apply preserves_read_loop | channel_step].
Qed.

Lemma preserves_clearData : preserves I SerialChannel.clearData.
Proof.
  unfold SerialChannel.clearData, SerialChannel.updateMetrics.
  apply preserves_bind; [|intros _; apply preserves_bind; [|intros _]].
  - apply preserves_modify. intros s Hs. apply P_clear. exact Hs.
  - apply preserves_modify. intros s Hs. exact Hs.
  - apply preserves_modify. intros s Hs. apply P_update. exact Hs.
Qed.

Lemma preserves_perform_action a :
  preserves I (SerialChannel.perform_action parseFloat a).
Proof.
  destruct a; simpl.
  - apply preserves_connect.
  - apply preserves_disconnect.
  - apply preserves_startReading.
  - apply preserves_stopReading.
  - unfold SerialChannel.refreshDeviceInfo.
    repeat first [apply preserves_getDeviceInfo | channel_step].
  - apply preserves_clearData.
Qed.

Lemma preserves_perform_actions actions :
  forall c, I c -> I (SerialChannel.perform_actions parseFloat actions c).
Proof.
  induction actions as [|a rest IH]; intros c Hc; [exact Hc|].
  simpl. apply IH. apply preserves_perform_action. exact Hc.
Qed.

End Invariant.

End ChannelLatency.

(** ** The continuous path of the single-channel page records latency 0 *)

Section PageLatency.

Import SerialPerformanceTest.

Variable parseFloat : jsstring -> number.

Ltac page_simpl :=
  cbv -[Nat.ltb Nat.eqb length app shift sum div_length Math_min Math_max
        filter Z.ltb Z.sub WeightFilter.filterWithMedian clock lit].

(** The fields [processReading] leaves behind. *)
Lemma page_processReading_effect weight lat (c : t) :
  let c' := snd (processReading weight lat c) in
  latencies c'
    = (if 1000 <? length (latencies c ++ [lat])
       then shift (latencies c ++ [lat]) else latencies c ++ [lat]) /\
  (exists w ts,
      readings c'
      = (if 1000 <? length (readings c ++ [mkReading w weight lat ts])
         then shift (readings c ++ [mkReading w weight lat ts])
         else readings c ++ [mkReading w weight lat ts])) /\
  (readings c' <> [] ->
   avgLatency_shown (elements c')
     = Some (div_length (sum (latencies c')) (length (latencies c'))) /\
   minLatency_shown (elements c') = Some (Math_min (latencies c')) /\
   maxLatency_shown (elements c') = Some (Math_max (latencies c'))).
Proof.
  destruct c as [baud isC isR port lr wr did dcap dun rds lats rils rps win
                 meth iid els con tim [dv tr tk]].
  destruct els as [e1 e2 e3 e4 e5 e6 e7 e8].
  unfold processReading, filterWithMedian.
  page_simpl.
  destruct (WeightFilter.filterWithMedian win weight) as [median window].
  page_simpl.
  refine (conj _ (conj (ex_intro _ median (ex_intro _ (clock dv tk) _)) _)).
  - destruct (1000 <? length (rds ++ _));
      destruct (1000 <? length (lats ++ [lat]));
      match goal with
      | |- context [Nat.eqb ?n 0] => destruct (Nat.eqb n 0)
      end; reflexivity.
  - destruct (1000 <? length (rds ++ _));
      destruct (1000 <? length (lats ++ [lat]));
      match goal with
      | |- context [Nat.eqb ?n 0] => destruct (Nat.eqb n 0)
      end; reflexivity.
  - destruct (1000 <? length (rds ++ _));
      destruct (1000 <? length (lats ++ [lat]));
      match goal with
      | |- context [Nat.eqb ?n 0] => destruct (Nat.eqb_spec n 0) as [E3|E3]
      end; page_simpl; intros Hne;
      try (repeat split; reflexivity);
      exfalso; apply Hne; apply length_zero_iff_nil; exact E3.
Qed.

Lemma page_process_line_effect value (c : t) :
  let c' := snd (process_line parseFloat value c) in
  (readings c' = readings c /\ latencies c' = latencies c /\ elements c' = elements c) \/
  (latencies c'
     = (if 1000 <? length (latencies c ++ [Fin 0])
        then shift (latencies c ++ [Fin 0]) else latencies c ++ [Fin 0]) /\
   (exists w raw ts,
       readings c'
       = (if 1000 <? length (readings c ++ [mkReading w raw (Fin 0) ts])
          then shift (readings c ++ [mkReading w raw (Fin 0) ts])
          else readings c ++ [mkReading w raw (Fin 0) ts])) /\
   (readings c' <> [] ->
    avgLatency_shown (elements c')
      = Some (div_length (sum (latencies c')) (length (latencies c'))) /\
    minLatency_shown (elements c') = Some (Math_min (latencies c')) /\
    maxLatency_shown (elements c') = Some (Math_max (latencies c')))).
Proof.
  unfold process_line.
  destruct (truthy value && truthy (trim value)); [|left; auto].
  destruct (negb (isNaN (parseFloat (trim value)))); [|left; auto].
  right.
  destruct (page_processReading_effect (parseFloat (trim value)) (Fin 0) c)
    as [H1 [[w [ts H2]] H3]].
  split; [exact H1|]. split; [|exact H3]. eauto.
Qed.

(** The invariant: the latencies kept are 0, and so are the metrics shown
    once a reading was recorded. *)
Let I (c : t) : Prop :=
  zero_latencies c /\ (readings c <> [] -> zero_latency_metrics c).

Lemma page_preserves_process_line value :
  preserves I (process_line parseFloat value).
Proof.
  intros c [[Hl [Hr Hlen]] Hm].
  destruct (page_process_line_effect value c) as [[E1 [E2 E3]] | [E1 [[w [raw [ts E2]]] E3]]].
  - unfold I, zero_latencies, zero_latency_metrics. rewrite E1, E2, E3.
    split; [auto|exact Hm].
  - assert (Hz : zero_latencies (snd (process_line parseFloat value c))).
    { unfold zero_latencies. rewrite E1, E2, !length_app, Hlen. simpl.
      destruct (1000 <? length (latencies c) + 1).
      - repeat split.
        + apply Forall_shift, Forall_snoc; auto.
        + apply Forall_shift, Forall_snoc; auto.
        + unfold shift. destruct (readings c), (latencies c); simpl in *;
            rewrite ?length_app; simpl; lia.
      - repeat split.
        + apply Forall_snoc; auto.
        + apply Forall_snoc; auto.
        + rewrite !length_app. simpl. lia. }
    split; [exact Hz|]. intros Hne.
    destruct (E3 Hne) as [Ha [Hmin Hmax]].
    destruct Hz as [Hl' [_ Hlen']].
    assert (Hlne : latencies (snd (process_line parseFloat value c)) <> []).
    { intros E. rewrite E in Hlen'. apply length_zero_iff_nil in Hlen'.
      contradiction. }
    unfold zero_latency_metrics.
    rewrite Ha, Hmin, Hmax, (sum_zero Hl'), (Math_min_zero Hlne Hl'),
      (Math_max_zero Hlne Hl').
    split; [|auto]. eexists. split; [reflexivity|].
    apply div_length_zero. intros E. apply length_zero_iff_nil in E. contradiction.
Qed.

Lemma page_preserves_log message type : preserves I (log message type).
Proof. unfold log. repeat preserves_step. Qed.

Lemma page_preserves_readResponse : preserves I readResponse.
Proof.
  unfold readResponse.
  repeat first [apply page_preserves_log | preserves_step].
Qed.

Lemma page_preserves_sendCommand command : preserves I (sendCommand command).
Proof.
  unfold sendCommand.
  repeat first [apply page_preserves_log | apply page_preserves_readResponse
               | preserves_step].
Qed.

Ltac page_step :=
  first [ apply page_preserves_log
        | apply page_preserves_sendCommand
        | apply page_preserves_process_line
        | preserves_step ].

Lemma page_preserves_getDeviceInfo : preserves I getDeviceInfo.
Proof. unfold getDeviceInfo, on_elements. repeat page_step. Qed.

Lemma page_preserves_stopReading : preserves I stopReading.
Proof. unfold stopReading, updateReadingStatus. repeat page_step. Qed.

Lemma page_preserves_disconnect : preserves I disconnect.
Proof.
  unfold disconnect, updateConnectionStatus, on_elements.
  repeat first [apply page_preserves_stopReading | page_step].
Qed.

Lemma page_preserves_read_loop fuel : preserves I (read_loop parseFloat fuel).
Proof.
  induction fuel as [|fuel IH]; simpl.
  - apply preserves_pending.
  - repeat first [exact IH | page_step].
Qed.

Lemma page_preserves_readWeightOnce fuel :
  preserves I (readWeightOnce parseFloat fuel).
Proof.
  unfold readWeightOnce.
  repeat first [apply page_preserves_read_loop | page_step].
Qed.

Lemma page_clearData_invariant (c : t) : I (snd (clearData c)).
Proof.
  destruct c as [baud isC isR port lr wr did dcap dun rds lats rils rps win
                 meth iid els con tim w].
  unfold I, zero_latencies. cbn.
  split; [repeat split; constructor|]. intros H. contradiction.
Qed.

Lemma page_preserves_perform_action a : preserves I (perform_action parseFloat a).
Proof.
  destruct a; simpl.
  - apply page_preserves_disconnect.
  - apply page_preserves_readWeightOnce.
  - apply page_preserves_stopReading.
  - apply page_preserves_getDeviceInfo.
  - intros c _. apply page_clearData_invariant.
Qed.

Lemma page_preserves_perform_actions actions :
  forall c, I c -> I (perform_actions parseFloat actions c).
Proof.
  induction actions as [|a rest IH]; intros c Hc; [exact Hc|].
  simpl. apply IH. apply page_preserves_perform_action. exact Hc.
Qed.

End PageLatency.

Section ZeroLatencyMetrics.

Import Metrics.

Lemma updateMetrics_readings m : readings (updateMetrics m) = readings m.
Proof. unfold updateMetrics. destruct (length (readings m) =? 0); reflexivity. Qed.

Lemma updateMetrics_latencies m : latencies (updateMetrics m) = latencies m.
Proof. unfold updateMetrics. destruct (length (readings m) =? 0); reflexivity. Qed.

Lemma zero_latency_metrics_updateMetrics m :
  zero_latencies m ->
  (readings m = [] -> zero_latency_metrics m) ->
  zero_latency_metrics (updateMetrics m).
Proof.
  intros [Hl [Hr Hlen]] Hempty. unfold updateMetrics.
  destruct (Nat.eqb_spec (length (readings m)) 0) as [E|Hne].
  - apply Hempty. apply length_zero_iff_nil. exact E.
  - unfold zero_latency_metrics. cbn [avgLatency minLatency maxLatency].
    assert (Hlne : latencies m <> []).
    { intros E. rewrite E in Hlen. simpl in Hlen. contradiction. }
    rewrite (sum_zero Hl), (Math_min_zero Hlne Hl), (Math_max_zero Hlne Hl).
    split; [|split; reflexivity].
    apply div_length_zero. rewrite <- Hlen. exact Hne.
Qed.

Lemma In_shift (A : Type) (x : A) (l : list A) : In x (shift l) -> In x l.
Proof. destruct l; simpl; auto. Qed.

Lemma In_pushed (A : Type) (x y : A) (l : list A) :
  In x (if 1000 <? length (l ++ [y]) then shift (l ++ [y]) else l ++ [y]) ->
  In x l \/ x = y.
Proof.
  intros H.
  assert (H' : In x (l ++ [y])).
  { destruct (1000 <? length (l ++ [y])); [apply In_shift|]; exact H. }
  apply in_app_or in H'. destruct H' as [H'|[H'|[]]]; auto.
Qed.

End ZeroLatencyMetrics.

(** C10.  Every reading the continuous path records has latency 0, in a
    [SerialChannel] and in the single-channel page.  After the data were
    cleared, whatever is then asked of the channel or of the page, all the
    latencies kept are 0 and, once a reading was recorded, the average, the
    minimum and the maximum latency are 0; a [SerialChannel], which records
    readings on the continuous path only, has these three metrics at 0 from
    its construction on. *)
Theorem continuous_readings_have_zero_latency (parseFloat : jsstring -> number) :
  (forall (c : SerialChannel.t) (value : jsstring),
      let m := SerialChannel.metrics c in
      let m' := SerialChannel.metrics
                  (snd (SerialChannel.process_line parseFloat value c)) in
      (forall r, In r (Metrics.readings m') ->
                 In r (Metrics.readings m) \/ Metrics.latency r = Fin 0) /\
      (forall l, In l (Metrics.latencies m') ->
                 In l (Metrics.latencies m) \/ l = Fin 0))
  /\
  (forall (c : SerialChannel.t) (actions : list SerialChannel.action),
      let m := SerialChannel.metrics
                 (SerialChannel.perform_actions parseFloat actions
                    (snd (SerialChannel.clearData c))) in
      Metrics.zero_latencies m /\
      (Metrics.readings m <> [] -> Metrics.zero_latency_metrics m))
  /\
  (forall (baudRate : Z) (d : transport) (actions : list SerialChannel.action),
      let m := SerialChannel.metrics
                 (SerialChannel.perform_actions parseFloat actions
                    (SerialChannel.constructor baudRate d)) in
      Metrics.zero_latencies m /\ Metrics.zero_latency_metrics m)
  /\
  (forall (p : SerialPerformanceTest.t) (value : jsstring),
      let p' := snd (SerialPerformanceTest.process_line parseFloat value p) in
      (forall r, In r (SerialPerformanceTest.readings p') ->
                 In r (SerialPerformanceTest.readings p) \/
                 SerialPerformanceTest.latency r = Fin 0) /\
      (forall l, In l (SerialPerformanceTest.latencies p') ->
                 In l (SerialPerformanceTest.latencies p) \/ l = Fin 0))
  /\
  (forall (p : SerialPerformanceTest.t) (actions : list SerialPerformanceTest.action),
      let p' := SerialPerformanceTest.perform_actions parseFloat actions
                  (snd (SerialPerformanceTest.clearData p)) in
      SerialPerformanceTest.zero_latencies p' /\
      (SerialPerformanceTest.readings p' <> [] ->
       SerialPerformanceTest.zero_latency_metrics p')).
Proof.
  split; [|split; [|split; [|split]]].
  - intros c value m m'. subst m m'.
    destruct (process_line_metrics parseFloat value c) as [E | [w [ts [now E]]]];
      rewrite E; [auto|].
    rewrite updateMetrics_readings, updateMetrics_latencies.
    split.
    + intros r Hr. apply In_pushed in Hr. destruct Hr as [Hr| ->]; auto.
    + intros l Hl. apply In_pushed in Hl. destruct Hl as [Hl| ->]; auto.
  - intros c actions m. subst m.
    apply (@preserves_perform_actions parseFloat
             (fun m => Metrics.zero_latencies m /\
                       (Metrics.readings m <> [] -> Metrics.zero_latency_metrics m))).
    + intros m _. split; [apply zero_latencies_clear|]. intros H. contradiction.
    + intros m [Hz Hm]. split; [apply zero_latencies_updateMetrics; exact Hz|].
      rewrite updateMetrics_readings. intros Hne.
      apply zero_latency_metrics_updateMetrics; [exact Hz|]. intros E. contradiction.
    + intros m w ts now [Hz _].
      split; [|intros _; apply zero_latency_metrics_after_reading; exact Hz].
      apply zero_latencies_updateMetrics, zero_latencies_processReading. exact Hz.
    + destruct c. cbn. split; [repeat split; constructor|]. intros H. contradiction.
  - intros baudRate d actions m. subst m.
    apply (@preserves_perform_actions parseFloat
             (fun m => Metrics.zero_latencies m /\ Metrics.zero_latency_metrics m)).
    + intros m [_ Hm]. split; [apply zero_latencies_clear|exact Hm].
    + intros m [Hz Hm]. split; [apply zero_latencies_updateMetrics; exact Hz|].
      apply zero_latency_metrics_updateMetrics; [exact Hz|]. intros _. exact Hm.
    + intros m w ts now [Hz _].
      split; [|apply zero_latency_metrics_after_reading; exact Hz].
      apply zero_latencies_updateMetrics, zero_latencies_processReading. exact Hz.
    + cbn. split; [repeat split; constructor|]. repeat split.
  - intros p value p'. subst p'.
    destruct (page_process_line_effect parseFloat value p)
      as [[E1 [E2 _]] | [E1 [[w [raw [ts E2]]] _]]]; rewrite E1, E2; [auto|].
    split.
    + intros r Hr. apply In_pushed in Hr. destruct Hr as [Hr| ->]; auto.
    + intros l Hl. apply In_pushed in Hl. destruct Hl as [Hl| ->]; auto.
  - intros p actions p'. subst p'.
    apply page_preserves_perform_actions. apply page_clearData_invariant.
Qed.

(** ** Examples *)

Example split_lines_example :
  split_lines (lit "a" ++ [CR; LF] ++ lit "b" ++ [LF] ++ [LF] ++ lit "c" ++ [CR])
  = [lit "a"; lit "b"; []; lit "c" ++ [CR]].
Proof. reflexivity. Qed.

Example trim_example : trim ([32; 9] ++ lit "a b" ++ [13; 10; 160])%N = lit "a b".
Proof. reflexivity. Qed.

Example feed_example :
  LineFramer.feed LineFramer.createLineTransformStream
    [lit "1.0" ++ [CR]; [LF] ++ lit "2."; lit "5" ++ [CR; LF] ++ lit " " ++ [LF] ++ lit "3"]
  = (LineFramer.mk (lit "3"), [lit "1.0"; lit "2.5"]).
Proof. reflexivity. Qed.

Example window_eviction_example :
  snd (WeightFilter.push_all [] [Fin 1; Fin 2; Fin 3; Fin 4; Fin 5; Fin 6])
  = [Fin 2; Fin 3; Fin 4; Fin 5; Fin 6].
Proof. reflexivity. Qed.

Example disconnect_example :
  let c := snd (SerialChannel.disconnect
                  (Examples.connected_channel Examples.device_streaming)) in
  trace (SerialChannel.env c) = release_steps /\
  SerialChannel.isConnected c = false /\
  SerialChannel.deviceId c = None.
Proof. cbv zeta. repeat split. Qed.

Example framed_reading_example :
  let d := Examples.device_sending
             [lit "OK" ++ [CR]; [LF] ++ lit "12"; lit ".5" ++ [CR; LF] ++ lit "x" ++ [LF];
              lit "12.5" ++ [LF] ++ lit "12"] in
  let r := SerialChannel.startReading Examples.parse_weight 5
             (Examples.connected_channel d) in
  fst r = Pending /\
  map Metrics.weight (Metrics.readings (SerialChannel.metrics (snd r)))
    = [Some (Fin (25 # 2)); Some (Fin (25 # 2))] /\
  Metrics.readingsPerSecond (SerialChannel.metrics (snd r)) = 2 /\
  occurrences KRead (trace (SerialChannel.env (snd r))) = 5.
Proof. cbv zeta. repeat split. Qed.

Example streaming_example :
  let c := snd (SerialChannel.startReading Examples.parse_weight 3
                  (Examples.connected_channel Examples.device_streaming)) in
  map Metrics.latency (Metrics.readings (SerialChannel.metrics c))
    = [Fin 0; Fin 0; Fin 0] /\
  Metrics.totalReadings (SerialChannel.metrics c) = 3 /\
  Metrics.minLatency (SerialChannel.metrics c) = Fin 0 /\
  occurrences KRead (trace (SerialChannel.env c)) = 4.
Proof. cbv zeta. repeat split. Qed.

(* ================================================================== *)
(** * Further properties of the code *)

(** ** Bounded windows *)

Section Bounded.

Variable A : Type.

(** Pushing at the end of an array that is not over its cap and shifting
    when the cap is passed keeps the last [cap] elements. *)
Lemma push_shift_skipn (cap : nat) (l : list A) (x : A) :
  length l <= cap ->
  push_capped cap l x = skipn (length (l ++ [x]) - cap) (l ++ [x]).
Proof.
  intros Hl. unfold push_capped. rewrite length_app. simpl length.
  destruct (Nat.ltb_spec cap (length l + 1)) as [H|H].
  - replace (length l + 1 - cap) with 1 by lia. reflexivity.
  - replace (length l + 1 - cap) with 0 by lia. reflexivity.
Qed.

Lemma skipn_skipn_app (a k : nat) (l vs : list A) :
  k <= length l ->
  skipn a (skipn k l ++ vs) = skipn (a + k) (l ++ vs).
Proof.
  intros Hk. rewrite <- skipn_skipn. f_equal.
  rewrite skipn_app. replace (k - length l) with 0 by lia. reflexivity.
Qed.

Lemma length_skipn_cap (cap : nat) (l : list A) :
  length (skipn (length l - cap) l) <= cap.
Proof. rewrite length_skipn. lia. Qed.

(** Pushing the elements of [vs] one by one. *)
Lemma fold_push_shift (cap : nat) (vs l : list A) :
  length l <= cap ->
  fold_left (push_capped cap) vs l
  = skipn (length (l ++ vs) - cap) (l ++ vs).
Proof.
  revert l. induction vs as [|v vs IH]; intros l Hl.
  - simpl. rewrite app_nil_r. replace (length l - cap) with 0 by lia. reflexivity.
  - simpl fold_left. rewrite push_shift_skipn by exact Hl.
    rewrite IH by apply length_skipn_cap.
    rewrite skipn_skipn_app by lia.
    replace (l ++ v :: vs) with ((l ++ [v]) ++ vs) by (rewrite <- app_assoc; reflexivity).
    f_equal. rewrite !length_app, length_skipn, !length_app. simpl. lia.
Qed.

End Bounded.

(** X1.  A window of at most five samples stays so: after any pushes it
    holds the last five of the samples it had and was given, in order; the
    sixth push evicts the first sample pushed. *)
Theorem weight_window_keeps_last_five (weightWindow values : list number) :
  length weightWindow <= 5 ->
  snd (WeightFilter.push_all weightWindow values)
    = skipn (length (weightWindow ++ values) - 5) (weightWindow ++ values)
  /\ length (snd (WeightFilter.push_all weightWindow values)) <= 5.
Proof.
  intros Hl.
  assert (E : snd (WeightFilter.push_all weightWindow values)
              = fold_left (push_capped 5) values weightWindow).
  { clear Hl. revert weightWindow.
    induction values as [|v vs IH]; intros w; [reflexivity|].
    cbn [WeightFilter.push_all fold_left].
    destruct (WeightFilter.filterWithMedian w v) as [out w1] eqn:E1.
    specialize (IH w1).
    destruct (WeightFilter.push_all w1 vs) as [outs w2].
    simpl snd in *. rewrite IH.
    unfold WeightFilter.filterWithMedian, WeightFilter.windowSize in E1.
    injection E1 as _ <-. reflexivity. }
  rewrite E, fold_push_shift by exact Hl.
  split; [reflexivity|apply length_skipn_cap].
Qed.

Lemma weight_window_keeps_last_five_witness :
  snd (WeightFilter.push_all [] [Fin 1; Fin 2; Fin 3; Fin 4; Fin 5; Fin 6])
  = [Fin 2; Fin 3; Fin 4; Fin 5; Fin 6].
Proof.
  exact (proj1 (@weight_window_keeps_last_five
                  [] [Fin 1; Fin 2; Fin 3; Fin 4; Fin 5; Fin 6] (Nat.le_0_l 5))).
Defined.

(** ** The median splits the window *)

Section MedianSplit.

Lemma le_trans_number x y z : le x y -> le y z -> le x z.
Proof.
  destruct x as [| |p|], y as [| |q|], z as [| |r|]; simpl; try tauto.
  apply Qle_trans.
Qed.

Lemma sorted_strongly l : Sorted le l -> StronglySorted le l.
Proof.
  apply Sorted_StronglySorted. intros x y z. apply le_trans_number.
Qed.

(** In a sorted list, what comes before an index is below the element at
    the index and what comes after is above it. *)
Lemma strongly_sorted_split l :
  StronglySorted le l ->
  forall k m, nth_error l k = Some m ->
    l = firstn k l ++ m :: skipn (S k) l /\
    Forall (fun x => le x m) (firstn k l) /\
    Forall (fun x => le m x) (skipn (S k) l).
Proof.
  induction 1 as [|a l HS IH HF]; intros k m Hk.
  - destruct k; discriminate.
  - destruct k as [|k]; simpl in Hk.
    + injection Hk as ->. simpl. repeat split; [constructor|exact HF].
    + destruct (IH k m Hk) as [E [H1 H2]].
      simpl. split; [f_equal; exact E|]. split; [|exact H2].
      constructor; [|exact H1].
      rewrite Forall_forall in HF. apply HF. apply (nth_error_In _ _ Hk).
Qed.

End MedianSplit.

(** X2.  The value the filter returns is one of the samples of the window,
    and it splits the window: the other samples can be arranged as
    [floor(n/2)] samples that are not above it and [n - 1 - floor(n/2)]
    samples that are not below it.  With five samples in the window, two
    outliers on one side never reach the output. *)
Theorem filterWithMedian_splits_window (weightWindow : list number) (newWeight : number) :
  Forall is_number weightWindow ->
  is_number newWeight ->
  let window := snd (WeightFilter.filterWithMedian weightWindow newWeight) in
  exists m below above,
    fst (WeightFilter.filterWithMedian weightWindow newWeight) = Some m /\
    In m window /\
    Permutation window (below ++ m :: above) /\
    length below = length window / 2 /\
    Forall (fun x => le x m) below /\
    Forall (fun x => le m x) above.
Proof.
  intros HF Hx window.
  pose proof (filter_window_length weightWindow newWeight) as Hlen.
  pose proof (filter_window_is_number HF Hx) as Hnum.
  fold window in Hlen, Hnum.
  assert (Hres : fst (WeightFilter.filterWithMedian weightWindow newWeight)
                 = nth_error (sort window) (length window / 2)).
  { unfold window, WeightFilter.filterWithMedian. simpl fst. simpl snd.
    rewrite sort_length. reflexivity. }
  destruct (nth_error (sort window) (length window / 2)) as [m|] eqn:E.
  - destruct (strongly_sorted_split (sorted_strongly (sort_sorted Hnum)) _ E)
      as [Es [Hb Ha]].
    exists m, (firstn (length window / 2) (sort window)),
      (skipn (S (length window / 2)) (sort window)).
    split; [exact Hres|]. split.
    { apply (Permutation_in m (sort_perm window)). apply (nth_error_In _ _ E). }
    split.
    { rewrite <- Es. symmetry. apply sort_perm. }
    split; [|split; assumption].
    rewrite length_firstn, sort_length.
    assert (length window / 2 < length window) by (apply Nat.div_lt; lia). lia.
  - exfalso. apply nth_error_None in E. rewrite sort_length in E.
    assert (length window / 2 < length window) by (apply Nat.div_lt; lia). lia.
Qed.

Lemma filterWithMedian_splits_window_witness :
  exists m below above,
    fst (WeightFilter.filterWithMedian [Fin 5; Fin 5; Fin 900; Fin 5] (Fin 1000)) = Some m /\
    In m [Fin 5; Fin 5; Fin 900; Fin 5; Fin 1000] /\
    Permutation [Fin 5; Fin 5; Fin 900; Fin 5; Fin 1000] (below ++ m :: above) /\
    length below = 2 /\
    Forall (fun x => le x m) below /\
    Forall (fun x => le m x) above.
Proof.
  assert (HF : Forall is_number [Fin 5; Fin 5; Fin 900; Fin 5])
    by (repeat constructor; discriminate).
  assert (Hx : is_number (Fin 1000)) by discriminate.
  exact (@filterWithMedian_splits_window
           [Fin 5; Fin 5; Fin 900; Fin 5] (Fin 1000) HF Hx).
Defined.

(** ** The rings of readings and latencies *)

Section Rings.

Import Metrics.

Lemma push_capped_length (A : Type) (cap : nat) (l : list A) (x : A) :
  1 <= cap -> length (push_capped cap l x) <> 0.
Proof.
  intros Hcap. unfold push_capped.
  destruct (Nat.ltb_spec cap (length (l ++ [x]))) as [H|H].
  - unfold shift. destruct (l ++ [x]); simpl in *; lia.
  - rewrite length_app. simpl. lia.
Qed.

Lemma processReading_readings w l ts now m :
  readings (processReading w l ts now m)
  = push_capped 1000 (readings m) (mkReading w l ts).
Proof. reflexivity. Qed.

Lemma processReading_latencies w l ts now m :
  latencies (processReading w l ts now m) = push_capped 1000 (latencies m) l.
Proof. reflexivity. Qed.

Lemma record_all_rings samples :
  forall m,
    readings (record_all samples m)
      = fold_left (push_capped 1000) (map reading_of samples) (readings m) /\
    latencies (record_all samples m)
      = fold_left (push_capped 1000) (map s_latency samples) (latencies m).
Proof.
  induction samples as [|s rest IH]; intros m; [split; reflexivity|].
  change (record_all (s :: rest) m)
    with (record_all rest
            (processReading (s_weight s) (s_latency s) (s_timestamp s) (s_now s) m)).
  destruct (IH (processReading (s_weight s) (s_latency s) (s_timestamp s) (s_now s) m))
    as [H1 H2].
  rewrite H1, H2, processReading_readings, processReading_latencies.
  split; reflexivity.
Qed.

Lemma record_and_update_total m s :
  totalReadings (record_and_update m s)
  = length (readings (record_and_update m s)).
Proof.
  unfold record_and_update.
  set (m' := processReading (s_weight s) (s_latency s) (s_timestamp s) (s_now s) m).
  assert (Hne : length (readings m') <> 0).
  { unfold m'. rewrite processReading_readings. apply push_capped_length. lia. }
  clearbody m'. unfold updateMetrics.
  destruct (Nat.eqb_spec (length (readings m')) 0) as [E|E];
    [contradiction|reflexivity].
Qed.

Lemma record_and_update_readings m s :
  readings (record_and_update m s) = push_capped 1000 (readings m) (reading_of s).
Proof.
  unfold record_and_update. rewrite updateMetrics_readings.
  apply processReading_readings.
Qed.

Lemma fold_left_cons (A B : Type) (f : A -> B -> A) (x : B) (l : list B) (a : A) :
  fold_left f (x :: l) a = fold_left f l (f a x).
Proof. reflexivity. Qed.

Lemma record_and_update_rings samples :
  forall m,
    readings (fold_left record_and_update samples m)
      = fold_left (push_capped 1000) (map reading_of samples) (readings m) /\
    (samples <> [] ->
     totalReadings (fold_left record_and_update samples m)
     = length (readings (fold_left record_and_update samples m))).
Proof.
  induction samples as [|s rest IH]; intros m; [split; [reflexivity|tauto]|].
  rewrite fold_left_cons.
  destruct (IH (record_and_update m s)) as [H1 H2].
  split.
  - rewrite H1, record_and_update_readings. reflexivity.
  - intros _. destruct rest as [|s2 rest'].
    + exact (record_and_update_total m s).
    + apply H2. discriminate.
Qed.

End Rings.

(** X3.  The readings and the latencies are kept in rings of 1000: after
    any readings since a clear, the two arrays hold the last 1000 of them,
    in order, and nothing else. *)
Theorem metrics_rings_keep_last_1000 (m0 : Metrics.t) (samples : list Metrics.sample) :
  let m := Metrics.record_all samples (Metrics.clear m0) in
  Metrics.readings m = skipn (length samples - 1000) (map reading_of samples) /\
  Metrics.latencies m = skipn (length samples - 1000) (map Metrics.s_latency samples) /\
  length (Metrics.readings m) = Nat.min (length samples) 1000 /\
  length (Metrics.latencies m) = Nat.min (length samples) 1000.
Proof.
  intros m. destruct (record_all_rings samples (Metrics.clear m0)) as [H1 H2].
  fold m in H1, H2.
  cbn [Metrics.clear Metrics.readings Metrics.latencies] in H1, H2.
  rewrite fold_push_shift in H1, H2 by (simpl; lia).
  simpl app in H1, H2. rewrite length_map in H1, H2.
  rewrite H1, H2. repeat split.
  - rewrite length_skipn, length_map. lia.
  - rewrite length_skipn, length_map. lia.
Qed.

(** X4.  [totalReadings] is the number of readings kept, not the number
    of readings ever recorded: with [updateMetrics] after each reading, it
    is the count of the readings since the last clear up to 1000 and stays
    at 1000 from then on; right after a clear it still holds the value
    from before the clear. *)
Theorem totalReadings_saturates_at_1000 (m0 : Metrics.t) (samples : list Metrics.sample) :
  let m := fold_left record_and_update samples
             (Metrics.updateMetrics (Metrics.clear m0)) in
  (samples <> [] -> Metrics.totalReadings m = Nat.min (length samples) 1000) /\
  (samples = [] -> Metrics.totalReadings m = Metrics.totalReadings m0).
Proof.
  intros m. split.
  - intros Hne.
    destruct (record_and_update_rings samples (Metrics.updateMetrics (Metrics.clear m0)))
      as [H1 H2].
    fold m in H1, H2. rewrite (H2 Hne), H1.
    rewrite fold_push_shift by (simpl; lia).
    simpl app. rewrite length_skipn, !length_map. lia.
  - intros ->. reflexivity.
Qed.

(** ** The latency statistics *)

Section Statistics.

Import Metrics.

Let finite (x : number) : Prop := exists q, x = Fin q.

Lemma le_refl_finite x : finite x -> le x x.
Proof. intros [q ->]. apply Qle_refl. Qed.

Lemma min2_le acc x :
  (acc = PosInf \/ finite acc) -> finite x ->
  (min2 acc x = acc \/ min2 acc x = x) /\ finite (min2 acc x) /\
  le (min2 acc x) acc /\ le (min2 acc x) x.
Proof.
  intros [->|[a ->]] [q ->].
  - cbn. repeat split; try (right; reflexivity); try (exists q; reflexivity).
    apply Qle_refl.
  - unfold min2. cbn [isNaN orb ltb].
    destruct (Qle_bool a q) eqn:E; cbn [negb].
    + apply Qle_bool_iff in E.
      repeat split; try (left; reflexivity); try (exists a; reflexivity);
        [apply Qle_refl|exact E].
    + assert (H : (q < a)%Q).
      { apply Qnot_le_lt. intros H. apply Qle_bool_iff in H. congruence. }
      repeat split; try (right; reflexivity); try (exists q; reflexivity);
        [apply Qlt_le_weak; exact H|apply Qle_refl].
Qed.

Lemma max2_le acc x :
  (acc = NegInf \/ finite acc) -> finite x ->
  (max2 acc x = acc \/ max2 acc x = x) /\ finite (max2 acc x) /\
  le acc (max2 acc x) /\ le x (max2 acc x).
Proof.
  intros [->|[a ->]] [q ->].
  - cbn. repeat split; try (right; reflexivity); try (exists q; reflexivity).
    apply Qle_refl.
  - unfold max2. cbn [isNaN orb ltb].
    destruct (Qle_bool q a) eqn:E; cbn [negb].
    + apply Qle_bool_iff in E.
      repeat split; try (left; reflexivity); try (exists a; reflexivity);
        [apply Qle_refl|exact E].
    + assert (H : (a < q)%Q).
      { apply Qnot_le_lt. intros H. apply Qle_bool_iff in H. congruence. }
      repeat split; try (right; reflexivity); try (exists q; reflexivity);
        [apply Qlt_le_weak; exact H|apply Qle_refl].
Qed.

Lemma fold_min2 l :
  forall acc, (acc = PosInf \/ finite acc) -> Forall finite l ->
    let r := fold_left min2 l acc in
    (r = acc \/ In r l) /\ (l <> [] -> finite r) /\ le r acc /\
    Forall (fun x => le r x) l.
Proof.
  induction l as [|x t IH]; intros acc Hacc HF; cbv zeta.
  - simpl. split; [left; reflexivity|]. split; [congruence|]. split; [|constructor].
    destruct Hacc as [->|H]; [exact Logic.I|apply le_refl_finite; exact H].
  - inversion HF as [|? ? Hx HF']; subst. cbn [fold_left].
    destruct (min2_le Hacc Hx) as [Hm [Hfin [H1 H2]]].
    destruct (IH (min2 acc x) (or_intror Hfin) HF') as [I1 [I2 [I3 I4]]].
    split; [|split; [|split]].
    + destruct I1 as [E|Hin]; [|right; right; exact Hin].
      rewrite E. destruct Hm as [->| ->]; [left; reflexivity|right; left; reflexivity].
    + intros _. destruct t as [|y t']; [exact Hfin|apply I2; discriminate].
    + eapply le_trans_number; [exact I3|exact H1].
    + constructor; [eapply le_trans_number; [exact I3|exact H2]|exact I4].
Qed.

Lemma fold_max2 l :
  forall acc, (acc = NegInf \/ finite acc) -> Forall finite l ->
    let r := fold_left max2 l acc in
    (r = acc \/ In r l) /\ (l <> [] -> finite r) /\ le acc r /\
    Forall (fun x => le x r) l.
Proof.
  induction l as [|x t IH]; intros acc Hacc HF; cbv zeta.
  - simpl. split; [left; reflexivity|]. split; [congruence|]. split; [|constructor].
    destruct Hacc as [->|H]; [exact Logic.I|apply le_refl_finite; exact H].
  - inversion HF as [|? ? Hx HF']; subst. cbn [fold_left].
    destruct (max2_le Hacc Hx) as [Hm [Hfin [H1 H2]]].
    destruct (IH (max2 acc x) (or_intror Hfin) HF') as [I1 [I2 [I3 I4]]].
    split; [|split; [|split]].
    + destruct I1 as [E|Hin]; [|right; right; exact Hin].
      rewrite E. destruct Hm as [->| ->]; [left; reflexivity|right; left; reflexivity].
    + intros _. destruct t as [|y t']; [exact Hfin|apply I2; discriminate].
    + eapply le_trans_number; [exact H1|exact I3].
    + constructor; [eapply le_trans_number; [exact H2|exact I3]|exact I4].
Qed.

End Statistics.

(** X5.  The latency figures [updateMetrics()] computes, when there is a
    reading and the latencies kept are finite numbers: the minimum and the
    maximum are latencies kept, no latency is below the one or above the
    other, and the total is the number of readings kept.  (Of the average
    nothing is stated: the source rounds its sum and its quotient.) *)
Theorem updateMetrics_latency_statistics (m : Metrics.t) :
  Metrics.readings m <> [] ->
  Metrics.latencies m <> [] ->
  Forall (fun l => exists q, l = Fin q) (Metrics.latencies m) ->
  let m' := Metrics.updateMetrics m in
  In (Metrics.minLatency m') (Metrics.latencies m) /\
  Forall (fun l => le (Metrics.minLatency m') l) (Metrics.latencies m) /\
  In (Metrics.maxLatency m') (Metrics.latencies m) /\
  Forall (fun l => le l (Metrics.maxLatency m')) (Metrics.latencies m) /\
  Metrics.totalReadings m' = length (Metrics.readings m).
Proof.
  intros Hr Hl HF. cbv zeta. unfold Metrics.updateMetrics.
  destruct (Nat.eqb_spec (length (Metrics.readings m)) 0) as [E|_].
  { destruct (Metrics.readings m); [contradiction|discriminate]. }
  cbn [Metrics.minLatency Metrics.maxLatency Metrics.avgLatency Metrics.totalReadings].
  set (l := Metrics.latencies m) in *. clearbody l. clear Hr.
  destruct (@fold_min2 l PosInf (or_introl eq_refl) HF) as [A1 [A2 [_ A4]]].
  destruct (@fold_max2 l NegInf (or_introl eq_refl) HF) as [B1 [B2 [_ B4]]].
  fold (Math_min l) in A1, A2, A4. fold (Math_max l) in B1, B2, B4.
  destruct (A2 Hl) as [a Ea]. destruct (B2 Hl) as [b Eb].
  assert (Hin_min : In (Math_min l) l).
  { destruct A1 as [E|H]; [rewrite Ea in E; discriminate|exact H]. }
  assert (Hin_max : In (Math_max l) l).
  { destruct B1 as [E|H]; [rewrite Eb in E; discriminate|exact H]. }
  split; [exact Hin_min|]. split; [exact A4|].
  split; [exact Hin_max|]. split; [exact B4|].
  reflexivity.
Qed.

Lemma updateMetrics_latency_statistics_witness :
  let m := Metrics.mk [Metrics.mkReading (Some (Fin 1)) (Fin 3) 0;
                       Metrics.mkReading (Some (Fin 1)) (Fin 1) 1]
                      [Fin 3; Fin 1] [] 0 0 (Fin 0) (Fin 0) (Fin 0) in
  Metrics.minLatency (Metrics.updateMetrics m) = Fin 1 /\
  Metrics.maxLatency (Metrics.updateMetrics m) = Fin 3 /\
  Forall (fun l => le l (Metrics.maxLatency (Metrics.updateMetrics m)))
         (Metrics.latencies m).
Proof.
  intros m.
  assert (HF : Forall (fun l => exists q, l = Fin q) (Metrics.latencies m)).
  { repeat constructor; eexists; reflexivity. }
  destruct (@updateMetrics_latency_statistics m
              ltac:(discriminate) ltac:(discriminate) HF)
    as [_ [_ [_ [H _]]]].
  split; [reflexivity|]. split; [reflexivity|exact H].
Defined.

(** ** What the line framer hands on *)

Section FramerOutput.

Lemma Forall_cons_head (P : jsstring -> Prop) c segs :
  (forall h, P h -> P (c :: h)) -> P [c] ->
  Forall P segs -> Forall P (cons_head c segs).
Proof.
  intros Hc H1 HF. destruct segs as [|h t]; simpl.
  - constructor; [exact H1|constructor].
  - inversion HF; subst. constructor; auto.
Qed.

Lemma split_lines_segments_no_LF s :
  Forall (fun seg => ~ In LF seg) (split_lines s).
Proof.
  induction s as [| a | a b l IHl IHbl] using list_ind2.
  - rewrite split_lines_nil. repeat constructor. auto.
  - rewrite split_lines_one. destruct (N.eqb_spec a LF) as [->|Ha].
    + repeat constructor; auto.
    + repeat constructor. intros [H|[]]. congruence.
  - destruct (split_lines_cases a (b :: l)) as [[-> E]|[[-> [r' [Er E]]]|[Ha [_ E]]]];
      rewrite E.
    + constructor; [auto|exact IHbl].
    + injection Er as -> ->. constructor; [auto|exact IHl].
    + apply Forall_cons_head; [| |exact IHbl].
      * intros h Hh [H|H]; [congruence|exact (Hh H)].
      * intros [H|[]]. congruence.
Qed.

End FramerOutput.

(** X6.  Whatever text is written to the line framer, in whatever chunks,
    every line it enqueues is free of line feeds and has a code unit that
    is no white space, and the text it holds back has no line feed: a
    reader never gets an empty line, a blank line or two lines in one. *)
Theorem framer_lines_are_single_and_non_blank (chunks : list jsstring) :
  let f := fst (LineFramer.feed LineFramer.createLineTransformStream chunks) in
  let out := snd (LineFramer.feed LineFramer.createLineTransformStream chunks) in
  Forall (fun l => ~ In LF l /\ non_blank l /\ l <> []) out /\
  Forall (fun l => ~ In LF l /\ non_blank l /\ l <> [])
         (LineFramer.feed_close LineFramer.createLineTransformStream chunks) /\
  ~ In LF (LineFramer.buffer f).
Proof.
  cbv zeta. unfold LineFramer.feed_close.
  rewrite feed_createLineTransformStream. cbv [fst snd LineFramer.buffer].
  assert (Hnb : forall l : jsstring, truthy (trim l) = true -> non_blank l /\ l <> []).
  { intros l H. split; [apply truthy_non_blank; exact H|].
    intros ->. discriminate H. }
  assert (Hout :
    Forall (fun l => ~ In LF l /\ non_blank l /\ l <> [])
           (filter (fun line => truthy (trim line))
                   (removelast (split_lines (concat chunks))))).
  { apply Forall_forall. intros l Hl. apply filter_In in Hl. destruct Hl as [Hin Ht].
    split; [|apply Hnb; exact Ht].
    pose proof (Forall_removelast (split_lines_segments_no_LF (concat chunks))) as HF.
    rewrite Forall_forall in HF. apply HF. exact Hin. }
  split; [exact Hout|]. split; [|apply last_split_lines_no_LF].
  apply Forall_app. split; [exact Hout|].
  unfold LineFramer.flush. cbv [LineFramer.buffer].
  destruct (truthy (trim (last (split_lines (concat chunks)) []))) eqn:E;
    [|constructor].
  constructor; [|constructor].
  split; [apply last_split_lines_no_LF|apply Hnb; exact E].
Qed.

(** ** The text of the log displays *)

Section DisplayText.

Import Display.

Variable sep : N.

Lemma split_char_nonempty s : split_char sep s <> [].
Proof.
  destruct s as [|c r]; simpl; [discriminate|].
  destruct (c =? sep)%N; [discriminate|apply cons_head_nonempty].
Qed.

Lemma split_char_no_sep s : ~ In sep s -> split_char sep s = [s].
Proof.
  induction s as [|c r IH]; intros H; [reflexivity|].
  simpl. destruct (N.eqb_spec c sep) as [->|Hc].
  - exfalso. apply H. left. reflexivity.
  - rewrite IH; [reflexivity|]. intros Hin. apply H. right. exact Hin.
Qed.

Lemma split_char_app_sep x rest :
  ~ In sep x -> split_char sep (x ++ sep :: rest) = x :: split_char sep rest.
Proof.
  induction x as [|c r IH]; intros H.
  - simpl. rewrite N.eqb_refl. reflexivity.
  - simpl. destruct (N.eqb_spec c sep) as [->|Hc].
    + exfalso. apply H. left. reflexivity.
    + rewrite IH; [reflexivity|]. intros Hin. apply H. right. exact Hin.
Qed.

Lemma split_char_segments s : Forall (fun seg => ~ In sep seg) (split_char sep s).
Proof.
  induction s as [|c r IH]; simpl.
  - repeat constructor. auto.
  - destruct (N.eqb_spec c sep) as [->|Hc].
    + constructor; [auto|exact IH].
    + apply Forall_cons_head; [| |exact IH].
      * intros h Hh [H|H]; [congruence|exact (Hh H)].
      * intros [H|[]]. congruence.
Qed.

Lemma join_char_cons x l :
  l <> [] -> join_char sep (x :: l) = x ++ sep :: join_char sep l.
Proof. destruct l; [contradiction|reflexivity]. Qed.

Lemma join_char_app l1 l2 :
  l1 <> [] -> l2 <> [] ->
  join_char sep (l1 ++ l2) = join_char sep l1 ++ sep :: join_char sep l2.
Proof.
  induction l1 as [|x t IH]; intros H1 H2; [contradiction|].
  destruct t as [|y t'].
  - simpl app. rewrite join_char_cons by exact H2. reflexivity.
  - change ((x :: y :: t') ++ l2) with (x :: (y :: t') ++ l2).
    rewrite join_char_cons by discriminate.
    rewrite IH by (auto; discriminate).
    rewrite (@join_char_cons x (y :: t')) by discriminate.
    rewrite <- app_assoc. reflexivity.
Qed.

(** Joining what was split gives the text back. *)
Lemma join_split_char s : join_char sep (split_char sep s) = s.
Proof.
  induction s as [|c r IH]; [reflexivity|].
  simpl. destruct (N.eqb_spec c sep) as [->|Hc].
  - rewrite join_char_cons by apply split_char_nonempty. rewrite IH. reflexivity.
  - pose proof (split_char_nonempty r) as Hne.
    destruct (split_char sep r) as [|h t]; [contradiction|].
    simpl cons_head. destruct t as [|h' t'].
    + simpl in *. rewrite IH. reflexivity.
    + rewrite join_char_cons by discriminate.
      rewrite join_char_cons in IH by discriminate.
      rewrite <- IH. reflexivity.
Qed.

(** Splitting what was joined gives the segments back. *)
Lemma split_join_char l :
  l <> [] -> Forall (fun seg => ~ In sep seg) l ->
  split_char sep (join_char sep l) = l.
Proof.
  induction l as [|x t IH]; intros Hne HF; [contradiction|].
  inversion HF as [|? ? Hx HF']; subst.
  destruct t as [|y t'].
  - simpl. apply split_char_no_sep. exact Hx.
  - rewrite join_char_cons by discriminate.
    rewrite split_char_app_sep by exact Hx.
    rewrite IH; [reflexivity|discriminate|exact HF'].
Qed.

Lemma split_char_snoc_sep s :
  split_char sep (s ++ [sep]) = split_char sep s ++ [[]].
Proof.
  induction s as [|c r IH]; simpl.
  - rewrite N.eqb_refl. reflexivity.
  - rewrite IH. destruct (c =? sep)%N; [reflexivity|].
    pose proof (split_char_nonempty r) as Hne.
    destruct (split_char sep r); [contradiction|reflexivity].
Qed.

Lemma split_char_app_no_sep t m :
  ~ In sep m ->
  split_char sep (t ++ m) =
  removelast (split_char sep t) ++ [last (split_char sep t) [] ++ m].
Proof.
  intros Hm. induction t as [|c r IH].
  - simpl. apply split_char_no_sep. exact Hm.
  - simpl. rewrite IH. pose proof (split_char_nonempty r) as Hne.
    destruct (split_char sep r) as [|h l]; [contradiction|].
    destruct (c =? sep)%N.
    + destruct l; reflexivity.
    + destruct l; reflexivity.
Qed.

Lemma skipn_split (A : Type) (n : nat) (l : list A) :
  n <= length l -> exists l1, l = l1 ++ skipn n l /\ length l1 = n.
Proof.
  intros H. exists (firstn n l). split.
  - symmetry. apply firstn_skipn.
  - apply firstn_length_le. exact H.
Qed.

End DisplayText.

Section DisplayLog.

Import Display.

Variables (limit : nat) (textContent message : jsstring).

Let full := textContent ++ message ++ [LF].

Lemma append_line_short :
  length (split_char LF full) <= limit ->
  append_line limit textContent message = full.
Proof.
  intros H. unfold append_line. fold full.
  destruct (Nat.ltb_spec limit (length (split_char LF full))); [lia|reflexivity].
Qed.

Lemma append_line_long :
  0 < limit -> limit < length (split_char LF full) ->
  exists l1,
    split_char LF full = l1 ++ slice_last limit (split_char LF full) /\
    l1 <> [] /\ slice_last limit (split_char LF full) <> [] /\
    length (slice_last limit (split_char LF full)) = limit /\
    append_line limit textContent message =
    join_char LF (slice_last limit (split_char LF full)).
Proof.
  intros H0 H. unfold append_line. fold full.
  destruct (Nat.ltb_spec limit (length (split_char LF full))); [|lia].
  unfold slice_last.
  destruct (@skipn_split _ (length (split_char LF full) - limit) (split_char LF full))
    as [l1 [E L1]]; [lia|].
  exists l1.
  assert (L2 : length (skipn (length (split_char LF full) - limit) (split_char LF full))
               = limit) by (rewrite length_skipn; lia).
  split; [exact E|]. split; [|split; [|split; [exact L2|reflexivity]]].
  - intros ->. simpl in L1. lia.
  - intros E0. rewrite E0 in L2. simpl in L2. lia.
Qed.

End DisplayLog.

(** X7.  The log displays ([logData] with 50 lines, [logRawData] with 50,
    [logPerformance] with 30) append the message and a line feed and, for a
    limit above 0, show afterwards at most [limit] segments between line
    feeds: the last ones of the whole text.  What is dropped is a prefix of
    whole lines, and a message without a line feed is shown whole, at the
    end, when the limit is 2 or more. *)
Theorem display_shows_the_last_lines (limit : nat) (textContent message : jsstring) :
  0 < limit ->
  let full := textContent ++ message ++ [LF] in
  let shown := Display.append_line limit textContent message in
  Display.split_char LF shown = Display.slice_last limit (Display.split_char LF full) /\
  length (Display.split_char LF shown) <= limit /\
  (exists dropped,
      full = dropped ++ shown /\
      (dropped = [] \/ exists lines, dropped = lines ++ [LF])) /\
  (2 <= limit -> ~ In LF message ->
   exists before, shown = before ++ message ++ [LF]).
Proof.
  intros H0. cbv zeta.
  set (full := textContent ++ message ++ [LF]).
  destruct (Nat.le_gt_cases (length (Display.split_char LF full)) limit) as [Hs|Hl].
  - rewrite append_line_short by exact Hs. fold full.
    split; [|split; [exact Hs|split]].
    + unfold Display.slice_last.
      replace (length (Display.split_char LF full) - limit) with 0 by lia.
      reflexivity.
    + exists []. split; [reflexivity|left; reflexivity].
    + intros _ _. exists textContent. reflexivity.
  - destruct (append_line_long textContent message H0 Hl) as [l1 [E [N1 [N2 [L2 Eo]]]]].
    fold full in E, N2, L2, Eo. rewrite Eo.
    set (kept := Display.slice_last limit (Display.split_char LF full)) in *.
    assert (HF : Forall (fun seg => ~ In LF seg) kept).
    { pose proof (split_char_segments LF full) as HF. rewrite E in HF.
      apply Forall_app in HF. apply HF. }
    rewrite split_join_char by assumption.
    split; [reflexivity|]. split; [lia|]. split.
    + exists (Display.join_char LF l1 ++ [LF]). split.
      * rewrite <- (join_split_char LF full) at 1. rewrite E.
        rewrite join_char_app by assumption. rewrite <- app_assoc. reflexivity.
      * right. exists (Display.join_char LF l1). reflexivity.
    + intros H2 Hm.
      assert (Elines : Display.split_char LF full =
                       removelast (Display.split_char LF textContent) ++
                       [last (Display.split_char LF textContent) [] ++ message; []]).
      { unfold full. rewrite app_assoc, split_char_snoc_sep.
        rewrite split_char_app_no_sep by exact Hm. rewrite <- app_assoc. reflexivity. }
      set (A := removelast (Display.split_char LF textContent)) in *.
      set (x := last (Display.split_char LF textContent) []) in *.
      assert (Ek : kept = skipn (length A + 2 - limit) A ++ [x ++ message; []]).
      { unfold kept, Display.slice_last. rewrite Elines.
        rewrite length_app. simpl length.
        rewrite skipn_app.
        replace (length A + 2 - limit - length A) with 0 by lia. reflexivity. }
      rewrite Ek.
      destruct (skipn (length A + 2 - limit) A) as [|b B] eqn:EB.
      * exists x. simpl. rewrite <- app_assoc. reflexivity.
      * rewrite join_char_app by discriminate.
        exists (Display.join_char LF (b :: B) ++ LF :: x).
        change (Display.join_char LF [x ++ message; []])
          with ((x ++ message) ++ [LF]).
        rewrite <- !app_assoc. reflexivity.
Qed.

Lemma display_shows_the_last_lines_witness :
  let textContent := lit "a" ++ [LF] ++ lit "b" ++ [LF] in
  let shown := Display.append_line 3 textContent (lit "c") in
  shown = lit "b" ++ [LF] ++ lit "c" ++ [LF] /\
  length (Display.split_char LF shown) <= 3.
Proof.
  split; [reflexivity|].
  apply (@display_shows_the_last_lines 3 (lit "a" ++ [LF] ++ lit "b" ++ [LF]) (lit "c")).
  lia.
Defined.

(** ** Exceptions stay inside the public methods *)

Section NoThrow.

Context {St : Type}.

Lemma no_throw_ret (A : Type) (a : A) : no_throw (@ret St A a).
Proof. intros s e. discriminate. Qed.

Lemma no_throw_pending (A : Type) : no_throw (fun s : St => (@Pending A, s)).
Proof. intros s e. discriminate. Qed.

Lemma no_throw_get : no_throw (@get St).
Proof. intros s e. discriminate. Qed.

Lemma no_throw_modify (f : St -> St) : no_throw (modify f).
Proof. intros s e. discriminate. Qed.

Lemma no_throw_bind (A B : Type) (m : M St A) (k : A -> M St B) :
  no_throw m -> (forall a, no_throw (k a)) -> no_throw (bind m k).
Proof.
  intros Hm Hk s e. unfold bind. pose proof (Hm s) as Hm'.
  destruct (m s) as [[a|e'|] s']; simpl in *.
  - apply Hk.
  - exfalso. exact (Hm' e' eq_refl).
  - discriminate.
Qed.

Lemma no_throw_try_catch (A : Type) (m : M St A) (h : error -> M St A) :
  (forall e, no_throw (h e)) -> no_throw (try_catch m h).
Proof.
  intros Hh s e. unfold try_catch.
  destruct (m s) as [[a|e'|] s']; simpl; [discriminate|apply Hh|discriminate].
Qed.

Lemma no_throw_when (b : bool) (m : M St unit) : no_throw m -> no_throw (when b m).
Proof. intros Hm. destruct b; [exact Hm|apply no_throw_ret]. Qed.

Context `{HasWorld St}.

Lemma no_throw_Date_now : no_throw (@Date_now St _).
Proof. intros s e. discriminate. Qed.

End NoThrow.

Ltac no_throw_step :=
  match goal with
  | |- no_throw (try_catch _ _) => apply no_throw_try_catch
  | |- no_throw (bind _ _) => apply no_throw_bind
  | |- no_throw (when _ _) => apply no_throw_when
  | |- no_throw (ret _) => apply no_throw_ret
  | |- no_throw get => apply no_throw_get
  | |- no_throw (modify _) => apply no_throw_modify
  | |- no_throw Date_now => apply no_throw_Date_now
  | |- no_throw (if ?b then _ else _) => destruct b
  | |- no_throw (match ?x with _ => _ end) => destruct x
  | |- no_throw (let '(_, _) := ?x in _) => destruct x
  | |- forall _, _ => intro
  end.

Section ChannelNoThrow.

Variable parseFloat : jsstring -> number.

Lemma channel_log_no_throw message type : no_throw (SerialChannel.log message type).
Proof. apply no_throw_modify. Qed.

Lemma channel_getDeviceInfo_no_throw : no_throw SerialChannel.getDeviceInfo.
Proof.
  unfold SerialChannel.getDeviceInfo, SerialChannel.updateUI.
  apply no_throw_try_catch. intros e.
  repeat first [apply channel_log_no_throw | no_throw_step].
Qed.

Lemma channel_connect_no_throw : no_throw SerialChannel.connect.
Proof.
  unfold SerialChannel.connect. apply no_throw_try_catch. intros e.
  destruct (eqb _ _); apply channel_log_no_throw.
Qed.

Lemma channel_stopReading_no_throw : no_throw SerialChannel.stopReading.
Proof.
  unfold SerialChannel.stopReading, SerialChannel.updateUI,
    SerialChannel.onChannelStateChange.
  repeat first [apply channel_log_no_throw | no_throw_step].
Qed.

Lemma channel_disconnect_no_throw : no_throw SerialChannel.disconnect.
Proof.
  unfold SerialChannel.disconnect. apply no_throw_try_catch. intros e.
  apply channel_log_no_throw.
Qed.

Lemma channel_startReading_no_throw fuel :
  no_throw (SerialChannel.startReading parseFloat fuel).
Proof.
  unfold SerialChannel.startReading, SerialChannel.readWeightContinuous,
    SerialChannel.updateUI.
  repeat first [apply channel_log_no_throw | no_throw_step].
Qed.

Lemma channel_clearData_no_throw : no_throw SerialChannel.clearData.
Proof.
  unfold SerialChannel.clearData, SerialChannel.updateMetrics.
  repeat no_throw_step.
Qed.

Lemma channel_perform_action_no_throw a :
  no_throw (SerialChannel.perform_action parseFloat a).
Proof.
  destruct a; simpl.
  - apply channel_connect_no_throw.
  - apply channel_disconnect_no_throw.
  - apply channel_startReading_no_throw.
  - apply channel_stopReading_no_throw.
  - unfold SerialChannel.refreshDeviceInfo.
    repeat first [apply channel_getDeviceInfo_no_throw | no_throw_step].
  - apply channel_clearData_no_throw.
Qed.

Lemma page_log_no_throw message type :
  no_throw (SerialPerformanceTest.log message type).
Proof. apply no_throw_modify. Qed.

Lemma page_perform_action_no_throw a :
  no_throw (SerialPerformanceTest.perform_action parseFloat a).
Proof.
  destruct a; simpl.
  - unfold SerialPerformanceTest.disconnect. apply no_throw_try_catch. intros e.
    apply page_log_no_throw.
  - unfold SerialPerformanceTest.readWeightOnce. apply no_throw_try_catch. intros e.
    repeat first [apply page_log_no_throw | no_throw_step].
  - unfold SerialPerformanceTest.stopReading, SerialPerformanceTest.updateReadingStatus.
    repeat first [apply page_log_no_throw | no_throw_step].
  - unfold SerialPerformanceTest.getDeviceInfo, SerialPerformanceTest.on_elements.
    apply no_throw_try_catch. intros e.
    repeat first [apply page_log_no_throw | no_throw_step].
  - unfold SerialPerformanceTest.clearData, SerialPerformanceTest.updateMetrics,
      SerialPerformanceTest.on_elements.
    repeat first [apply page_log_no_throw | no_throw_step].
Qed.

Lemma on_channel_no_throw id (m : M SerialChannel.t unit) :
  no_throw m -> no_throw (MultiChannelSerialTest.on_channel id m).
Proof.
  intros Hm r e. unfold MultiChannelSerialTest.on_channel.
  destruct (MultiChannelSerialTest.map_get id _) as [ch|]; [|discriminate].
  pose proof (Hm ch e) as Hc. destruct (m ch) as [res ch']. exact Hc.
Qed.

Lemma not_awaited_no_throw (m : M MultiChannelSerialTest.t unit) :
  no_throw (MultiChannelSerialTest.not_awaited m).
Proof. intros r e. discriminate. Qed.

Lemma for_each_no_throw l (body : nat -> M MultiChannelSerialTest.t unit) :
  (forall id, no_throw (body id)) -> no_throw (MultiChannelSerialTest.for_each l body).
Proof.
  intros Hb. induction l as [|id rest IH]; simpl.
  - apply no_throw_ret.
  - apply no_throw_bind; [apply Hb|intros _; exact IH].
Qed.

Ltac registry_step :=
  first [ apply not_awaited_no_throw
        | apply for_each_no_throw
        | apply on_channel_no_throw
        | apply channel_perform_action_no_throw
        | apply channel_clearData_no_throw
        | apply channel_startReading_no_throw
        | no_throw_step ].

Lemma registry_perform_action_no_throw a :
  no_throw (MultiChannelSerialTest.perform_action parseFloat a).
Proof.
  destruct a; simpl.
  - unfold MultiChannelSerialTest.addChannel. repeat registry_step.
  - unfold MultiChannelSerialTest.removeChannel. repeat registry_step.
  - unfold MultiChannelSerialTest.removeAllChannels. repeat registry_step.
  - unfold MultiChannelSerialTest.refreshChannels. repeat registry_step.
  - unfold MultiChannelSerialTest.connectAllChannels. repeat registry_step.
  - unfold MultiChannelSerialTest.disconnectAllChannels. repeat registry_step.
  - unfold MultiChannelSerialTest.startAllReading. repeat registry_step.
  - unfold MultiChannelSerialTest.stopAllReading. repeat registry_step.
  - unfold MultiChannelSerialTest.clearAllData. repeat registry_step.
  - unfold MultiChannelSerialTest.startGlobalTest,
      MultiChannelSerialTest.clearAllData, MultiChannelSerialTest.startAllReading.
    repeat registry_step.
  - unfold MultiChannelSerialTest.stopGlobalTest. repeat registry_step.
  - repeat registry_step.
Qed.

End ChannelNoThrow.

(** X8.  No exception leaves a public method, whatever the device does and
    whatever state the object is in: every method the page calls on a
    channel, on the single-channel page (its [connect] and [tare] too) and
    on the registry ends normally or stays pending; the writes to the
    document, which are left out here, are taken to succeed.  The private
    [sendCommand] is different: it throws when there is no writer. *)
Theorem public_methods_never_throw (parseFloat : jsstring -> number) :
  (forall a, no_throw (SerialChannel.perform_action parseFloat a)) /\
  (forall a, no_throw (SerialPerformanceTest.perform_action parseFloat a)) /\
  no_throw SerialPerformanceTest.connect /\
  no_throw SerialPerformanceTest.tare /\
  (forall a, no_throw (MultiChannelSerialTest.perform_action parseFloat a)) /\
  ~ (forall command, no_throw (SerialChannel.sendCommand command)).
Proof.
  split; [apply channel_perform_action_no_throw|].
  split; [apply page_perform_action_no_throw|].
  split; [|split; [|split; [apply registry_perform_action_no_throw|]]].
  - unfold SerialPerformanceTest.connect. apply no_throw_try_catch. intros e.
    destruct (eqb _ _); apply page_log_no_throw.
  - unfold SerialPerformanceTest.tare. apply no_throw_try_catch. intros e.
    apply page_log_no_throw.
  - intros H.
    apply (H [] (SerialChannel.constructor 9600 Examples.device_silent)
             (Error (lit "Writer not available"))).
    reflexivity.
Qed.

(** ** A handshake that succeeds *)

(** X9.  When the three commands of the handshake can be written and the
    three reads settle, the handshake sends [id], [slc] and [units] in this
    order, reads one line after each, and stores the three responses
    (trimmed) in the device fields.  A read that finds the stream done is no
    error: its field is set to [null] and the next command is sent all the
    same. *)
Theorem handshake_stores_the_three_responses (w : world) (o1 o2 o3 : read_outcome) :
  let d := dev w in
  let nw := occurrences KWrite (trace w) in
  let nr := occurrences KRead (trace w) in
  (forall data k, k < 3 -> failure d (EvWrite data) (nw + k) = None) ->
  (forall k, k < 3 -> failure d EvRead (nr + k) = None) ->
  line d nr = o1 -> line d (nr + 1) = o2 -> line d (nr + 2) = o3 ->
  o1 <> ReadPending -> o2 <> ReadPending -> o3 <> ReadPending ->
  (forall c : SerialChannel.t,
      SerialChannel.env c = w ->
      SerialChannel.writer c = true ->
      SerialChannel.lineReader c = true ->
      let c' := snd (SerialChannel.getDeviceInfo c) in
      fst (SerialChannel.getDeviceInfo c) = Ret tt /\
      SerialChannel.deviceId c' = response_of o1 /\
      SerialChannel.deviceCapacity c' = response_of o2 /\
      SerialChannel.deviceUnits c' = response_of o3 /\
      trace (SerialChannel.env c') = trace w ++ handshake_events)
  /\
  (forall p : SerialPerformanceTest.t,
      SerialPerformanceTest.env p = w ->
      SerialPerformanceTest.isReading p = false ->
      SerialPerformanceTest.writer p = true ->
      SerialPerformanceTest.lineReader p = true ->
      let p' := snd (SerialPerformanceTest.getDeviceInfo p) in
      fst (SerialPerformanceTest.getDeviceInfo p) = Ret tt /\
      SerialPerformanceTest.deviceId p' = response_of o1 /\
      SerialPerformanceTest.deviceCapacity p' = response_of o2 /\
      SerialPerformanceTest.deviceUnits p' = response_of o3 /\
      trace (SerialPerformanceTest.env p') = trace w ++ handshake_events).
Proof.
  intros d nw nr Hw Hr H1 H2 H3 N1 N2 N3.
  destruct w as [dv tr tk]. cbv [dev trace] in d, nw, nr, Hw, Hr, H1, H2, H3.
  subst d nw nr.
  assert (Hw0 : forall data, failure dv (EvWrite data) (occurrences KWrite tr) = None).
  { intros data. rewrite <- (Nat.add_0_r (occurrences KWrite tr)). apply Hw. lia. }
  assert (Hw1 : forall data, failure dv (EvWrite data) (S (occurrences KWrite tr)) = None).
  { intros data. rewrite <- Nat.add_1_r. apply Hw. lia. }
  assert (Hw2 : forall data,
             failure dv (EvWrite data) (S (S (occurrences KWrite tr))) = None).
  { intros data. replace (S (S (occurrences KWrite tr)))
      with (occurrences KWrite tr + 2) by lia. apply Hw. lia. }
  assert (Hr0 : failure dv EvRead (occurrences KRead tr) = None).
  { rewrite <- (Nat.add_0_r (occurrences KRead tr)). apply Hr. lia. }
  assert (Hr1 : failure dv EvRead (S (occurrences KRead tr)) = None).
  { rewrite <- Nat.add_1_r. apply Hr. lia. }
  assert (Hr2 : failure dv EvRead (S (S (occurrences KRead tr))) = None).
  { replace (S (S (occurrences KRead tr))) with (occurrences KRead tr + 2) by lia.
    apply Hr. lia. }
  rewrite Nat.add_1_r in H2.
  replace (occurrences KRead tr + 2) with (S (S (occurrences KRead tr))) in H3 by lia.
  clear Hw Hr.
  split.
  - intros c Hc Hwr Hlr c'. subst c'.
    open_channel c. subst w' wr lr.
    destruct (SerialChannel.getDeviceInfo _) as [r c'] eqn:E. revert E.
    destruct o1; try contradiction; destruct o2; try contradiction;
      destruct o3; try contradiction; io_run; io_finish.
  - intros p Hp HisR Hwr Hlr p'. subst p'.
    open_page p. subst w' isR wr lr.
    destruct (SerialPerformanceTest.getDeviceInfo _) as [r c'] eqn:E. revert E.
    destruct o1; try contradiction; destruct o2; try contradiction;
      destruct o3; try contradiction; io_run; io_finish.
Qed.

Lemma handshake_stores_the_three_responses_witness :
  let c := SerialChannel.set_lineReader true (SerialChannel.set_writer true
             (SerialChannel.constructor 9600 Examples.device_streaming)) in
  let c' := snd (SerialChannel.getDeviceInfo c) in
  fst (SerialChannel.getDeviceInfo c) = Ret tt /\
  SerialChannel.deviceId c' = Some (lit "12.5") /\
  SerialChannel.deviceCapacity c' = Some (lit "12.5") /\
  SerialChannel.deviceUnits c' = Some (lit "12.5") /\
  trace (SerialChannel.env c') = handshake_events.
Proof.
  refine (proj1
    (@handshake_stores_the_three_responses
       (mkWorld Examples.device_streaming [] 0)
       (ReadValue (lit "12.5")) (ReadValue (lit "12.5")) (ReadValue (lit "12.5"))
       (fun _ _ _ => eq_refl) (fun _ _ => eq_refl) eq_refl eq_refl eq_refl _ _ _)
    (SerialChannel.set_lineReader true (SerialChannel.set_writer true
       (SerialChannel.constructor 9600 Examples.device_streaming)))
    eq_refl eq_refl eq_refl); discriminate.
Defined.

(** ** A connection that fails *)

(** As [io_run], with the test on the name of the error left as it is
    written. *)
Ltac io_simpl_error :=
  cbv -[occurrences lit app trim truthy failure line clock attempted CR LF
        Metrics.processReading Metrics.updateMetrics Metrics.clear
        WeightFilter.filterWithMedian eqb name message].

Ltac io_run_error :=
  repeat (io_simpl_error; rewrite ?occurrences_snoc; io_simpl_error; io_rewrite);
  io_simpl_error.

(** X10.  [connect()] of a channel that fails before the handshake: the
    failure is logged (as a warning when the user cancelled the port
    request, as an error otherwise), the call ends normally, the channel is
    no more connected than before and no command is written.  Nothing is
    undone: after a failure of [open] the channel holds the port it could
    not open, and after a failure of [getWriter] it holds the open port and
    the line reader, and the port is not closed. *)
Theorem connect_failure_undoes_nothing (c : SerialChannel.t) (e : error) :
  let w := SerialChannel.env c in
  let d := dev w in
  let requested := failure d EvRequestPort (occurrences KRequestPort (trace w)) in
  let opened :=
    failure d (EvOpen (SerialChannel.baudRate c)) (occurrences KOpen (trace w)) in
  let got_writer := failure d EvGetWriter (occurrences KGetWriter (trace w)) in
  let c' := snd (SerialChannel.connect c) in
  let logged :=
    SerialChannel.console c' =
    SerialChannel.console c ++
    [if eqb (name e) (lit "NotFoundError")
     then (warning, lit "User cancelled port selection")
     else (error_, lit "Connection error: " ++ message e)] in
  (requested = Some e \/
   (requested = None /\ opened = Some e) \/
   (requested = None /\ opened = None /\ got_writer = Some e)) ->
  fst (SerialChannel.connect c) = Ret tt /\
  SerialChannel.isConnected c' = SerialChannel.isConnected c /\
  SerialChannel.writer c' = SerialChannel.writer c /\
  occurrences KWrite (trace (SerialChannel.env c')) = occurrences KWrite (trace w) /\
  occurrences KClose (trace (SerialChannel.env c')) = occurrences KClose (trace w) /\
  logged /\
  (requested = Some e ->
   SerialChannel.port c' = SerialChannel.port c /\
   SerialChannel.lineReader c' = SerialChannel.lineReader c /\
   trace (SerialChannel.env c') = trace w ++ [EvRequestPort]) /\
  (requested = None -> opened = Some e ->
   SerialChannel.port c' = true /\
   SerialChannel.lineReader c' = SerialChannel.lineReader c /\
   trace (SerialChannel.env c')
     = trace w ++ [EvRequestPort; EvOpen (SerialChannel.baudRate c)]) /\
  (requested = None -> opened = None ->
   SerialChannel.port c' = true /\
   SerialChannel.lineReader c' = true /\
   trace (SerialChannel.env c')
     = trace w ++ [EvRequestPort; EvOpen (SerialChannel.baudRate c); EvGetWriter]).
Proof.
  cbv zeta. open_channel c. destruct w' as [dv tr tk]. cbv [dev trace].
  intros Hcase.
  destruct (SerialChannel.connect _) as [r c'] eqn:E. revert E.
  destruct Hcase as [H1 | [[H1 H2] | [H1 [H2 H3]]]]; io_run_error;
    (destruct (eqb (name e) (lit "NotFoundError")) eqn:En;
     intros E; injection E as <- <-; io_simpl_error;
     rewrite ?occurrences_snoc; io_simpl_error;
     repeat (split; [try reflexivity|]);
     try rewrite H1; try rewrite H2; try rewrite H3;
     try (intros; discriminate);
     intros; repeat split; rewrite <- ?app_assoc; reflexivity).
Qed.

Lemma connect_failure_undoes_nothing_witness :
  let c := SerialChannel.constructor 9600
             (mkTransport
                (fun ev _ =>
                   match ev with
                   | EvOpen _ => Some (mkError (lit "NetworkError") (lit "Failed to open"))
                   | _ => None
                   end)
                (fun _ => ReadPending) (fun n => Z.of_nat n)) in
  let c' := snd (SerialChannel.connect c) in
  SerialChannel.isConnected c' = false /\
  SerialChannel.port c' = true /\
  trace (SerialChannel.env c') = [EvRequestPort; EvOpen 9600] /\
  trace (SerialChannel.env (snd (SerialChannel.disconnect c')))
    = [EvRequestPort; EvOpen 9600; EvClose].
Proof.
  cbv zeta.
  pose proof (@connect_failure_undoes_nothing
    (SerialChannel.constructor 9600
       (mkTransport
          (fun ev _ =>
             match ev with
             | EvOpen _ => Some (mkError (lit "NetworkError") (lit "Failed to open"))
             | _ => None
             end)
          (fun _ => ReadPending) (fun n => Z.of_nat n)))
    (mkError (lit "NetworkError") (lit "Failed to open"))
    (or_intror (or_introl (conj eq_refl eq_refl)))) as H.
  cbv zeta in H.
  destruct H as [_ [HC [_ [_ [_ [_ [_ [H _]]]]]]]].
  destruct (H eq_refl eq_refl) as [Hp [_ Ht]].
  split; [exact HC|]. split; [exact Hp|]. split; [exact Ht|]. reflexivity.
Defined.

(** ** What the methods of a channel leave as it is *)

Section PostConditions.

Context {St : Type} (P I : St -> Prop).

(** A property the first step establishes and the rest keeps. *)
Lemma established_bind (A B : Type) (m : M St A) (k : A -> M St B) :
  (forall s, P s -> I (snd (m s))) -> (forall a, preserves I (k a)) ->
  forall s, P s -> I (snd (bind m k s)).
Proof.
  intros Hm Hk s Hs. unfold bind. pose proof (Hm s Hs) as H'.
  destruct (m s) as [[a|e|] s']; simpl in *; [|exact H'|exact H'].
  apply Hk. exact H'.
Qed.

Lemma established_try_catch (A : Type) (m : M St A) (h : error -> M St A) :
  (forall s, P s -> I (snd (m s))) -> (forall e, preserves I (h e)) ->
  forall s, P s -> I (snd (try_catch m h s)).
Proof.
  intros Hm Hh s Hs. unfold try_catch. pose proof (Hm s Hs) as H'.
  destruct (m s) as [[a|e|] s']; simpl in *; [exact H'| |exact H'].
  apply Hh. exact H'.
Qed.

End PostConditions.

Section ChannelFrame.

#[local] Existing Instance SerialChannel.t_world.

Variable parseFloat : jsstring -> number.

(** A property of a channel that the log, the clock, the reads and the
    writing of the five commands keep, as do assignments to the device
    fields, the metrics, the window and the timers, and stopping. *)
Variable I : SerialChannel.t -> Prop.
Hypothesis I_console : forall v c, I c -> I (SerialChannel.set_console v c).
Hypothesis I_deviceId : forall v c, I c -> I (SerialChannel.set_deviceId v c).
Hypothesis I_deviceCapacity : forall v c, I c -> I (SerialChannel.set_deviceCapacity v c).
Hypothesis I_deviceUnits : forall v c, I c -> I (SerialChannel.set_deviceUnits v c).
Hypothesis I_metrics : forall v c, I c -> I (SerialChannel.set_metrics v c).
Hypothesis I_weightWindow : forall v c, I c -> I (SerialChannel.set_weightWindow v c).
Hypothesis I_timers : forall v c, I c -> I (SerialChannel.set_timers v c).
Hypothesis I_stop : forall c, I c -> I (SerialChannel.set_isReading false c).
Hypothesis I_write :
  forall command, In command channel_commands ->
                  preserves I (perform (EvWrite (command ++ [CR]))).
Hypothesis I_read : preserves I read.
Hypothesis I_now : preserves I Date_now.

Ltac frame_leaf :=
  match goal with
  | |- preserves _ (perform (EvWrite _)) => apply I_write; simpl; tauto
  | |- preserves _ read => exact I_read
  | |- preserves _ Date_now => exact I_now
  | |- preserves _ (modify _) =>
      apply preserves_modify; intros ? Hinv;
      first [ apply I_console | apply I_deviceId | apply I_deviceCapacity
            | apply I_deviceUnits | apply I_metrics | apply I_weightWindow
            | apply I_timers | apply I_stop ];
      exact Hinv
  | |- preserves _ (bind _ _) => apply preserves_bind
  | |- preserves _ (try_catch _ _) => apply preserves_try_catch
  | |- preserves _ (when _ _) => apply preserves_when
  | |- preserves _ (ret _) => apply preserves_ret
  | |- preserves _ (throw _) => apply preserves_throw
  | |- preserves _ get => apply preserves_get
  | |- preserves _ (if ?b then _ else _) => destruct b
  | |- preserves _ (match ?x with _ => _ end) => destruct x
  | |- forall _, _ => intro
  end.

Lemma frame_log message type : preserves I (SerialChannel.log message type).
Proof. unfold SerialChannel.log. repeat frame_leaf. Qed.

Lemma frame_readResponse : preserves I SerialChannel.readResponse.
Proof.
  unfold SerialChannel.readResponse. repeat first [apply frame_log | frame_leaf].
Qed.

Lemma frame_sendCommand command :
  In command channel_commands -> preserves I (SerialChannel.sendCommand command).
Proof.
  intros Hin. unfold SerialChannel.sendCommand.
  repeat first [ apply frame_log | apply frame_readResponse
               | apply I_write; exact Hin | frame_leaf ].
Qed.

Ltac frame_step :=
  first [ apply frame_log
        | apply frame_sendCommand; simpl; tauto
        | frame_leaf ].

Lemma frame_getDeviceInfo : preserves I SerialChannel.getDeviceInfo.
Proof.
  unfold SerialChannel.getDeviceInfo, SerialChannel.updateUI. repeat frame_step.
Qed.

Lemma frame_refreshDeviceInfo : preserves I SerialChannel.refreshDeviceInfo.
Proof.
  unfold SerialChannel.refreshDeviceInfo.
  repeat first [apply frame_getDeviceInfo | frame_step].
Qed.

Lemma frame_stopReading : preserves I SerialChannel.stopReading.
Proof.
  unfold SerialChannel.stopReading, SerialChannel.updateUI,
    SerialChannel.onChannelStateChange.
  repeat frame_step.
Qed.

Lemma frame_process_line value :
  preserves I (SerialChannel.process_line parseFloat value).
Proof.
  unfold SerialChannel.process_line, SerialChannel.filterWithMedian,
    SerialChannel.processReading, SerialChannel.updateMetrics.
  repeat frame_step.
Qed.

Lemma frame_read_loop fuel : preserves I (SerialChannel.read_loop parseFloat fuel).
Proof.
  induction fuel as [|fuel IH]; simpl.
  - apply preserves_pending.
  - repeat first [exact IH | apply frame_process_line | frame_step].
Qed.

Lemma frame_readWeightContinuous fuel :
  preserves I (SerialChannel.readWeightContinuous parseFloat fuel).
Proof.
  unfold SerialChannel.readWeightContinuous.
  repeat first [apply frame_read_loop | frame_step].
Qed.

Lemma frame_clearData : preserves I SerialChannel.clearData.
Proof.
  unfold SerialChannel.clearData, SerialChannel.updateMetrics. repeat frame_step.
Qed.

(** The rest needs the handles and the flags: a property that any
    assignment to them keeps, and any operation on the port. *)
Hypothesis I_port : forall v c, I c -> I (SerialChannel.set_port v c).
Hypothesis I_lineReader : forall v c, I c -> I (SerialChannel.set_lineReader v c).
Hypothesis I_writer : forall v c, I c -> I (SerialChannel.set_writer v c).
Hypothesis I_isConnected : forall v c, I c -> I (SerialChannel.set_isConnected v c).
Hypothesis I_isReading : forall v c, I c -> I (SerialChannel.set_isReading v c).
Hypothesis I_perform :
  forall ev, (forall data, ev <> EvWrite data) -> preserves I (perform ev).

Ltac handle_step :=
  first [ apply frame_getDeviceInfo
        | apply frame_stopReading
        | apply frame_readWeightContinuous
        | frame_step
        | apply I_perform; discriminate
        | apply preserves_modify; intros ? Hinv;
          first [ apply I_port | apply I_lineReader | apply I_writer
                | apply I_isConnected | apply I_isReading ];
          exact Hinv ].

Lemma frame_connect : preserves I SerialChannel.connect.
Proof.
  unfold SerialChannel.connect, SerialChannel.updateUI,
    SerialChannel.onChannelStateChange.
  repeat handle_step.
Qed.

Lemma frame_disconnect : preserves I SerialChannel.disconnect.
Proof.
  unfold SerialChannel.disconnect, SerialChannel.updateUI,
    SerialChannel.onChannelStateChange.
  repeat handle_step.
Qed.

Lemma frame_startReading fuel :
  preserves I (SerialChannel.startReading parseFloat fuel).
Proof.
  unfold SerialChannel.startReading, SerialChannel.updateUI.
  repeat handle_step.
Qed.

Lemma frame_perform_action a :
  preserves I (SerialChannel.perform_action parseFloat a).
Proof.
  destruct a; simpl.
  - apply frame_connect.
  - apply frame_disconnect.
  - apply frame_startReading.
  - apply frame_stopReading.
  - apply frame_refreshDeviceInfo.
  - apply frame_clearData.
Qed.

Lemma frame_perform_actions actions :
  forall c, I c -> I (SerialChannel.perform_actions parseFloat actions c).
Proof.
  induction actions as [|a rest IH]; intros c Hc; [exact Hc|].
  simpl. apply IH. apply frame_perform_action. exact Hc.
Qed.

End ChannelFrame.

(** ** The flags and handles of a channel *)

Section StopReadingFields.

#[local] Existing Instance SerialChannel.t_world.

Variable parseFloat : jsstring -> number.

(** [stopReading()] clears [isReading] and leaves the connection flag and
    the handles as they are, however it ends. *)
Lemma stopReading_fields (c : SerialChannel.t) :
  let c' := snd (SerialChannel.stopReading c) in
  SerialChannel.isReading c' = false /\
  SerialChannel.isConnected c' = SerialChannel.isConnected c /\
  SerialChannel.port c' = SerialChannel.port c /\
  SerialChannel.lineReader c' = SerialChannel.lineReader c /\
  SerialChannel.writer c' = SerialChannel.writer c.
Proof.
  cbv zeta.
  set (I := fun c' : SerialChannel.t =>
              SerialChannel.isReading c' = false /\
              SerialChannel.isConnected c' = SerialChannel.isConnected c /\
              SerialChannel.port c' = SerialChannel.port c /\
              SerialChannel.lineReader c' = SerialChannel.lineReader c /\
              SerialChannel.writer c' = SerialChannel.writer c).
  change (I (snd (SerialChannel.stopReading c))).
  unfold SerialChannel.stopReading.
  apply (@established_bind _ (fun s => s = c) I).
  - intros s ->. unfold I. simpl. repeat split.
  - intros _.
    assert (Hlog : forall message type, preserves I (SerialChannel.log message type)).
    { intros message type. apply frame_log. intros v s Hs. exact Hs. }
    assert (Hsend : preserves I (SerialChannel.sendCommand [])).
    { apply frame_sendCommand; try (intros ? s Hs; exact Hs).
      - intros command _. apply preserves_perform. intros w s Hs. exact Hs.
      - apply preserves_read. intros w s Hs. exact Hs.
      - simpl. tauto. }
    unfold SerialChannel.updateUI, SerialChannel.onChannelStateChange.
    repeat first [apply Hlog | apply Hsend | preserves_step].
  - reflexivity.
Qed.

End StopReadingFields.

Section DisconnectFlags.

#[local] Existing Instance SerialChannel.t_world.

Variable parseFloat : jsstring -> number.

Ltac split_failures :=
  repeat match goal with
         | |- context [failure ?d ?ev ?n] => destruct (failure d ev n)
         end.

Lemma disconnect_post (c : SerialChannel.t) :
  let c' := snd (SerialChannel.disconnect c) in
  SerialChannel.isReading c' = false /\
  (handles_consistent c -> handles_consistent c').
Proof.
  pose proof (stopReading_fields c) as Hstop. cbv zeta in Hstop.
  intros c'. assert (E : c' = snd (SerialChannel.disconnect c)) by reflexivity.
  clearbody c'. revert E.
  unfold SerialChannel.disconnect, try_catch.
  unfold bind at 1. unfold get at 1. cbv iota beta.
  unfold bind at 1.
  unfold handles_consistent.
  destruct (SerialChannel.isReading c) eqn:HisR.
  - unfold when at 1.
    destruct (SerialChannel.stopReading c) as [[[]|e|] c1]; simpl in Hstop;
      destruct Hstop as [H1 [H2 [H3 [H4 H5]]]];
      destruct c1 as [baud1 isC1 isR1 port1 lr1 wr1 did1 dcap1 dun1 met1 win1 con1 tim1 w1];
      destruct c as [baud isC isR port lr wr did dcap dun met win con tim w];
      simpl in *; subst; destruct w1 as [dv tr tk];
      destruct lr, wr, port, isC;
      io_simpl; split_failures; io_simpl; intros ->; io_simpl; intuition congruence.
  - destruct c as [baud isC isR port lr wr did dcap dun met win con tim w];
      simpl in *; subst; destruct w as [dv tr tk];
      destruct lr, wr, port, isC;
      io_simpl; split_failures; io_simpl; intros ->; io_simpl; intuition congruence.
Qed.

End DisconnectFlags.

Section FlagsInvariant.

#[local] Existing Instance SerialChannel.t_world.

Variable parseFloat : jsstring -> number.

(** Solves a goal on the flags of a channel after an assignment. *)
Ltac flags :=
  match goal with
  | |- forall _, _ => intros; flags
  | s : SerialChannel.t |- _ =>
      destruct s; unfold handles_consistent in *; simpl in *; intuition congruence
  end.

Ltac flags_leaf :=
  match goal with
  | |- preserves _ (perform _) => apply preserves_perform; flags
  | |- preserves _ read => apply preserves_read; flags
  | |- preserves _ Date_now => apply preserves_Date_now; flags
  | |- preserves _ (modify _) => apply preserves_modify; flags
  | |- preserves _ (SerialChannel.log _ _) => apply frame_log; flags
  | |- preserves _ SerialChannel.getDeviceInfo =>
      apply frame_getDeviceInfo; first [flags | intros; flags_leaf]
  | |- preserves _ (SerialChannel.readWeightContinuous _ _) =>
      apply frame_readWeightContinuous; first [flags | intros; flags_leaf]
  | |- preserves _ SerialChannel.stopReading =>
      apply frame_stopReading; first [flags | intros; flags_leaf]
  | |- preserves _ SerialChannel.clearData =>
      apply frame_clearData; first [flags | intros; flags_leaf]
  | |- preserves _ SerialChannel.refreshDeviceInfo =>
      apply frame_refreshDeviceInfo; first [flags | intros; flags_leaf]
  | _ => preserves_step
  end.

Lemma connect_handles (c : SerialChannel.t) :
  handles_consistent c -> handles_consistent (snd (SerialChannel.connect c)).
Proof.
  unfold SerialChannel.connect, SerialChannel.updateUI,
    SerialChannel.onChannelStateChange.
  apply (@established_try_catch _ handles_consistent handles_consistent);
    [|intros e; destruct (eqb _ _); flags_leaf].
  apply established_bind; [intros s Hs; apply preserves_perform; [flags|exact Hs]|].
  intros _ s Hs.
  set (J := fun c' => handles_consistent c' /\ SerialChannel.port c' = true).
  enough (HJ : J (snd ((modify (SerialChannel.set_port true);;
       c0 <- get;;
       perform (EvOpen (SerialChannel.baudRate c0));;
       modify (SerialChannel.set_lineReader true);;
       perform EvGetWriter;;
       modify (SerialChannel.set_writer true);;
       modify (SerialChannel.set_isConnected true);;
       ret tt;;
       SerialChannel.log (lit "Successfully connected to serial device") info;;
       SerialChannel.getDeviceInfo;; ret tt) s))) by apply HJ.
  revert s Hs. apply established_bind.
  - intros s Hs. unfold J. flags.
  - intros _. unfold J. repeat flags_leaf.
Qed.

Lemma startReading_handles fuel (c : SerialChannel.t) :
  handles_consistent c ->
  handles_consistent (snd (SerialChannel.startReading parseFloat fuel c)).
Proof.
  intros Hc. unfold SerialChannel.startReading.
  unfold bind at 1. unfold get at 1. cbv iota beta.
  destruct (SerialChannel.isConnected c) eqn:HisC; [|exact Hc].
  destruct (SerialChannel.isReading c) eqn:HisR; [exact Hc|].
  cbn [negb orb].
  revert HisC HisR Hc. generalize c at 1 2 3 4. intros s HisC HisR Hs.
  assert (P : handles_consistent s /\ SerialChannel.isConnected s = true) by tauto.
  revert P. generalize s. clear.
  apply established_bind.
  - flags.
  - intros _. unfold SerialChannel.updateUI. repeat flags_leaf.
Qed.

Lemma perform_action_handles a (c : SerialChannel.t) :
  handles_consistent c ->
  handles_consistent (snd (SerialChannel.perform_action parseFloat a c)).
Proof.
  destruct a; simpl.
  - apply connect_handles.
  - apply disconnect_post.
  - apply startReading_handles.
  - revert c. change (preserves handles_consistent SerialChannel.stopReading).
    flags_leaf.
  - revert c. change (preserves handles_consistent SerialChannel.refreshDeviceInfo).
    flags_leaf.
  - revert c. change (preserves handles_consistent SerialChannel.clearData).
    flags_leaf.
Qed.

Lemma settled_run_handles actions :
  forall c c0 : SerialChannel.t,
    handles_consistent c ->
    settled_run parseFloat actions c = Some c0 ->
    handles_consistent c0.
Proof.
  induction actions as [|a rest IH]; intros c c0 Hc Hrun; simpl in Hrun.
  - injection Hrun as <-. exact Hc.
  - pose proof (perform_action_handles a Hc) as Hstep.
    destruct (SerialChannel.perform_action parseFloat a c) as [[[]| |] c'];
      try discriminate.
    destruct (SerialChannel.timers c'); [|discriminate].
    exact (IH c' c0 Hstep Hrun).
Qed.

Lemma settled_channel_handles (c : SerialChannel.t) :
  settled_channel parseFloat c -> handles_consistent c.
Proof.
  intros [baudRate [d [actions [c0 [Hrun Hc]]]]].
  assert (H0 : handles_consistent c0).
  { apply (@settled_run_handles actions (SerialChannel.constructor baudRate d));
      [|exact Hrun].
    unfold handles_consistent. simpl. repeat split; discriminate. }
  destruct Hc as [->|[a ->]]; [exact H0|].
  apply perform_action_handles. exact H0.
Qed.

End FlagsInvariant.

(** X11.  As long as the calls of the page on a channel do not overlap,
    the flags and handles of the channel agree, whatever the device does: a
    channel that reads is connected, a connected channel holds its port,
    and so does one that holds a line reader or a writer.  This is so
    after any run of [connect], [disconnect], [startReading],
    [stopReading], [refreshDeviceInfo] and [clearData] on a new channel in
    which each call has returned before the next began and no restart of
    the reading loop was asked for, and at the point where one more call
    returns or hangs.  (Of calls that overlap, one resuming after a later
    one has begun, nothing is stated.) *)
Theorem channel_flags_and_handles_agree
    (parseFloat : jsstring -> number) (c : SerialChannel.t) :
  settled_channel parseFloat c -> handles_consistent c.
Proof.
  apply settled_channel_handles.
Qed.

(** A channel connected to a streaming device and asked to read, the
    reading loop still running. *)
Lemma channel_flags_and_handles_agree_witness :
  let c0 := snd (SerialChannel.connect
                   (SerialChannel.constructor 9600 Examples.device_streaming)) in
  let c := snd (SerialChannel.startReading Examples.parse_weight 3 c0) in
  SerialChannel.isReading c = true /\ handles_consistent c.
Proof.
  intros c0 c. split; [vm_compute; reflexivity|].
  apply (@channel_flags_and_handles_agree Examples.parse_weight c).
  exists 9600%Z, Examples.device_streaming, [SerialChannel.Connect], c0.
  split; [vm_compute; reflexivity|].
  right. exists (SerialChannel.StartReading 3). vm_compute. reflexivity.
Defined.

Ltac io_simpl_loop_in E :=
  cbv -[occurrences lit app trim truthy failure line clock attempted CR LF
        Metrics.processReading Metrics.updateMetrics Metrics.clear
        WeightFilter.filterWithMedian SerialChannel.read_loop Nat.add repeat
        length nth] in E.

Ltac io_rewrite_in E :=
  match goal with
  | H : failure _ _ _ = _ |- _ => rewrite H in E
  | H : forall data, failure _ (EvWrite data) _ = _ |- _ => rewrite H in E
  | H : line _ _ = _ |- _ => rewrite H in E
  end.

(** As [io_run], in a hypothesis and with the loop left as it is written. *)
Ltac io_run_loop_in E :=
  repeat (io_simpl_loop_in E; rewrite ?occurrences_snoc in E;
          io_simpl_loop_in E; io_rewrite_in E);
  io_simpl_loop_in E.

(** X12.  After [disconnect()], however it ends, the channel does not read:
    unlike the connection flag and the handles, which a failing release
    leaves as they were, [isReading] is cleared before anything is
    released.  On a channel that holds no line reader, no writer and no
    port (a new one, or one already disconnected) [disconnect()] performs no
    operation on the port and ends with the channel disconnected and its
    device fields [null]. *)
Theorem disconnect_ends_reading :
  (forall c : SerialChannel.t,
      SerialChannel.isReading (snd (SerialChannel.disconnect c)) = false) /\
  (forall c : SerialChannel.t,
      SerialChannel.lineReader c = false ->
      SerialChannel.writer c = false ->
      SerialChannel.port c = false ->
      let c' := snd (SerialChannel.disconnect c) in
      fst (SerialChannel.disconnect c) = Ret tt /\
      SerialChannel.env c' = SerialChannel.env c /\
      SerialChannel.isConnected c' = false /\
      SerialChannel.deviceId c' = None /\
      SerialChannel.deviceCapacity c' = None /\
      SerialChannel.deviceUnits c' = None /\
      last (SerialChannel.console c') (info, [])
        = (info, lit "Disconnected from serial device")).
Proof.
  split.
  - intros c. apply disconnect_post.
  - intros c Hlr Hwr Hport.
    destruct c as [baud isC isR port lr wr did dcap dun met win con tim w].
    cbn [SerialChannel.lineReader SerialChannel.writer SerialChannel.port] in *.
    subst lr wr port. cbv zeta.
    destruct (SerialChannel.disconnect _) as [r c'] eqn:E.
    destruct isR; io_run_loop_in E; injection E as <- <-;
      cbn [fst snd SerialChannel.env SerialChannel.isConnected SerialChannel.deviceId
           SerialChannel.deviceCapacity SerialChannel.deviceUnits
           SerialChannel.console];
      rewrite last_last; repeat split.
Qed.

Lemma disconnect_ends_reading_witness :
  let c := SerialChannel.constructor 9600 Examples.device_streaming in
  let c' := snd (SerialChannel.disconnect c) in
  SerialChannel.isReading c' = false /\
  fst (SerialChannel.disconnect c) = Ret tt /\
  trace (SerialChannel.env c') = [].
Proof.
  split; [apply (proj1 disconnect_ends_reading)|].
  destruct (proj2 disconnect_ends_reading
              (SerialChannel.constructor 9600 Examples.device_streaming)
              eq_refl eq_refl eq_refl) as [H0 [H1 _]].
  split; [exact H0|]. rewrite H1. reflexivity.
Defined.

(** ** Commands on a channel that lacks a handle *)

(** X13.  [sendCommand] checks the writer before it does anything and the
    line reader only after the command is written.  Without a writer it
    throws at once and leaves the channel as it is, without a log line.
    With a writer and no line reader the command is written all the same;
    the call then throws, and both the writing and the error are logged.  A
    handshake on such a channel writes [id], nothing more, and sets the
    device id to ['Error']. *)
Theorem sendCommand_checks_the_reader_after_writing
    (c : SerialChannel.t) (command : jsstring) :
  let w := SerialChannel.env c in
  (SerialChannel.writer c = false ->
   SerialChannel.sendCommand command c
     = (Throw (Error (lit "Writer not available")), c)) /\
  (SerialChannel.writer c = true ->
   SerialChannel.lineReader c = false ->
   (forall data, failure (dev w) (EvWrite data) (occurrences KWrite (trace w)) = None) ->
   let c' := snd (SerialChannel.sendCommand command c) in
   let c'' := snd (SerialChannel.getDeviceInfo c) in
   fst (SerialChannel.sendCommand command c)
     = Throw (Error (lit "Line reader not available")) /\
   trace (SerialChannel.env c') = trace w ++ [EvWrite (command ++ [CR])] /\
   SerialChannel.console c'
     = SerialChannel.console c ++
       [(debug, lit "Command sent: " ++ command);
        (error_, lit "Error sending command " ++ command ++ lit ": "
                   ++ lit "Line reader not available")] /\
   fst (SerialChannel.getDeviceInfo c) = Ret tt /\
   trace (SerialChannel.env c'') = trace w ++ [EvWrite (lit "id" ++ [CR])] /\
   SerialChannel.deviceId c'' = Some (lit "Error")).
Proof.
  cbv zeta.
  destruct c as [baud isC isR port lr wr did dcap dun met win con tim [dv tr tk]].
  cbn [SerialChannel.env SerialChannel.writer SerialChannel.lineReader dev trace].
  split.
  - intros ->. reflexivity.
  - intros -> -> Hw.
    destruct (SerialChannel.sendCommand command _) as [r1 c1] eqn:E1.
    destruct (SerialChannel.getDeviceInfo _) as [r2 c2] eqn:E2.
    io_run_loop_in E1. io_run_loop_in E2.
    injection E1 as <- <-. injection E2 as <- <-.
    cbn [fst snd SerialChannel.env SerialChannel.console SerialChannel.deviceId trace].
    rewrite <- !app_assoc. repeat split.
Qed.

Lemma sendCommand_checks_the_reader_after_writing_witness :
  let c := SerialChannel.set_lineReader false
             (Examples.connected_channel Examples.device_streaming) in
  fst (SerialChannel.sendCommand (lit "wc") c)
    = Throw (Error (lit "Line reader not available")) /\
  trace (SerialChannel.env (snd (SerialChannel.sendCommand (lit "wc") c)))
    = [EvWrite (lit "wc" ++ [CR])].
Proof.
  destruct (proj2 (@sendCommand_checks_the_reader_after_writing
              (SerialChannel.set_lineReader false
                 (Examples.connected_channel Examples.device_streaming))
              (lit "wc"))
            eq_refl eq_refl (fun _ => eq_refl)) as [H1 [H2 _]].
  split; [exact H1|exact H2].
Defined.

(** ** What the reading loop makes of the lines it reads *)

Section ReadingLoop.

#[local] Existing Instance SerialChannel.t_world.

Variable parseFloat : jsstring -> number.

Lemma map_push_capped (A B : Type) (f : A -> B) (cap : nat) (l : list A) (x : A) :
  map f (push_capped cap l x) = push_capped cap (map f l) (f x).
Proof.
  unfold push_capped. rewrite !length_app, length_map. simpl length.
  destruct (cap <? length l + 1).
  - change (map f l ++ [f x]) with (map f l ++ map f [x]).
    rewrite <- map_app. unfold shift. destruct (l ++ [x]); reflexivity.
  - rewrite map_app. reflexivity.
Qed.

(** One turn of the loop: a line that makes no reading changes nothing;
    one that does goes through the median filter into the readings. *)
Lemma process_line_effect (value : jsstring) (c : SerialChannel.t) :
  let c' := snd (SerialChannel.process_line parseFloat value c) in
  let filtered :=
    WeightFilter.filterWithMedian (SerialChannel.weightWindow c)
                                  (parseFloat (trim value)) in
  fst (SerialChannel.process_line parseFloat value c) = Ret tt /\
  SerialChannel.isReading c' = SerialChannel.isReading c /\
  SerialChannel.timers c' = SerialChannel.timers c /\
  SerialChannel.console c' = SerialChannel.console c /\
  trace (SerialChannel.env c') = trace (SerialChannel.env c) /\
  dev (SerialChannel.env c') = dev (SerialChannel.env c) /\
  SerialChannel.weightWindow c' =
    (if is_weight_line parseFloat value then snd filtered
     else SerialChannel.weightWindow c) /\
  map Metrics.weight (Metrics.readings (SerialChannel.metrics c')) =
    (if is_weight_line parseFloat value
     then push_capped 1000
            (map Metrics.weight (Metrics.readings (SerialChannel.metrics c)))
            (fst filtered)
     else map Metrics.weight (Metrics.readings (SerialChannel.metrics c))).
Proof.
  cbv zeta. unfold SerialChannel.process_line, is_weight_line.
  destruct (truthy value && truthy (trim value)); [|repeat split].
  cbn [andb].
  destruct (negb (isNaN (parseFloat (trim value)))); [|repeat split].
  unfold SerialChannel.filterWithMedian, SerialChannel.processReading,
    SerialChannel.updateMetrics, bind, get, modify, ret, Date_now.
  destruct (WeightFilter.filterWithMedian _ _) as [median window].
  cbn [fst snd SerialChannel.isReading SerialChannel.timers SerialChannel.console
       SerialChannel.env SerialChannel.weightWindow SerialChannel.metrics
       SerialChannel.set_metrics SerialChannel.set_weightWindow
       world_of with_world SerialChannel.t_world SerialChannel.set_env trace dev].
  repeat (split; [reflexivity|]).
  rewrite updateMetrics_readings.
  change (Metrics.readings (Metrics.processReading ?w ?l ?ts ?now ?m))
    with (push_capped 1000 (Metrics.readings m) (Metrics.mkReading w l ts)).
  apply map_push_capped.
Qed.

(** The loop on a stream that yields [lines] and is then done. *)
Lemma read_loop_lines (lines : list jsstring) :
  forall (c : SerialChannel.t) (fuel : nat),
    let d := dev (SerialChannel.env c) in
    let nr := occurrences KRead (trace (SerialChannel.env c)) in
    SerialChannel.isReading c = true ->
    length lines < fuel ->
    (forall k, failure d EvRead (nr + k) = None) ->
    (forall i, i < length lines -> line d (nr + i) = ReadValue (nth i lines [])) ->
    line d (nr + length lines) = ReadDone ->
    let c' := snd (SerialChannel.read_loop parseFloat fuel c) in
    let filtered :=
      WeightFilter.push_all (SerialChannel.weightWindow c)
                            (weights_of parseFloat lines) in
    fst (SerialChannel.read_loop parseFloat fuel c) = Ret tt /\
    SerialChannel.isReading c' = true /\
    SerialChannel.timers c' = SerialChannel.timers c /\
    SerialChannel.console c' =
      SerialChannel.console c ++ [(warning, lit "Serial stream ended")] /\
    trace (SerialChannel.env c') =
      trace (SerialChannel.env c) ++ repeat EvRead (S (length lines)) /\
    SerialChannel.weightWindow c' = snd filtered /\
    map Metrics.weight (Metrics.readings (SerialChannel.metrics c')) =
      fold_left (push_capped 1000) (fst filtered)
        (map Metrics.weight (Metrics.readings (SerialChannel.metrics c))).
Proof.
  induction lines as [|l rest IH]; intros c fuel d nr HisR Hfuel Hfail Hline Hdone.
  - destruct fuel as [|fuel]; [simpl in Hfuel; lia|].
    subst d nr. simpl in Hdone. rewrite Nat.add_0_r in Hdone.
    specialize (Hfail 0). rewrite Nat.add_0_r in Hfail.
    cbv zeta. cbn [SerialChannel.read_loop].
    destruct c as [baud isC isR port lr wr did dcap dun met win con tim [dv tr tk]].
    cbv [SerialChannel.env SerialChannel.isReading dev trace] in HisR, Hdone, Hfail.
    subst isR.
    cbv [bind get read SerialChannel.log modify world_of with_world
         SerialChannel.t_world SerialChannel.env SerialChannel.isReading dev trace
         record_event].
    rewrite Hfail, Hdone. repeat split.
  - destruct fuel as [|fuel]; [simpl in Hfuel; lia|].
    assert (Hl : line d nr = ReadValue l).
    { rewrite <- (Nat.add_0_r nr). apply (Hline 0). simpl. lia. }
    pose proof (Hfail 0) as Hf0. rewrite Nat.add_0_r in Hf0.
    subst d nr. cbv zeta.
    assert (Eread : @read SerialChannel.t _ c =
                    (Ret (Some l), record_event EvRead c)).
    { unfold read. cbn [world_of SerialChannel.t_world]. rewrite Hf0, Hl. reflexivity. }
    set (c1 := record_event EvRead c) in *.
    assert (Hc1 : SerialChannel.isReading c1 = SerialChannel.isReading c /\
                  SerialChannel.timers c1 = SerialChannel.timers c /\
                  SerialChannel.console c1 = SerialChannel.console c /\
                  trace (SerialChannel.env c1) = trace (SerialChannel.env c) ++ [EvRead] /\
                  dev (SerialChannel.env c1) = dev (SerialChannel.env c) /\
                  SerialChannel.weightWindow c1 = SerialChannel.weightWindow c /\
                  SerialChannel.metrics c1 = SerialChannel.metrics c).
    { unfold c1. destruct c. repeat split. }
    clearbody c1. destruct Hc1 as [A1 [A2 [A3 [A4 [A5 [A6 A7]]]]]].
    pose proof (process_line_effect l c1) as HP. cbv zeta in HP.
    assert (Estep : SerialChannel.read_loop parseFloat (S fuel) c =
                    SerialChannel.read_loop parseFloat fuel
                      (snd (SerialChannel.process_line parseFloat l c1))).
    { cbn [SerialChannel.read_loop]. unfold bind, get. rewrite HisR, Eread.
      destruct (SerialChannel.process_line parseFloat l c1) as [r c2].
      cbn [fst snd] in *. destruct HP as [-> _]. reflexivity. }
    rewrite Estep. clear Estep.
    set (c2 := snd (SerialChannel.process_line parseFloat l c1)) in *.
    clearbody c2.
    destruct HP as [_ [B1 [B2 [B3 [B4 [B5 [B6 B7]]]]]]].
    assert (Hocc : occurrences KRead (trace (SerialChannel.env c2))
                   = S (occurrences KRead (trace (SerialChannel.env c)))).
    { rewrite B4, A4, occurrences_snoc. reflexivity. }
    specialize (IH c2 fuel). cbv zeta in IH.
    rewrite B5, A5, Hocc in IH.
    destruct IH as [I0 [I1 [I2 [I3 [I4 [I5 I6]]]]]].
    + rewrite B1, A1. exact HisR.
    + simpl in Hfuel. lia.
    + intros k. replace (S (occurrences KRead (trace (SerialChannel.env c))) + k)
        with (occurrences KRead (trace (SerialChannel.env c)) + S k) by lia.
      apply Hfail.
    + intros i Hi.
      replace (S (occurrences KRead (trace (SerialChannel.env c))) + i)
        with (occurrences KRead (trace (SerialChannel.env c)) + S i) by lia.
      apply (Hline (S i)). simpl. lia.
    + replace (S (occurrences KRead (trace (SerialChannel.env c))) + length rest)
        with (occurrences KRead (trace (SerialChannel.env c)) + length (l :: rest))
        by (simpl; lia).
      exact Hdone.
    + split; [exact I0|]. split; [exact I1|].
      split; [rewrite I2, B2, A2; reflexivity|].
      split; [rewrite I3, B3, A3; reflexivity|].
      split; [rewrite I4, B4, A4, <- app_assoc; reflexivity|].
      rewrite I5, I6, B6, B7, A6, A7.
      unfold weights_of. cbn [filter].
      destruct (is_weight_line parseFloat l).
      * cbn [map WeightFilter.push_all].
        destruct (WeightFilter.filterWithMedian (SerialChannel.weightWindow c)
                                                (parseFloat (trim l))) as [out w1].
        cbn [fst snd].
        destruct (WeightFilter.push_all w1
                    (map (fun value => parseFloat (trim value))
                         (filter (is_weight_line parseFloat) rest))) as [outs w2].
        split; reflexivity.
      * split; reflexivity.
Qed.

End ReadingLoop.

(** X14.  [startReading()] on a stream that yields a first line, then
    [lines], and is then done.  The first line goes to the [wc] command as
    its response and makes no reading, weight or not.  Of [lines], those
    that are not blank and in which [parseFloat] finds a number go through
    the median filter, in order, and what the filter returns is pushed on
    the readings, capped at 1000; the other lines are read and dropped.
    When the stream is done the call returns with a warning, no restart is
    scheduled, and [isReading] is still [true]. *)
Theorem startReading_records_the_weight_lines
    (parseFloat : jsstring -> number) (c : SerialChannel.t)
    (response : jsstring) (lines : list jsstring) (fuel : nat) :
  let w := SerialChannel.env c in
  let nr := occurrences KRead (trace w) in
  SerialChannel.isConnected c = true ->
  SerialChannel.isReading c = false ->
  SerialChannel.writer c = true ->
  SerialChannel.lineReader c = true ->
  (forall data, failure (dev w) (EvWrite data) (occurrences KWrite (trace w)) = None) ->
  (forall k, failure (dev w) EvRead (nr + k) = None) ->
  line (dev w) nr = ReadValue response ->
  (forall i, i < length lines ->
             line (dev w) (S nr + i) = ReadValue (nth i lines [])) ->
  line (dev w) (S nr + length lines) = ReadDone ->
  length lines < fuel ->
  let c' := snd (SerialChannel.startReading parseFloat fuel c) in
  let filtered :=
    WeightFilter.push_all (SerialChannel.weightWindow c)
                          (weights_of parseFloat lines) in
  fst (SerialChannel.startReading parseFloat fuel c) = Ret tt /\
  SerialChannel.isReading c' = true /\
  SerialChannel.timers c' = SerialChannel.timers c /\
  last (SerialChannel.console c') (info, []) = (warning, lit "Serial stream ended") /\
  trace (SerialChannel.env c') =
    trace w ++ [EvWrite (lit "wc" ++ [CR]); EvRead] ++ repeat EvRead (S (length lines)) /\
  SerialChannel.weightWindow c' = snd filtered /\
  map Metrics.weight (Metrics.readings (SerialChannel.metrics c')) =
    fold_left (push_capped 1000) (fst filtered)
      (map Metrics.weight (Metrics.readings (SerialChannel.metrics c))).
Proof.
  intros w nr HisC HisR Hwr Hlr Hwrite Hfail Hresp Hlines Hdone Hfuel.
  subst w nr.
  destruct c as [baud isC isR port lr wr did dcap dun met win con tim [dv tr tk]].
  cbn [SerialChannel.env SerialChannel.isConnected SerialChannel.isReading
       SerialChannel.writer SerialChannel.lineReader SerialChannel.timers
       SerialChannel.weightWindow SerialChannel.metrics dev trace] in *.
  subst isC isR wr lr.
  pose proof (Hfail 0) as Hf0. rewrite Nat.add_0_r in Hf0.
  cbv zeta.
  destruct (SerialChannel.startReading parseFloat fuel _) as [r c'] eqn:E.
  io_run_loop_in E.
  match type of E with
  | context [SerialChannel.read_loop parseFloat fuel ?s] =>
      pose proof (@read_loop_lines parseFloat lines s fuel) as HL;
      destruct (SerialChannel.read_loop parseFloat fuel s) as [r1 c1]
  end.
  cbv zeta in HL.
  cbn [SerialChannel.env SerialChannel.isReading SerialChannel.timers
       SerialChannel.console SerialChannel.weightWindow SerialChannel.metrics
       dev trace fst snd] in HL.
  rewrite !occurrences_snoc in HL. cbv [kind_of kind_eqb] in HL.
  destruct HL as [-> [L1 [L2 [L3 [L4 [L5 L6]]]]]];
    [reflexivity | exact Hfuel | | exact Hlines | exact Hdone |].
  - intros k. replace (S (occurrences KRead tr) + k)
      with (occurrences KRead tr + S k) by lia. apply Hfail.
  - injection E as <- <-. cbn [fst snd].
    split; [reflexivity|]. split; [exact L1|]. split; [exact L2|].
    split; [rewrite L3; apply last_last|].
    split; [rewrite L4, <- !app_assoc; reflexivity|].
    split; [exact L5|exact L6].
Qed.

Lemma startReading_records_the_weight_lines_witness :
  let d := mkTransport
             (fun _ _ => None)
             (fun n =>
                match n with
                | 0 => ReadValue (lit "12.5")
                | 1 => ReadValue (lit "12.5")
                | 2 => ReadValue (lit "abc")
                | 3 => ReadValue (lit "12.5")
                | _ => ReadDone
                end)
             (fun n => Z.of_nat n) in
  let c' := snd (SerialChannel.startReading Examples.parse_weight 4
                   (Examples.connected_channel d)) in
  SerialChannel.isReading c' = true /\
  map Metrics.weight (Metrics.readings (SerialChannel.metrics c'))
    = [Some (Fin (25 # 2)); Some (Fin (25 # 2))].
Proof.
  intros d c'.
  assert (Hlines : forall i, i < 3 ->
            line d (1 + i) = ReadValue (nth i [lit "12.5"; lit "abc"; lit "12.5"] [])).
  { intros [|[|[|i]]] Hi; [reflexivity|reflexivity|reflexivity|lia]. }
  destruct (@startReading_records_the_weight_lines
              Examples.parse_weight (Examples.connected_channel d) (lit "12.5")
              [lit "12.5"; lit "abc"; lit "12.5"] 4
              eq_refl eq_refl eq_refl eq_refl (fun _ => eq_refl) (fun _ => eq_refl)
              eq_refl Hlines eq_refl (le_n 4))
    as [_ [H1 [_ [_ [_ [_ H6]]]]]].
  split; [exact H1|exact H6].
Defined.

(** ** A reading that cannot start *)

(** X15.  [startReading()] on a connected channel whose [wc] command cannot
    be sent, for want of a writer or because the write fails: the call
    returns normally, [isReading] stays [true], nothing is read, and one
    restart of the loop is scheduled 100 ms later. *)
Theorem startReading_schedules_a_restart (parseFloat : jsstring -> number)
    (c : SerialChannel.t) (fuel : nat) (e : error) :
  let w := SerialChannel.env c in
  let c' := snd (SerialChannel.startReading parseFloat fuel c) in
  SerialChannel.isConnected c = true ->
  SerialChannel.isReading c = false ->
  (SerialChannel.writer c = false /\ e = Error (lit "Writer not available") \/
   SerialChannel.writer c = true /\
   failure (dev w) (EvWrite (lit "wc" ++ [CR])) (occurrences KWrite (trace w)) = Some e) ->
  fst (SerialChannel.startReading parseFloat fuel c) = Ret tt /\
  SerialChannel.isReading c' = true /\
  SerialChannel.timers c' = SerialChannel.timers c ++ [100%Z] /\
  occurrences KRead (trace (SerialChannel.env c')) = occurrences KRead (trace w) /\
  last (SerialChannel.console c') (info, [])
    = (error_, lit "Error in readWeightContinuous: " ++ message e) /\
  SerialChannel.metrics c' = SerialChannel.metrics c.
Proof.
  cbv zeta.
  destruct c as [baud isC isR port lr wr did dcap dun met win con tim [dv tr tk]].
  cbn [SerialChannel.env SerialChannel.isConnected SerialChannel.isReading
       SerialChannel.writer SerialChannel.timers SerialChannel.metrics dev trace].
  intros -> -> Hcase.
  destruct (SerialChannel.startReading parseFloat fuel _) as [r c'] eqn:E.
  destruct Hcase as [[-> ->] | [-> Hw]].
  - io_run_loop_in E. injection E as <- <-.
    cbn. rewrite last_last. repeat split.
  - io_run_loop_in E. injection E as <- <-.
    cbn [fst snd SerialChannel.isReading SerialChannel.timers SerialChannel.env
         SerialChannel.console SerialChannel.metrics trace].
    rewrite last_last, occurrences_snoc. repeat split.
Qed.

Lemma startReading_schedules_a_restart_witness :
  let c := SerialChannel.set_writer false
             (Examples.connected_channel Examples.device_streaming) in
  let c' := snd (SerialChannel.startReading Examples.parse_weight 5 c) in
  SerialChannel.isReading c' = true /\
  SerialChannel.timers c' = [100%Z] /\
  trace (SerialChannel.env c') = [].
Proof.
  destruct (@startReading_schedules_a_restart Examples.parse_weight
              (SerialChannel.set_writer false
                 (Examples.connected_channel Examples.device_streaming))
              5 (Error (lit "Writer not available")) eq_refl eq_refl
              (or_introl (conj eq_refl eq_refl)))
    as [_ [H1 [H2 _]]].
  split; [exact H1|]. split; [exact H2|reflexivity].
Defined.

(** ** What a channel writes *)

Section Wire.

#[local] Existing Instance SerialChannel.t_world.

Variable tr0 : list io_event.

Let I (c : SerialChannel.t) : Prop :=
  exists new, trace (SerialChannel.env c) = tr0 ++ new /\ Forall wire_ok new.

Lemma wire_perform (ev : io_event) : wire_ok ev -> preserves I (perform ev).
Proof.
  intros Hev s [new [E F]]. unfold perform, record_event.
  destruct (failure _ _ _); cbn [snd];
    (exists (new ++ [ev]); split;
     [destruct s; cbn in *; rewrite E, app_assoc; reflexivity
     |apply Forall_snoc; assumption]).
Qed.

Lemma wire_read : preserves I read.
Proof.
  intros s [new [E F]]. unfold read, record_event.
  destruct (failure _ _ _); [|destruct (line _ _)]; cbn [snd];
    (exists (new ++ [EvRead]); split;
     [destruct s; cbn in *; rewrite E, app_assoc; reflexivity
     |apply Forall_snoc; [assumption|exact Logic.I]]).
Qed.

Lemma wire_Date_now : preserves I Date_now.
Proof.
  intros s [new [E F]]. unfold Date_now. cbn [snd].
  exists new. split; [destruct s; cbn in *; exact E|exact F].
Qed.

Lemma wire_perform_actions parseFloat actions :
  forall c, I c -> I (SerialChannel.perform_actions parseFloat actions c).
Proof.
  apply frame_perform_actions; try (intros v s Hs; exact Hs).
  - intros s Hs. exact Hs.
  - intros command Hin. apply wire_perform. exists command. split; [exact Hin|reflexivity].
  - exact wire_read.
  - exact wire_Date_now.
  - intros ev Hev. apply wire_perform. destruct ev; try exact Logic.I.
    exfalso. exact (Hev data eq_refl).
Qed.

End Wire.

(** X16.  Whatever the page asks of a channel, in any state and on any
    device, the channel writes nothing to the port but its five commands
    ([id], [slc], [units], [wc] and the empty one), each followed by one
    carriage return, and what it did before stays in the record of its
    operations. *)
Theorem channel_writes_only_its_commands
    (parseFloat : jsstring -> number) (actions : list SerialChannel.action)
    (c : SerialChannel.t) :
  exists new,
    trace (SerialChannel.env (SerialChannel.perform_actions parseFloat actions c))
      = trace (SerialChannel.env c) ++ new /\
    Forall wire_ok new.
Proof.
  apply wire_perform_actions. exists []. split; [symmetry; apply app_nil_r|constructor].
Qed.

(** ** Commands of the single-channel page while it reads *)

(** X17.  While the single-channel page reads in the ['onread'] method, a
    command is written and no response is read for it: [sendCommand]
    returns the string ['sent'].  A handshake asked for at that moment
    therefore sets the device id, the capacity and the units to ['sent'],
    and [tare()] writes [ct0] and reads nothing. *)
Theorem page_commands_while_reading (p : SerialPerformanceTest.t) :
  let w := SerialPerformanceTest.env p in
  let nw := occurrences KWrite (trace w) in
  SerialPerformanceTest.writer p = true ->
  SerialPerformanceTest.isReading p = true ->
  SerialPerformanceTest.currentMethod p = SerialPerformanceTest.onread ->
  (forall data k, k < 3 -> failure (dev w) (EvWrite data) (nw + k) = None) ->
  (forall command,
      fst (SerialPerformanceTest.sendCommand command p) = Ret (Some (lit "sent")) /\
      trace (SerialPerformanceTest.env (snd (SerialPerformanceTest.sendCommand command p)))
        = trace w ++ [EvWrite (command ++ [CR])]) /\
  (let p' := snd (SerialPerformanceTest.getDeviceInfo p) in
   fst (SerialPerformanceTest.getDeviceInfo p) = Ret tt /\
   SerialPerformanceTest.deviceId p' = Some (lit "sent") /\
   SerialPerformanceTest.deviceCapacity p' = Some (lit "sent") /\
   SerialPerformanceTest.deviceUnits p' = Some (lit "sent") /\
   SerialPerformanceTest.deviceId_text (SerialPerformanceTest.elements p') = lit "sent" /\
   trace (SerialPerformanceTest.env p')
     = trace w ++ [EvWrite (lit "id" ++ [CR]); EvWrite (lit "slc" ++ [CR]);
                   EvWrite (lit "units" ++ [CR])]) /\
  (let p' := snd (SerialPerformanceTest.tare p) in
   fst (SerialPerformanceTest.tare p) = Ret tt /\
   trace (SerialPerformanceTest.env p') = trace w ++ [EvWrite (lit "ct0" ++ [CR])] /\
   last (SerialPerformanceTest.console p') (info, []) = (info, lit "Tare command sent")).
Proof.
  intros w nw Hwr HisR Hm Hw. subst w nw.
  open_page p. subst wr isR meth. destruct w' as [dv tr tk]. cbv [dev trace] in *.
  assert (Hw0 : forall data, failure dv (EvWrite data) (occurrences KWrite tr) = None).
  { intros data. rewrite <- (Nat.add_0_r (occurrences KWrite tr)). apply Hw. lia. }
  assert (Hw1 : forall data, failure dv (EvWrite data) (S (occurrences KWrite tr)) = None).
  { intros data. rewrite <- Nat.add_1_r. apply Hw. lia. }
  assert (Hw2 : forall data,
             failure dv (EvWrite data) (S (S (occurrences KWrite tr))) = None).
  { intros data. replace (S (S (occurrences KWrite tr)))
      with (occurrences KWrite tr + 2) by lia. apply Hw. lia. }
  clear Hw.
  split; [|split].
  - intros command.
    destruct (SerialPerformanceTest.sendCommand command _) as [r p'] eqn:E. revert E.
    io_run. io_finish.
  - destruct (SerialPerformanceTest.getDeviceInfo _) as [r p'] eqn:E. revert E.
    io_run. io_finish.
  - destruct (SerialPerformanceTest.tare _) as [r p'] eqn:E. revert E.
    io_run. intros E; injection E as <- <-. io_simpl.
    split; [reflexivity|]. split; [reflexivity|]. apply last_last.
Qed.

Lemma page_commands_while_reading_witness :
  let p := Examples.reading_page Examples.device_streaming in
  let p' := snd (SerialPerformanceTest.getDeviceInfo p) in
  SerialPerformanceTest.deviceId p' = Some (lit "sent") /\
  SerialPerformanceTest.deviceUnits p' = Some (lit "sent") /\
  occurrences KRead (trace (SerialPerformanceTest.env p')) = 0.
Proof.
  destruct (proj1 (proj2
    (@page_commands_while_reading
       (Examples.reading_page Examples.device_streaming)
       eq_refl eq_refl eq_refl (fun _ _ _ => eq_refl))))
    as [_ [H1 [_ [H3 _]]]].
  split; [exact H1|]. split; [exact H3|reflexivity].
Defined.

(** ** Clearing the data of the single-channel page *)

(** X18.  [clearData()] of the single-channel page empties the readings,
    the latencies, the timestamps and the window and shows 0 readings per
    second, but the latency figures and the total the page shows stay those
    of before the clearing: [updateMetrics] returns at once when there is no
    reading. *)
Theorem page_clearData_keeps_the_shown_metrics (p : SerialPerformanceTest.t) :
  let p' := snd (SerialPerformanceTest.clearData p) in
  let shown := SerialPerformanceTest.elements p in
  let shown' := SerialPerformanceTest.elements p' in
  SerialPerformanceTest.readings p' = [] /\
  SerialPerformanceTest.latencies p' = [] /\
  SerialPerformanceTest.readingsInLastSecond p' = [] /\
  SerialPerformanceTest.weightWindow p' = [] /\
  SerialPerformanceTest.readingsPerSecond p' = 0 /\
  SerialPerformanceTest.readingsPerSecond_shown shown' = Some 0 /\
  SerialPerformanceTest.totalReadings_shown shown'
    = SerialPerformanceTest.totalReadings_shown shown /\
  SerialPerformanceTest.avgLatency_shown shown'
    = SerialPerformanceTest.avgLatency_shown shown /\
  SerialPerformanceTest.minLatency_shown shown'
    = SerialPerformanceTest.minLatency_shown shown /\
  SerialPerformanceTest.maxLatency_shown shown'
    = SerialPerformanceTest.maxLatency_shown shown.
Proof. destruct p as [? ? ? ? ? ? ? ? ? ? ? ? ? ? ? ? els ? ? ?]. destruct els. repeat split. Qed.

(** ** The registry of channels *)

Section Registry.

Import MultiChannelSerialTest.

Variable parseFloat : jsstring -> number.

Lemma map_get_In (A : Type) id (m : list (nat * A)) v :
  map_get id m = Some v -> In id (map fst m).
Proof.
  induction m as [|[k x] rest IH]; simpl; [discriminate|].
  destruct (Nat.eqb_spec k id) as [->|Hk]; [left; reflexivity|].
  intros H. right. apply IH. exact H.
Qed.

Lemma In_map_get (A : Type) id (m : list (nat * A)) :
  In id (map fst m) -> exists v, map_get id m = Some v.
Proof.
  induction m as [|[k x] rest IH]; simpl; [contradiction|].
  destruct (Nat.eqb_spec k id) as [->|Hk]; [eauto|].
  intros [H|H]; [contradiction|apply IH; exact H].
Qed.

(** [map.set] on a key the map has leaves the keys as they are; on a new
    key it adds the key at the end. *)
Lemma map_set_keys (A : Type) id (v : A) (m : list (nat * A)) :
  map fst (map_set id v m) =
  if in_dec Nat.eq_dec id (map fst m) then map fst m else map fst m ++ [id].
Proof.
  induction m as [|[k x] rest IH]; simpl; [reflexivity|].
  destruct (Nat.eqb_spec k id) as [->|Hk].
  - destruct (Nat.eq_dec id id) as [E|E]; [reflexivity|contradiction].
  - simpl. rewrite IH.
    destruct (Nat.eq_dec k id) as [E|E]; [contradiction|].
    destruct (in_dec Nat.eq_dec id (map fst rest)); reflexivity.
Qed.

Lemma map_get_set (A : Type) id id' (v : A) (m : list (nat * A)) :
  map_get id' (map_set id v m) = if id =? id' then Some v else map_get id' m.
Proof.
  induction m as [|[k x] rest IH]; simpl.
  - destruct (id =? id'); reflexivity.
  - destruct (Nat.eqb_spec k id) as [->|Hk]; simpl.
    + destruct (id =? id'); reflexivity.
    + rewrite IH. destruct (Nat.eqb_spec k id') as [->|Hk'].
      * destruct (Nat.eqb_spec id id') as [E|_]; [congruence|reflexivity].
      * reflexivity.
Qed.

Lemma map_delete_keys (A : Type) id (m : list (nat * A)) (P : nat -> Prop) :
  (NoDup (map fst m) -> NoDup (map fst (map_delete id m)) /\
                        ~ In id (map fst (map_delete id m))) /\
  (Forall P (map fst m) -> Forall P (map fst (map_delete id m))).
Proof.
  induction m as [|[k x] rest [IH1 IH2]]; simpl.
  - split; [intros H; split; [exact H|tauto]|auto].
  - destruct (Nat.eqb_spec k id) as [->|Hk]; simpl.
    + split; intros H; inversion H; subst; auto.
    + split; intros H; inversion H as [|? ? H1 H2]; subst.
      * destruct (IH1 H2) as [N1 N2]. split.
        -- constructor; [|exact N1].
           intros Hin. apply H1. clear - Hin.
           induction rest as [|[k' x'] rest IH]; simpl in *; [contradiction|].
           destruct (k' =? id); simpl in *; tauto.
        -- intros [E|Hin]; [contradiction|exact (N2 Hin)].
      * constructor; [exact H1|apply IH2; exact H2].
Qed.

(** A method of a channel changes no key of the registry and not the next
    id. *)
Lemma on_channel_keeps_keys id (m : M SerialChannel.t unit) (r : t) :
  ids (snd (on_channel id m r)) = ids r /\
  nextChannelId (snd (on_channel id m r)) = nextChannelId r.
Proof.
  unfold on_channel, ids.
  destruct (map_get id (channels r)) as [ch|] eqn:E; [|split; reflexivity].
  destruct (m ch) as [res ch']. cbn [snd channels set_channels nextChannelId].
  rewrite map_set_keys.
  destruct (in_dec Nat.eq_dec id (map fst (channels r))) as [_|N];
    [split; reflexivity|].
  exfalso. apply N. apply (map_get_In _ _ E).
Qed.

Section Keys.

(** A property of the keys and of the next id. *)
Variable Q : list nat -> nat -> Prop.

Let I (r : t) : Prop := Q (ids r) (nextChannelId r).

Lemma keys_on_channel id m : preserves I (on_channel id m).
Proof.
  intros r Hr. unfold I.
  rewrite (proj1 (on_channel_keeps_keys id m r)), (proj2 (on_channel_keeps_keys id m r)).
  exact Hr.
Qed.

Lemma keys_not_awaited m : preserves I m -> preserves I (not_awaited m).
Proof. intros Hm r Hr. apply Hm. exact Hr. Qed.

Lemma keys_for_each l body :
  (forall id, preserves I (body id)) -> preserves I (for_each l body).
Proof.
  intros Hb. induction l as [|id rest IH]; simpl.
  - apply preserves_ret.
  - apply preserves_bind; [apply Hb|intros _; exact IH].
Qed.

End Keys.

Ltac keys_step Q :=
  match goal with
  | |- preserves _ (on_channel _ _) => apply (keys_on_channel Q)
  | |- preserves _ (not_awaited _) => apply (keys_not_awaited Q)
  | |- preserves _ (for_each _ _) => apply (keys_for_each Q)
  | _ => preserves_step
  end.

Lemma registry_ok_perform_action a :
  preserves registry_ok (perform_action parseFloat a).
Proof.
  pose (Q := fun (l : list nat) (n : nat) => NoDup l /\ Forall (fun id => id < n) l).
  change registry_ok with (fun r => Q (ids r) (nextChannelId r)).
  destruct a; simpl.
  - (* addChannel *)
    set (I := fun r => Q (ids r) (nextChannelId r)).
    intros r Hr. unfold addChannel.
    unfold bind at 1, get at 1. cbv iota beta.
    destruct (maxChannels r <=? length (channels r)); [exact Hr|].
    unfold bind at 1, modify at 1. cbv iota beta.
    unfold bind at 1, get at 1. cbv iota beta.
    unfold bind at 1, modify at 1. cbv iota beta.
    unfold bind at 1, get at 1. cbv iota beta.
    match goal with
    | |- I (snd (when _ (not_awaited (on_channel ?id ?m)) ?r2)) =>
        assert (H2 : I r2)
    end.
    { destruct Hr as [Hd Hb].
      unfold I, Q, ids. cbn [channels set_channels set_nextChannelId nextChannelId].
      rewrite map_set_keys.
      assert (N : ~ In (nextChannelId r) (map fst (channels r))).
      { intros Hin. unfold ids in Hb. rewrite Forall_forall in Hb.
        specialize (Hb _ Hin). lia. }
      destruct (in_dec Nat.eq_dec _ _) as [Hin|Hin]; [contradiction|].
      split.
      - apply NoDup_app; [exact Hd|repeat constructor; auto|].
        intros x Hx [<-|[]]. exact (N Hx).
      - apply Forall_app. split.
        + eapply Forall_impl; [|exact Hb]. simpl. intros. lia.
        + repeat constructor. }
    revert H2. apply (@preserves_when _ I).
    apply keys_not_awaited. apply (keys_on_channel Q).
  - (* removeChannel *)
    unfold removeChannel.
    apply preserves_bind; [apply preserves_get|]. intros r0.
    destruct (map_get channelId (channels r0)); [|apply preserves_ret].
    apply preserves_bind; [apply keys_not_awaited; apply (keys_on_channel Q)|].
    intros _. apply preserves_modify. intros r [Hd Hb]. unfold ids in *.
    cbn [channels set_channels nextChannelId]. split.
    + apply (proj1 (map_delete_keys channelId _ (fun _ => True))). exact Hd.
    + apply (proj2 (map_delete_keys channelId _ _)). exact Hb.
  - (* removeAllChannels *)
    unfold removeAllChannels.
    apply preserves_when. apply preserves_bind; [apply preserves_get|]. intros r0.
    apply preserves_bind.
    + apply (keys_for_each Q). intros id. apply keys_not_awaited.
      apply (keys_on_channel Q).
    + intros _. apply preserves_modify. intros r _. split; constructor.
  - unfold refreshChannels. repeat keys_step Q.
  - unfold connectAllChannels. repeat keys_step Q.
  - unfold disconnectAllChannels. repeat keys_step Q.
  - unfold startAllReading. repeat keys_step Q.
  - unfold stopAllReading. repeat keys_step Q.
  - unfold clearAllData. repeat keys_step Q.
  - unfold startGlobalTest, clearAllData, startAllReading. repeat keys_step Q.
  - unfold stopGlobalTest, stopAllReading. repeat keys_step Q.
  - apply (keys_on_channel Q).
Qed.

Lemma nextChannelId_perform_action a (r : t) :
  nextChannelId r <= nextChannelId (snd (perform_action parseFloat a r)).
Proof.
  pose (Q := fun (_ : list nat) (n : nat) => nextChannelId r <= n).
  set (I := fun r' => Q (ids r') (nextChannelId r')).
  assert (H : I r) by (unfold I, Q; lia).
  change (I (snd (perform_action parseFloat a r))).
  destruct a; simpl.
  - unfold addChannel.
    unfold bind at 1, get at 1. cbv iota beta.
    destruct (maxChannels r <=? length (channels r)); [exact H|].
    unfold bind at 1, modify at 1. cbv iota beta.
    unfold bind at 1, get at 1. cbv iota beta.
    unfold bind at 1, modify at 1. cbv iota beta.
    unfold bind at 1, get at 1. cbv iota beta.
    match goal with
    | |- I (snd (when _ (not_awaited (on_channel ?id ?m)) ?r2)) =>
        assert (H2 : I r2)
    end.
    { unfold I, Q in *. cbn [nextChannelId set_channels set_nextChannelId]. lia. }
    revert H2. apply (@preserves_when _ I).
    apply keys_not_awaited. apply (keys_on_channel Q).
  - revert H. generalize r at 1 2. change (preserves I (removeChannel channelId)).
    unfold removeChannel. repeat keys_step Q.
  - revert H. generalize r at 1 2. change (preserves I (removeAllChannels confirmed)).
    unfold removeAllChannels. repeat keys_step Q.
  - revert H. generalize r at 1 2. change (preserves I (refreshChannels)).
    unfold refreshChannels. repeat keys_step Q.
  - revert H. generalize r at 1 2. change (preserves I (connectAllChannels)).
    unfold connectAllChannels. repeat keys_step Q.
  - revert H. generalize r at 1 2. change (preserves I (disconnectAllChannels)).
    unfold disconnectAllChannels. repeat keys_step Q.
  - revert H. generalize r at 1 2. change (preserves I (startAllReading parseFloat fuel)).
    unfold startAllReading. repeat keys_step Q.
  - revert H. generalize r at 1 2. change (preserves I (stopAllReading)).
    unfold stopAllReading. repeat keys_step Q.
  - revert H. generalize r at 1 2. change (preserves I (clearAllData)).
    unfold clearAllData. repeat keys_step Q.
  - revert H. generalize r at 1 2. change (preserves I (startGlobalTest parseFloat fuel)).
    unfold startGlobalTest, clearAllData, startAllReading. repeat keys_step Q.
  - revert H. generalize r at 1 2. change (preserves I stopGlobalTest).
    unfold stopGlobalTest, stopAllReading. repeat keys_step Q.
  - revert H. generalize r at 1 2. apply (keys_on_channel Q).
Qed.

Lemma registry_ok_perform_actions actions :
  forall r, registry_ok r -> registry_ok (perform_actions parseFloat actions r).
Proof.
  induction actions as [|a rest IH]; intros r Hr; [exact Hr|].
  simpl. apply IH. apply registry_ok_perform_action. exact Hr.
Qed.

Lemma nextChannelId_perform_actions actions :
  forall r, nextChannelId r <= nextChannelId (perform_actions parseFloat actions r).
Proof.
  induction actions as [|a rest IH]; intros r; [apply Nat.le_refl|].
  simpl. etransitivity; [apply (nextChannelId_perform_action a)|apply IH].
Qed.

(** *** Stopping all channels *)

(** What [stopAllReading] does with one channel. *)
Let stop_one (id : nat) : M t unit :=
  r <- get;;
  match map_get id (channels r) with
  | Some channel =>
      when (SerialChannel.isReading channel)
        (not_awaited (on_channel id SerialChannel.stopReading))
  | None => ret tt
  end.

Lemma stop_one_effect id (r : t) :
  fst (stop_one id r) = Ret tt /\
  (forall ch, map_get id (channels (snd (stop_one id r))) = Some ch ->
              SerialChannel.isReading ch = false) /\
  (forall id', id' <> id ->
               map_get id' (channels (snd (stop_one id r))) = map_get id' (channels r)).
Proof.
  unfold stop_one, bind, get.
  destruct (map_get id (channels r)) as [channel|] eqn:E.
  - destruct (SerialChannel.isReading channel) eqn:HisR; cbn [when].
    + unfold not_awaited, on_channel. rewrite E.
      pose proof (stopReading_fields channel) as [Hstop _].
      destruct (SerialChannel.stopReading channel) as [res channel'].
      cbn [fst snd channels set_channels] in *.
      split; [reflexivity|]. split.
      * intros ch. rewrite map_get_set, Nat.eqb_refl. intros [= <-]. exact Hstop.
      * intros id' Hne. rewrite map_get_set.
        destruct (Nat.eqb_spec id id') as [->|_]; [contradiction|reflexivity].
    + cbn [fst snd ret]. split; [reflexivity|]. split.
      * intros ch. rewrite E. intros [= <-]. exact HisR.
      * reflexivity.
  - cbn [fst snd ret]. split; [reflexivity|]. split.
    + intros ch. rewrite E. discriminate.
    + reflexivity.
Qed.

Lemma stop_each_effect l :
  forall r,
    fst (for_each l stop_one r) = Ret tt /\
    (forall id ch, In id l ->
                   map_get id (channels (snd (for_each l stop_one r))) = Some ch ->
                   SerialChannel.isReading ch = false) /\
    (forall id, ~ In id l ->
                map_get id (channels (snd (for_each l stop_one r)))
                = map_get id (channels r)).
Proof.
  induction l as [|id rest IH]; intros r.
  - simpl. split; [reflexivity|]. split; [contradiction|reflexivity].
  - cbn [for_each]. unfold bind.
    destruct (stop_one_effect id r) as [E0 [E1 E2]].
    destruct (stop_one id r) as [res r1]. cbn [fst snd] in *. subst res.
    destruct (IH r1) as [I0 [I1 I2]].
    split; [exact I0|]. split.
    + intros id0 ch Hin Hget.
      destruct (in_dec Nat.eq_dec id0 rest) as [Hr|Hr].
      * exact (I1 id0 ch Hr Hget).
      * destruct Hin as [<-|Hin]; [|contradiction].
        rewrite I2 in Hget by exact Hr. exact (E1 ch Hget).
    + intros id0 Hn. rewrite I2 by (intros H; apply Hn; right; exact H).
      apply E2. intros ->. apply Hn. left. reflexivity.
Qed.

Lemma In_map_get_NoDup (A : Type) k (v : A) (m : list (nat * A)) :
  NoDup (map fst m) -> In (k, v) m -> map_get k m = Some v.
Proof.
  induction m as [|[k' x] rest IH]; simpl; [contradiction|].
  intros Hd [E|Hin].
  - injection E as -> ->. rewrite Nat.eqb_refl. reflexivity.
  - inversion Hd as [|? ? Hn Hd']; subst.
    destruct (Nat.eqb_spec k' k) as [->|_].
    + exfalso. apply Hn. apply (in_map fst) in Hin. exact Hin.
    + apply IH; assumption.
Qed.

Lemma stopAllReading_effect (r : t) :
  NoDup (ids r) ->
  fst (stopAllReading r) = Ret tt /\
  ids (snd (stopAllReading r)) = ids r /\
  Forall (fun kv => SerialChannel.isReading (snd kv) = false)
         (channels (snd (stopAllReading r))).
Proof.
  intros Hd. unfold stopAllReading. unfold bind at 1, get at 1. cbv iota beta.
  change (fun id : nat =>
            r0 <- get;;
            match map_get id (channels r0) with
            | Some channel =>
                when (SerialChannel.isReading channel)
                  (not_awaited (on_channel id SerialChannel.stopReading))
            | None => ret tt
            end) with stop_one.
  destruct (stop_each_effect (ids r) r) as [E0 [E1 _]].
  assert (Hk : ids (snd (for_each (ids r) stop_one r)) = ids r).
  { apply (@keys_for_each (fun l _ => l = ids r)); [|reflexivity].
    intros id. unfold stop_one.
    repeat keys_step (fun (l : list nat) (_ : nat) => l = ids r). }
  split; [exact E0|]. split; [exact Hk|].
  apply Forall_forall. intros [k ch] Hin. cbn [snd].
  apply (E1 k ch).
  - rewrite <- Hk. unfold ids. apply (in_map fst) in Hin. exact Hin.
  - apply In_map_get_NoDup; [|exact Hin]. fold (ids (snd (for_each (ids r) stop_one r))).
    rewrite Hk. exact Hd.
Qed.

End Registry.

(** X19.  The ids of the channels of a registry are distinct, and an id
    once given is never given again: after any calls of the page on a new
    registry, every id in it is below the counter the next id is taken
    from, now and after any further calls. *)
Theorem registry_ids_are_distinct_and_not_reused
    (parseFloat : jsstring -> number)
    (actions more : list MultiChannelSerialTest.action) :
  let r := MultiChannelSerialTest.perform_actions parseFloat actions
             MultiChannelSerialTest.constructor in
  let later := MultiChannelSerialTest.perform_actions parseFloat more r in
  NoDup (MultiChannelSerialTest.ids r) /\
  (forall id, In id (MultiChannelSerialTest.ids r) ->
              id < MultiChannelSerialTest.nextChannelId later).
Proof.
  cbv zeta.
  assert (H : registry_ok (MultiChannelSerialTest.perform_actions parseFloat actions
                             MultiChannelSerialTest.constructor)).
  { apply registry_ok_perform_actions. split; constructor. }
  destruct H as [Hd Hb]. split; [exact Hd|].
  intros id Hin. rewrite Forall_forall in Hb.
  eapply Nat.lt_le_trans; [apply Hb; exact Hin|].
  apply nextChannelId_perform_actions.
Qed.

(** X20.  After [stopAllReading()] no channel of the registry reads,
    whatever the devices do, and the call itself does not wait for any of
    them. *)
Theorem stopAllReading_stops_every_channel
    (parseFloat : jsstring -> number)
    (actions : list MultiChannelSerialTest.action) :
  let r := MultiChannelSerialTest.perform_actions parseFloat actions
             MultiChannelSerialTest.constructor in
  let r' := snd (MultiChannelSerialTest.stopAllReading r) in
  fst (MultiChannelSerialTest.stopAllReading r) = Ret tt /\
  MultiChannelSerialTest.ids r' = MultiChannelSerialTest.ids r /\
  Forall (fun kv => SerialChannel.isReading (snd kv) = false)
         (MultiChannelSerialTest.channels r').
Proof.
  cbv zeta. apply stopAllReading_effect.
  apply (registry_ok_perform_actions parseFloat actions). split; constructor.
Qed.

(** ** Starting all channels *)

Section StartAll.

#[local] Existing Instance SerialChannel.t_world.

Import MultiChannelSerialTest.

Variable parseFloat : jsstring -> number.

(** On a device that never stops sending, the loop of a channel that reads
    is still running after any number of turns. *)
Lemma read_loop_never_ends fuel :
  forall c : SerialChannel.t,
    SerialChannel.isReading c = true ->
    never_ending (dev (SerialChannel.env c)) ->
    fst (SerialChannel.read_loop parseFloat fuel c) = Pending /\
    SerialChannel.isReading (snd (SerialChannel.read_loop parseFloat fuel c)) = true.
Proof.
  induction fuel as [|fuel IH]; intros c HisR Hd.
  - split; [reflexivity|exact HisR].
  - destruct (Hd (occurrences KRead (trace (SerialChannel.env c)))) as [Hf [value Hl]].
    assert (Eread : @read SerialChannel.t _ c =
                    (Ret (Some value), record_event EvRead c)).
    { unfold read. cbn [world_of SerialChannel.t_world]. rewrite Hf, Hl. reflexivity. }
    set (c1 := record_event EvRead c) in *.
    assert (Hc1 : SerialChannel.isReading c1 = SerialChannel.isReading c /\
                  dev (SerialChannel.env c1) = dev (SerialChannel.env c)).
    { unfold c1. destruct c. split; reflexivity. }
    clearbody c1. destruct Hc1 as [A1 A2].
    pose proof (process_line_effect parseFloat value c1) as HP. cbv zeta in HP.
    assert (Estep : SerialChannel.read_loop parseFloat (S fuel) c =
                    SerialChannel.read_loop parseFloat fuel
                      (snd (SerialChannel.process_line parseFloat value c1))).
    { cbn [SerialChannel.read_loop]. unfold bind, get. rewrite HisR, Eread.
      destruct (SerialChannel.process_line parseFloat value c1) as [res c2].
      cbn [fst snd] in *. destruct HP as [-> _]. reflexivity. }
    rewrite Estep. destruct HP as [_ [B1 [_ [_ [_ [B5 _]]]]]].
    apply IH.
    + rewrite B1, A1. exact HisR.
    + rewrite B5, A2. exact Hd.
Qed.

Lemma startReading_never_returns fuel (c : SerialChannel.t) :
  SerialChannel.isConnected c = true ->
  SerialChannel.isReading c = false ->
  SerialChannel.writer c = true ->
  SerialChannel.lineReader c = true ->
  (forall data n, failure (dev (SerialChannel.env c)) (EvWrite data) n = None) ->
  never_ending (dev (SerialChannel.env c)) ->
  fst (SerialChannel.startReading parseFloat fuel c) = Pending /\
  SerialChannel.isReading (snd (SerialChannel.startReading parseFloat fuel c)) = true.
Proof.
  destruct c as [baud isC isR port lr wr did dcap dun met win con tim [dv tr tk]].
  cbn [SerialChannel.env SerialChannel.isConnected SerialChannel.isReading
       SerialChannel.writer SerialChannel.lineReader dev trace].
  intros -> -> -> -> Hw Hd.
  destruct (Hd (occurrences KRead tr)) as [Hf [value Hl]].
  pose proof (Hw (lit "wc" ++ [CR]) (occurrences KWrite tr)) as Hw0.
  destruct (SerialChannel.startReading parseFloat fuel _) as [r c'] eqn:E.
  io_run_loop_in E.
  match type of E with
  | context [SerialChannel.read_loop parseFloat fuel ?s] =>
      destruct (@read_loop_never_ends fuel s eq_refl Hd) as [L0 L1];
      destruct (SerialChannel.read_loop parseFloat fuel s) as [r1 c1]
  end.
  cbn [fst snd] in L0, L1. subst r1. injection E as <- <-.
  split; [reflexivity|exact L1].
Qed.

Lemma map_get_app_first (A : Type) id (v : A) before after :
  ~ In id (map fst before) ->
  map_get id (before ++ (id, v) :: after) = Some v.
Proof.
  induction before as [|[k x] rest IH]; simpl.
  - intros _. rewrite Nat.eqb_refl. reflexivity.
  - intros Hn. destruct (Nat.eqb_spec k id) as [->|_]; [tauto|].
    apply IH. tauto.
Qed.

Lemma map_set_app_first (A : Type) id (v v' : A) before after :
  ~ In id (map fst before) ->
  map_set id v' (before ++ (id, v) :: after) = before ++ (id, v') :: after.
Proof.
  induction before as [|[k x] rest IH]; simpl.
  - intros _. rewrite Nat.eqb_refl. reflexivity.
  - intros Hn. destruct (Nat.eqb_spec k id) as [->|_]; [tauto|].
    rewrite IH by tauto. reflexivity.
Qed.

(** [startAllReading()] when the first connected channel is idle and on a
    device that never stops sending. *)
Lemma startAllReading_blocked (r : t) before after id (c : SerialChannel.t) fuel :
  channels r = before ++ (id, c) :: after ->
  Forall (fun kv => SerialChannel.isConnected (snd kv) = false) before ->
  ~ In id (map fst before) ->
  SerialChannel.isConnected c = true ->
  SerialChannel.isReading c = false ->
  SerialChannel.writer c = true ->
  SerialChannel.lineReader c = true ->
  (forall data n, failure (dev (SerialChannel.env c)) (EvWrite data) n = None) ->
  never_ending (dev (SerialChannel.env c)) ->
  startAllReading parseFloat fuel r
  = (Pending,
     set_channels
       (before ++ (id, snd (SerialChannel.startReading parseFloat fuel c)) :: after) r) /\
  SerialChannel.isReading (snd (SerialChannel.startReading parseFloat fuel c)) = true.
Proof.
  intros Hch Hbefore Hid HisC HisR Hwr Hlr Hw Hd.
  destruct (startReading_never_returns fuel c HisC HisR Hwr Hlr Hw Hd) as [S0 S1].
  split; [|exact S1].
  unfold startAllReading. unfold bind at 1, get at 1. cbv iota beta.
  assert (Hids : ids_where SerialChannel.isConnected r
                 = id :: map fst (filter (fun kv => SerialChannel.isConnected (snd kv)) after)).
  { unfold ids_where. rewrite Hch, filter_app.
    assert (Hnone : filter (fun kv : nat * SerialChannel.t =>
                              SerialChannel.isConnected (snd kv)) before = []).
    { clear - Hbefore. induction Hbefore as [|kv l Hkv _ IH]; [reflexivity|].
      simpl. rewrite Hkv. exact IH. }
    rewrite Hnone. cbn [app filter snd]. rewrite HisC. reflexivity. }
  rewrite Hids. cbn [length Nat.eqb for_each].
  unfold bind at 1. unfold bind at 1, get at 1. cbv iota beta.
  rewrite Hch, map_get_app_first by exact Hid.
  rewrite HisR. cbn [negb when].
  unfold on_channel.
  rewrite Hch, map_get_app_first by exact Hid.
  destruct (SerialChannel.startReading parseFloat fuel c) as [res1 c1].
  cbn [fst snd] in *. subst res1.
  rewrite map_set_app_first by exact Hid. reflexivity.
Qed.

End StartAll.

(** X21.  [startAllReading()] starts the channels one after the other and
    waits for each: when the first connected channel is on a device that
    never stops sending, the call is still waiting for that channel after
    any number of turns of its loop, and the channels after it are as they
    were: none of them has been started. *)
Theorem startAllReading_waits_for_the_first_channel
    (parseFloat : jsstring -> number) (r : MultiChannelSerialTest.t)
    (before after : list (nat * SerialChannel.t)) (id : nat) (c : SerialChannel.t)
    (fuel : nat) :
  MultiChannelSerialTest.channels r = before ++ (id, c) :: after ->
  Forall (fun kv => SerialChannel.isConnected (snd kv) = false) before ->
  ~ In id (map fst before) ->
  SerialChannel.isConnected c = true ->
  SerialChannel.isReading c = false ->
  SerialChannel.writer c = true ->
  SerialChannel.lineReader c = true ->
  (forall data n, failure (dev (SerialChannel.env c)) (EvWrite data) n = None) ->
  never_ending (dev (SerialChannel.env c)) ->
  let r' := snd (MultiChannelSerialTest.startAllReading parseFloat fuel r) in
  fst (MultiChannelSerialTest.startAllReading parseFloat fuel r) = Pending /\
  exists c',
    MultiChannelSerialTest.channels r' = before ++ (id, c') :: after /\
    SerialChannel.isReading c' = true.
Proof.
  intros Hch Hbefore Hid HisC HisR Hwr Hlr Hw Hd. cbv zeta.
  destruct (@startAllReading_blocked parseFloat r before after id c fuel
              Hch Hbefore Hid HisC HisR Hwr Hlr Hw Hd) as [E S1].
  rewrite E. split; [reflexivity|].
  exists (snd (SerialChannel.startReading parseFloat fuel c)).
  split; [reflexivity|exact S1].
Qed.

Lemma startAllReading_waits_for_the_first_channel_witness :
  let c := Examples.connected_channel Examples.device_streaming in
  let r := MultiChannelSerialTest.mk [(1, c); (2, c)] 3 8 false None 9600 60 true in
  let r' := snd (MultiChannelSerialTest.startAllReading Examples.parse_weight 20 r) in
  fst (MultiChannelSerialTest.startAllReading Examples.parse_weight 20 r) = Pending /\
  exists c',
    MultiChannelSerialTest.channels r' = [(1, c'); (2, c)] /\
    SerialChannel.isReading c' = true.
Proof.
  intros c r.
  apply (@startAllReading_waits_for_the_first_channel
           Examples.parse_weight r [] [(2, c)] 1 c 20 eq_refl (Forall_nil _)
           (fun H : False => H) eq_refl eq_refl eq_refl eq_refl
           (fun _ _ => eq_refl)
           (fun n => conj eq_refl (ex_intro _ (lit "12.5") eq_refl))).
Defined.

(** ** The channels of a registry and the global figures *)

Section RegistryChannels.

Import MultiChannelSerialTest.

Variable parseFloat : jsstring -> number.

(** A property of a channel that a new channel has and every public method
    keeps. *)
Variable J : SerialChannel.t -> Prop.
Hypothesis J_new : forall baudRate d, J (SerialChannel.constructor baudRate d).
Hypothesis J_action :
  forall a, preserves J (SerialChannel.perform_action parseFloat a).

Let I (r : t) : Prop := Forall (fun kv => J (snd kv)) (channels r).

Lemma all_map_get id (m : list (nat * SerialChannel.t)) ch :
  Forall (fun kv => J (snd kv)) m -> map_get id m = Some ch -> J ch.
Proof.
  induction m as [|[k x] rest IH]; simpl; [discriminate|].
  intros HF. inversion HF as [|? ? Hx HF']; subst.
  destruct (k =? id); [intros [= <-]; exact Hx|apply IH; exact HF'].
Qed.

Lemma all_map_set id ch (m : list (nat * SerialChannel.t)) :
  Forall (fun kv => J (snd kv)) m -> J ch ->
  Forall (fun kv => J (snd kv)) (map_set id ch m).
Proof.
  intros HF Hch. induction m as [|[k x] rest IH]; simpl.
  - repeat constructor. exact Hch.
  - inversion HF as [|? ? Hx HF']; subst.
    destruct (k =? id); constructor; auto.
Qed.

Lemma all_map_delete id (m : list (nat * SerialChannel.t)) :
  Forall (fun kv => J (snd kv)) m ->
  Forall (fun kv => J (snd kv)) (map_delete id m).
Proof.
  intros HF. induction m as [|[k x] rest IH]; simpl; [constructor|].
  inversion HF as [|? ? Hx HF']; subst.
  destruct (k =? id); [exact HF'|constructor; auto].
Qed.

Lemma all_on_channel id (m : M SerialChannel.t unit) :
  preserves J m -> preserves I (on_channel id m).
Proof.
  intros Hm r Hr. unfold on_channel.
  destruct (map_get id (channels r)) as [ch|] eqn:E; [|exact Hr].
  pose proof (Hm ch (all_map_get _ Hr E)) as Hch.
  destruct (m ch) as [res ch']. unfold I. cbn [snd channels set_channels] in *.
  apply all_map_set; assumption.
Qed.

Lemma all_not_awaited (m : M t unit) : preserves I m -> preserves I (not_awaited m).
Proof. intros Hm r Hr. apply Hm. exact Hr. Qed.

Lemma all_for_each l (body : nat -> M t unit) :
  (forall id, preserves I (body id)) -> preserves I (for_each l body).
Proof.
  intros Hb. induction l as [|id rest IH]; simpl.
  - apply preserves_ret.
  - apply preserves_bind; [apply Hb|intros _; exact IH].
Qed.

Ltac all_step :=
  match goal with
  | |- preserves _ (on_channel _ SerialChannel.connect) =>
      apply all_on_channel; exact (J_action SerialChannel.Connect)
  | |- preserves _ (on_channel _ SerialChannel.disconnect) =>
      apply all_on_channel; exact (J_action SerialChannel.Disconnect)
  | |- preserves _ (on_channel _ SerialChannel.stopReading) =>
      apply all_on_channel; exact (J_action SerialChannel.StopReading)
  | |- preserves _ (on_channel _ SerialChannel.refreshDeviceInfo) =>
      apply all_on_channel; exact (J_action SerialChannel.RefreshDeviceInfo)
  | |- preserves _ (on_channel _ SerialChannel.clearData) =>
      apply all_on_channel; exact (J_action SerialChannel.ClearData)
  | |- preserves _ (on_channel _ (SerialChannel.startReading _ ?fuel)) =>
      apply all_on_channel; exact (J_action (SerialChannel.StartReading fuel))
  | |- preserves _ (on_channel _ (SerialChannel.perform_action _ ?a)) =>
      apply all_on_channel; exact (J_action a)
  | |- preserves _ (not_awaited _) => apply all_not_awaited
  | |- preserves _ (for_each _ _) => apply all_for_each
  | |- preserves _ (modify (set_nextChannelId _)) =>
      apply preserves_modify; intros ? Hinv; exact Hinv
  | |- preserves _ (modify (set_isGlobalTestRunning _)) =>
      apply preserves_modify; intros ? Hinv; exact Hinv
  | |- preserves _ (modify (set_globalTestTimeout _)) =>
      apply preserves_modify; intros ? Hinv; exact Hinv
  | |- preserves _ (modify (set_channels [])) =>
      apply preserves_modify; intros ? _; constructor
  | |- preserves _ (modify _) =>
      apply preserves_modify; intros ? Hinv; unfold I in *;
      cbn [channels set_channels];
      first [apply all_map_set; [exact Hinv|apply J_new] | apply all_map_delete; exact Hinv]
  | _ => preserves_step
  end.

Lemma all_perform_action a : preserves I (perform_action parseFloat a).
Proof.
  destruct a; simpl.
  - unfold addChannel. repeat all_step.
  - unfold removeChannel. repeat all_step.
  - unfold removeAllChannels. repeat all_step.
  - unfold refreshChannels. repeat all_step.
  - unfold connectAllChannels. repeat all_step.
  - unfold disconnectAllChannels. repeat all_step.
  - unfold startAllReading. repeat all_step.
  - unfold stopAllReading. repeat all_step.
  - unfold clearAllData. repeat all_step.
  - unfold startGlobalTest, clearAllData, startAllReading. repeat all_step.
  - unfold stopGlobalTest, stopAllReading. repeat all_step.
  - all_step.
Qed.

Lemma all_perform_actions actions :
  forall r, I r -> I (perform_actions parseFloat actions r).
Proof.
  induction actions as [|a rest IH]; intros r Hr; [exact Hr|].
  simpl. apply IH. apply all_perform_action. exact Hr.
Qed.

End RegistryChannels.

Section GlobalFigures.

Import MultiChannelSerialTest.

Lemma filter_length_mono (A : Type) (p q : A -> bool) (l : list A) :
  Forall (fun x => p x = true -> q x = true) l ->
  length (filter p l) <= length (filter q l).
Proof.
  induction 1 as [|x t Hx _ IH]; simpl; [lia|].
  destruct (p x) eqn:Ep.
  - rewrite (Hx eq_refl). simpl. lia.
  - destruct (q x); simpl; lia.
Qed.

End GlobalFigures.

(** X22.  The counts [updateGlobalMetrics()] shows, on any registry: the
    number of connected channels and the number of reading channels are
    each at most the number of channels; and when every channel of the
    registry is one whose calls did not overlap (a settled run on a new
    channel, and at most one more call, which may hang), the number of
    reading channels is at most the number of connected channels.  (With
    calls that overlap, as [disconnectAllChannels()] followed at once by
    [startAllReading()], nothing is stated of these two counts.) *)
Theorem global_counts_are_ordered
    (parseFloat : jsstring -> number) (r : MultiChannelSerialTest.t) :
  Forall (fun kv : nat * SerialChannel.t => settled_channel parseFloat (snd kv))
         (MultiChannelSerialTest.channels r) ->
  let g := MultiChannelSerialTest.updateGlobalMetrics r in
  MultiChannelSerialTest.readingChannels g <= MultiChannelSerialTest.connectedChannels g /\
  MultiChannelSerialTest.connectedChannels g <= MultiChannelSerialTest.totalChannels g /\
  MultiChannelSerialTest.readingChannels g <= MultiChannelSerialTest.totalChannels g.
Proof.
  intros Hsettled. cbv zeta.
  assert (H : Forall (fun kv : nat * SerialChannel.t => handles_consistent (snd kv))
                     (MultiChannelSerialTest.channels r)).
  { eapply Forall_impl; [|exact Hsettled].
    intros kv Hkv. apply settled_channel_handles with (1 := Hkv). }
  unfold MultiChannelSerialTest.updateGlobalMetrics.
  cbn [MultiChannelSerialTest.readingChannels MultiChannelSerialTest.connectedChannels
       MultiChannelSerialTest.totalChannels].
  split; [|split].
  - apply filter_length_mono. apply Forall_map.
    eapply Forall_impl; [|exact H]. intros kv Hkv. apply Hkv.
  - rewrite <- (length_map snd (MultiChannelSerialTest.channels r)).
    apply List.filter_length_le.
  - rewrite <- (length_map snd (MultiChannelSerialTest.channels r)).
    apply List.filter_length_le.
Qed.

(** Two channels: one connected and reading, one new. *)
Lemma global_counts_are_ordered_witness :
  let new := SerialChannel.constructor 9600 Examples.device_streaming in
  let c0 := snd (SerialChannel.connect new) in
  let c := snd (SerialChannel.startReading Examples.parse_weight 3 c0) in
  let r := MultiChannelSerialTest.mk [(1, c); (2, new)] 3 8 false None 9600 60 true in
  let g := MultiChannelSerialTest.updateGlobalMetrics r in
  MultiChannelSerialTest.readingChannels g = 1 /\
  MultiChannelSerialTest.connectedChannels g = 1 /\
  MultiChannelSerialTest.totalChannels g = 2 /\
  MultiChannelSerialTest.readingChannels g <= MultiChannelSerialTest.connectedChannels g.
Proof.
  intros new c0 c r g.
  split; [vm_compute; reflexivity|]. split; [vm_compute; reflexivity|].
  split; [vm_compute; reflexivity|].
  assert (Hr : Forall (fun kv : nat * SerialChannel.t =>
                         settled_channel Examples.parse_weight (snd kv))
                      (MultiChannelSerialTest.channels r)).
  { constructor; [|constructor; [|constructor]].
    - exists 9600%Z, Examples.device_streaming, [SerialChannel.Connect], c0.
      split; [vm_compute; reflexivity|].
      right. exists (SerialChannel.StartReading 3). vm_compute. reflexivity.
    - exists 9600%Z, Examples.device_streaming, [], new.
      split; [reflexivity|]. left. reflexivity. }
  exact (proj1 (@global_counts_are_ordered Examples.parse_weight r Hr)).
Defined.

(** ** Clearing all channels *)

Section ClearAll.

Import MultiChannelSerialTest.

Lemma set_channels_same (r : t) : set_channels (channels r) r = r.
Proof. destruct r. reflexivity. Qed.

(** A method that always returns, awaited on every channel in turn, is
    applied to every channel, and the loop returns. *)
Lemma for_each_awaited_registry (m : M SerialChannel.t unit) :
  (forall ch, fst (m ch) = Ret tt) ->
  forall todo done r,
    channels r = done ++ todo ->
    NoDup (map fst (done ++ todo)) ->
    for_each (map fst todo) (fun id => on_channel id m) r
    = (Ret tt,
       set_channels (done ++ map (fun kv => (fst kv, snd (m (snd kv)))) todo) r).
Proof.
  intros Hret. induction todo as [|[id ch] rest IH]; intros done r Hch Hd.
  - cbn [map for_each]. rewrite <- Hch, set_channels_same. reflexivity.
  - cbn [map fst for_each]. unfold bind.
    assert (Hid : ~ In id (map fst done)).
    { rewrite map_app in Hd. cbn [map fst] in Hd.
      apply NoDup_remove_2 in Hd. intros Hin. apply Hd.
      apply in_or_app. left. exact Hin. }
    unfold on_channel at 1. rewrite Hch, map_get_app_first by exact Hid.
    pose proof (Hret ch) as Hr.
    destruct (m ch) as [res ch'] eqn:Em. cbn [fst] in Hr. subst res.
    rewrite map_set_app_first by exact Hid.
    rewrite (IH (done ++ [(id, ch')])).
    + rewrite <- app_assoc. cbn [app map fst snd]. rewrite Em. reflexivity.
    + cbn [channels set_channels]. rewrite <- app_assoc. reflexivity.
    + rewrite <- app_assoc. cbn [app]. rewrite !map_app in *. exact Hd.
Qed.

Lemma clearData_effect (ch : SerialChannel.t) :
  fst (SerialChannel.clearData ch) = Ret tt /\
  SerialChannel.metrics (snd (SerialChannel.clearData ch))
    = Metrics.clear (SerialChannel.metrics ch) /\
  SerialChannel.weightWindow (snd (SerialChannel.clearData ch)) = [] /\
  SerialChannel.isConnected (snd (SerialChannel.clearData ch))
    = SerialChannel.isConnected ch /\
  SerialChannel.isReading (snd (SerialChannel.clearData ch))
    = SerialChannel.isReading ch.
Proof. destruct ch. repeat split. Qed.

Lemma fold_left_map (A B C : Type) (f : A -> C -> A) (g : B -> C) (l : list B) :
  forall a, fold_left f (map g l) a = fold_left (fun acc x => f acc (g x)) l a.
Proof. induction l as [|x t IH]; intros a; [reflexivity|apply IH]. Qed.

Lemma fold_left_ext_in (A B : Type) (f g : A -> B -> A) (l : list B) :
  (forall a x, f a x = g a x) -> forall a, fold_left f l a = fold_left g l a.
Proof.
  intros H. induction l as [|x t IH]; intros a; [reflexivity|].
  simpl. rewrite H. apply IH.
Qed.

Lemma fold_left_app_nil (A B : Type) (g : B -> list A) (l : list B) :
  (forall x, g x = []) -> forall a, fold_left (fun acc x => acc ++ g x) l a = a.
Proof.
  intros H. induction l as [|x t IH]; intros a; [reflexivity|].
  simpl. rewrite H, app_nil_r. apply IH.
Qed.

Lemma filter_map_length (A : Type) (p : A -> bool) (g : A -> A) (l : list A) :
  (forall x, p (g x) = p x) ->
  length (filter p (map g l)) = length (filter p l).
Proof.
  intros H. induction l as [|x t IH]; [reflexivity|].
  cbn [map filter]. rewrite H. destruct (p x); cbn [length]; rewrite IH; reflexivity.
Qed.

Lemma clearAllData_effect (r : t) :
  NoDup (ids r) ->
  channels (snd (clearAllData r))
  = map (fun kv => (fst kv, snd (SerialChannel.clearData (snd kv)))) (channels r).
Proof.
  intros Hd. unfold clearAllData. unfold bind, get, ids. cbv iota beta.
  rewrite (for_each_awaited_registry SerialChannel.clearData
             (fun ch => proj1 (clearData_effect ch)) (channels r) [] r eq_refl Hd).
  reflexivity.
Qed.

End ClearAll.

(** X23.  [clearAllData()] empties the readings and the window of every
    channel, and the readings per second the page then shows are 0; but the
    total of readings and the latency [updateGlobalMetrics()] shows after it
    are those of before: they are computed from the [totalReadings] and
    [avgLatency] of the channels, which a clearing leaves as they are. *)
Theorem clearAllData_keeps_the_global_totals
    (parseFloat : jsstring -> number)
    (actions : list MultiChannelSerialTest.action) :
  let r := MultiChannelSerialTest.perform_actions parseFloat actions
             MultiChannelSerialTest.constructor in
  let r' := snd (MultiChannelSerialTest.clearAllData r) in
  let g := MultiChannelSerialTest.updateGlobalMetrics r in
  let g' := MultiChannelSerialTest.updateGlobalMetrics r' in
  Forall (fun kv =>
            Metrics.readings (SerialChannel.metrics (snd kv)) = [] /\
            Metrics.latencies (SerialChannel.metrics (snd kv)) = [] /\
            SerialChannel.weightWindow (snd kv) = [])
         (MultiChannelSerialTest.channels r') /\
  MultiChannelSerialTest.avgReadingsPerSecond g' = 0 /\
  MultiChannelSerialTest.totalReadings g' = MultiChannelSerialTest.totalReadings g /\
  MultiChannelSerialTest.avgLatency g' = MultiChannelSerialTest.avgLatency g /\
  MultiChannelSerialTest.totalChannels g' = MultiChannelSerialTest.totalChannels g /\
  MultiChannelSerialTest.connectedChannels g' = MultiChannelSerialTest.connectedChannels g /\
  MultiChannelSerialTest.readingChannels g' = MultiChannelSerialTest.readingChannels g.
Proof.
  cbv zeta.
  set (r := MultiChannelSerialTest.perform_actions parseFloat actions
              MultiChannelSerialTest.constructor).
  assert (Hd : NoDup (MultiChannelSerialTest.ids r)).
  { apply (registry_ok_perform_actions parseFloat actions). split; constructor. }
  clearbody r.
  pose proof (@clearAllData_effect r Hd) as E.
  set (cleared := fun ch : SerialChannel.t => snd (SerialChannel.clearData ch)) in *.
  assert (Hm : forall ch, SerialChannel.metrics (cleared ch)
                          = Metrics.clear (SerialChannel.metrics ch)).
  { intros ch. apply clearData_effect. }
  assert (Evalues : map snd (MultiChannelSerialTest.channels
                               (snd (MultiChannelSerialTest.clearAllData r)))
                    = map cleared (map snd (MultiChannelSerialTest.channels r))).
  { rewrite E, !map_map. reflexivity. }
  unfold MultiChannelSerialTest.updateGlobalMetrics.
  cbn [MultiChannelSerialTest.avgReadingsPerSecond MultiChannelSerialTest.totalReadings
       MultiChannelSerialTest.avgLatency MultiChannelSerialTest.totalChannels
       MultiChannelSerialTest.connectedChannels MultiChannelSerialTest.readingChannels].
  rewrite Evalues.
  set (values := map snd (MultiChannelSerialTest.channels r)).
  assert (Etotal :
    fold_left (fun acc channel => acc + Metrics.totalReadings (SerialChannel.metrics channel))
              (map cleared values) 0
    = fold_left (fun acc channel => acc + Metrics.totalReadings (SerialChannel.metrics channel))
                values 0).
  { rewrite fold_left_map. apply fold_left_ext_in. intros a x. rewrite Hm. reflexivity. }
  split; [|split; [|split; [|split; [|split; [|split]]]]].
  - rewrite E. apply Forall_map. apply Forall_forall. intros kv _. cbn [snd].
    fold (cleared (snd kv)). rewrite Hm.
    split; [reflexivity|]. split; [reflexivity|apply clearData_effect].
  - rewrite fold_left_map, fold_left_app_nil; [reflexivity|].
    intros x. rewrite Hm. reflexivity.
  - exact Etotal.
  - rewrite Etotal, fold_left_map.
    rewrite (@fold_left_ext_in _ _
               (fun acc x =>
                  add acc (MultiChannelSerialTest.mul_count
                             (Metrics.avgLatency (SerialChannel.metrics (cleared x)))
                             (Metrics.totalReadings (SerialChannel.metrics (cleared x)))))
               (fun acc channel =>
                  add acc (MultiChannelSerialTest.mul_count
                             (Metrics.avgLatency (SerialChannel.metrics channel))
                             (Metrics.totalReadings (SerialChannel.metrics channel))))
               values); [reflexivity|].
    intros a x. rewrite Hm. reflexivity.
  - rewrite E. apply length_map.
  - apply filter_map_length. intros x. apply clearData_effect.
  - apply filter_map_length. intros x. apply clearData_effect.
Qed.

(** ** Readings per second of the registry *)

Section GlobalRate.

Import MultiChannelSerialTest.

Lemma length_fold_app (A B : Type) (g : B -> list A) (l : list B) :
  forall a,
    length (fold_left (fun acc x => acc ++ g x) l a)
    = length a + list_sum (map (fun x => length (g x)) l).
Proof.
  induction l as [|x t IH]; intros a; simpl; [lia|].
  rewrite IH, length_app. lia.
Qed.

End GlobalRate.

(** X24.  The figure [updateGlobalMetrics()] shows as the average readings
    per second is no average: after any calls of the page on a new
    registry it is the sum of the [readingsPerSecond] of the channels, each
    as its last reading or clearing left it. *)
Theorem global_rate_is_the_sum_of_the_channel_rates
    (parseFloat : jsstring -> number)
    (actions : list MultiChannelSerialTest.action) :
  let r := MultiChannelSerialTest.perform_actions parseFloat actions
             MultiChannelSerialTest.constructor in
  MultiChannelSerialTest.avgReadingsPerSecond
    (MultiChannelSerialTest.updateGlobalMetrics r)
  = list_sum
      (map (fun kv => Metrics.readingsPerSecond (SerialChannel.metrics (snd kv)))
           (MultiChannelSerialTest.channels r)).
Proof.
  cbv zeta.
  set (r := MultiChannelSerialTest.perform_actions parseFloat actions
              MultiChannelSerialTest.constructor).
  set (P := fun m : Metrics.t =>
              Metrics.readingsPerSecond m = length (Metrics.readingsInLastSecond m)).
  assert (H : Forall (fun kv : nat * SerialChannel.t => P (SerialChannel.metrics (snd kv)))
                     (MultiChannelSerialTest.channels r)).
  { apply (@all_perform_actions parseFloat (fun c => P (SerialChannel.metrics c))).
    - intros baudRate d. reflexivity.
    - apply preserves_perform_action.
      + intros m _. reflexivity.
      + intros m Hm. unfold P, Metrics.updateMetrics in *.
        destruct (length (Metrics.readings m) =? 0); exact Hm.
      + intros m w ts now _. unfold P, Metrics.updateMetrics.
        destruct (length (Metrics.readings _) =? 0); reflexivity.
    - constructor. }
  clearbody r. unfold MultiChannelSerialTest.updateGlobalMetrics.
  cbn [MultiChannelSerialTest.avgReadingsPerSecond].
  rewrite length_fold_app, map_map. cbn [length Nat.add].
  f_equal. apply map_ext_Forall.
  eapply Forall_impl; [|exact H]. intros kv Hkv. symmetry. exact Hkv.
Qed.

(** ** The global test *)

Section GlobalTest.

Import MultiChannelSerialTest.

Variable parseFloat : jsstring -> number.

Lemma clearData_keeps_handles (ch : SerialChannel.t) :
  SerialChannel.writer (snd (SerialChannel.clearData ch)) = SerialChannel.writer ch /\
  SerialChannel.lineReader (snd (SerialChannel.clearData ch))
    = SerialChannel.lineReader ch /\
  SerialChannel.env (snd (SerialChannel.clearData ch)) = SerialChannel.env ch.
Proof. destruct ch. repeat split. Qed.

End GlobalTest.

(** X25.  [startGlobalTest()] sets the timer that ends the test only once
    [startAllReading()] has returned.  When the first connected channel is
    idle and on a device that never stops sending, the call is still
    waiting after any number of turns of that channel's loop: the test is
    marked as running, that channel reads, and no timer has been set, so
    nothing will end the test after its duration. *)
Theorem startGlobalTest_sets_no_timer_while_reading
    (parseFloat : jsstring -> number) (r : MultiChannelSerialTest.t)
    (before after : list (nat * SerialChannel.t)) (id : nat) (c : SerialChannel.t)
    (fuel : nat) :
  MultiChannelSerialTest.isGlobalTestRunning r = false ->
  NoDup (MultiChannelSerialTest.ids r) ->
  MultiChannelSerialTest.channels r = before ++ (id, c) :: after ->
  Forall (fun kv => SerialChannel.isConnected (snd kv) = false) before ->
  SerialChannel.isConnected c = true ->
  SerialChannel.isReading c = false ->
  SerialChannel.writer c = true ->
  SerialChannel.lineReader c = true ->
  (forall data n, failure (dev (SerialChannel.env c)) (EvWrite data) n = None) ->
  never_ending (dev (SerialChannel.env c)) ->
  let r' := snd (MultiChannelSerialTest.startGlobalTest parseFloat fuel r) in
  fst (MultiChannelSerialTest.startGlobalTest parseFloat fuel r) = Pending /\
  MultiChannelSerialTest.isGlobalTestRunning r' = true /\
  MultiChannelSerialTest.globalTestTimeout r'
    = MultiChannelSerialTest.globalTestTimeout r /\
  exists c',
    MultiChannelSerialTest.map_get id (MultiChannelSerialTest.channels r') = Some c' /\
    SerialChannel.isReading c' = true.
Proof.
  intros Hrun Hd Hch Hbefore HisC HisR Hwr Hlr Hw Hdev. cbv zeta.
  set (cleared := fun kv : nat * SerialChannel.t =>
                    (fst kv, snd (SerialChannel.clearData (snd kv)))).
  assert (Hid : ~ In id (map fst (map cleared before))).
  { rewrite map_map. cbn [cleared fst].
    unfold MultiChannelSerialTest.ids in Hd. rewrite Hch, map_app in Hd.
    cbn [map fst] in Hd. apply NoDup_remove_2 in Hd.
    intros Hin. apply Hd. apply in_or_app. left. exact Hin. }
  set (r1 := MultiChannelSerialTest.set_isGlobalTestRunning true r).
  assert (Eclear : MultiChannelSerialTest.clearAllData r1
                   = (Ret tt,
                      MultiChannelSerialTest.set_channels
                        (map cleared (MultiChannelSerialTest.channels r)) r1)).
  { unfold MultiChannelSerialTest.clearAllData, bind, get. cbv iota beta.
    apply (for_each_awaited_registry SerialChannel.clearData
             (fun ch => proj1 (clearData_effect ch))
             (MultiChannelSerialTest.channels r) [] r1 eq_refl Hd). }
  set (r2 := MultiChannelSerialTest.set_channels
               (map cleared (MultiChannelSerialTest.channels r)) r1) in *.
  set (c2 := snd (SerialChannel.clearData c)).
  assert (Hch2 : MultiChannelSerialTest.channels r2
                 = map cleared before ++ (id, c2) :: map cleared after).
  { unfold r2. cbn [MultiChannelSerialTest.channels MultiChannelSerialTest.set_channels].
    rewrite Hch, map_app. reflexivity. }
  destruct (clearData_effect c) as [_ [_ [_ [K1 K2]]]].
  destruct (clearData_keeps_handles c) as [K3 [K4 K5]].
  fold c2 in K1, K2, K3, K4, K5.
  destruct (@startAllReading_blocked parseFloat r2 (map cleared before)
              (map cleared after) id c2 fuel Hch2) as [E S1].
  - apply Forall_map. eapply Forall_impl; [|exact Hbefore].
    intros kv Hkv. cbn [cleared snd].
    rewrite (proj1 (proj2 (proj2 (proj2 (clearData_effect (snd kv)))))). exact Hkv.
  - exact Hid.
  - rewrite K1. exact HisC.
  - rewrite K2. exact HisR.
  - rewrite K3. exact Hwr.
  - rewrite K4. exact Hlr.
  - rewrite K5. exact Hw.
  - rewrite K5. exact Hdev.
  - assert (Eg : MultiChannelSerialTest.startGlobalTest parseFloat fuel r
                 = (Pending,
                    MultiChannelSerialTest.set_channels
                      (map cleared before
                       ++ (id, snd (SerialChannel.startReading parseFloat fuel c2))
                       :: map cleared after) r2)).
    { unfold MultiChannelSerialTest.startGlobalTest.
      unfold bind at 1, get at 1. cbv iota beta. rewrite Hrun.
      unfold bind at 1, modify at 1. cbv iota beta. fold r1.
      unfold bind at 1. rewrite Eclear. cbv iota beta.
      unfold bind at 1. rewrite E. reflexivity. }
    rewrite Eg.
    cbn [fst snd MultiChannelSerialTest.isGlobalTestRunning
         MultiChannelSerialTest.globalTestTimeout MultiChannelSerialTest.channels
         MultiChannelSerialTest.set_channels
         MultiChannelSerialTest.set_isGlobalTestRunning r1 r2].
    split; [reflexivity|]. split; [reflexivity|]. split; [reflexivity|].
    exists (snd (SerialChannel.startReading parseFloat fuel c2)).
    split; [apply map_get_app_first; exact Hid|exact S1].
Qed.

Lemma startGlobalTest_sets_no_timer_while_reading_witness :
  let c := Examples.connected_channel Examples.device_streaming in
  let r := MultiChannelSerialTest.mk [(1, c); (2, c)] 3 8 false None 9600 60 true in
  let r' := snd (MultiChannelSerialTest.startGlobalTest Examples.parse_weight 20 r) in
  fst (MultiChannelSerialTest.startGlobalTest Examples.parse_weight 20 r) = Pending /\
  MultiChannelSerialTest.isGlobalTestRunning r' = true /\
  MultiChannelSerialTest.globalTestTimeout r' = None.
Proof.
  intros c r.
  assert (Hd : NoDup (MultiChannelSerialTest.ids r)).
  { repeat constructor; simpl; intuition discriminate. }
  destruct (@startGlobalTest_sets_no_timer_while_reading
              Examples.parse_weight r [] [(2, c)] 1 c 20 eq_refl Hd eq_refl
              (Forall_nil _) eq_refl eq_refl eq_refl eq_refl
              (fun _ _ => eq_refl)
              (fun n => conj eq_refl (ex_intro _ (lit "12.5") eq_refl)))
    as [H0 [H1 [H2 _]]].
  split; [exact H0|]. split; [exact H1|exact H2].
Defined.
